(** * fgivenx: a shallow embedding of the sample pipeline, the parallel
    engine and the probability mass transform.

    Source files embedded here:
    - [fgivenx/parallel.py]  ([openmp_apply], [mpi_scatter_array],
                              [mpi_gather_array], [mpi_apply]),
    - [fgivenx/samples.py]   ([trim_samples], [compute_samples]),
    - [fgivenx/__init__.py]  (the argument checking and the weight
                              arithmetic of [compute_samples],
                              [compute_kullback_liebler] for one model),
    - [fgivenx/mass.py]      ([PMF.__init__], [PMF.__call__]).

    Conventions.  A Python call that may raise returns a [result]; text sent
    to standard output is collected in a log; objects that are mutated in
    place live in an explicit heap and are passed by reference.  Finite
    doubles are modelled by the rationals [Q] wherever the code only
    compares, sorts or copies them, and by the reals [R] where it takes
    logarithms and exponentials; NaN and rounding are outside the model. *)

From Stdlib Require Import ZArith QArith Qreals Reals Lra Lia List String Ascii.
From Stdlib Require Import Sorting Permutation.
From Stdlib Require Lqa.
From stdpp Require Import gmap strings pretty.
Import ListNotations.

(** ** Python values shared by all modules *)

Module Py.

(** The exceptions the embedded code can raise. *)
Inductive exn : Type :=
| KeyError (key : string)
| EnvironmentError (msg : string)
| ValueError (msg : string)
| TypeError (msg : string)
| IndexError (msg : string)
| ZeroDivisionError (msg : string)
| LinAlgError (msg : string)
| CacheError (msg : string)
| MPI_Exception (msg : string).

(** A call either returns a value or raises. *)
Inductive result (A : Type) : Type :=
| Ok (a : A)
| Raise (e : exn).
Arguments Ok {A} a.
Arguments Raise {A} e.

Definition bind {A B} (m : result A) (k : A -> result B) : result B :=
  match m with
  | Ok a => k a
  | Raise e => Raise e
  end.

(** Code that prints: the lines written so far, and how the call ended.
    A raise keeps what was printed before it. *)
Definition io (A : Type) : Type := (list string * result A)%type.

Definition ret {A} (a : A) : io A := ([], Ok a).
Definition raise {A} (e : exn) : io A := ([], Raise e).
Definition lift {A} (r : result A) : io A := ([], r).
Definition print (line : string) : io unit := ([line], Ok tt).

Definition io_bind {A B} (m : io A) (k : A -> io B) : io B :=
  match m with
  | (out, Ok a) => let (out', r) := k a in (out ++ out', r)
  | (out, Raise e) => (out, Raise e)
  end.

(** The two classes of object the environment test meets. *)
Inductive object : Type :=
| PyStr (s : string)
| PyInt (z : Z).

(** [o is n] for an [int] literal [n]: identity with that [int] object.
    A [str] object is never an [int] object, whatever its text. *)
Definition is_int (o : object) (n : Z) : bool :=
  match o with
  | PyInt z => (z =? n)%Z
  | PyStr _ => false
  end.

(** Truth value of a [str]: only the empty string is false. *)
Definition truth (s : string) : bool :=
  match s with
  | EmptyString => false
  | String _ _ => true
  end.

(** *** [int(s)] on a [str] *)

(** The text is read as ASCII: the ten digits, the six ASCII white space
    characters, a sign and single underscores between digits.  Python's
    [int] also reads the decimal digits and the white space of other
    scripts, and CPython 3.11 and later refuse texts of more than 4300
    digits; statements that depend on a text being refused are made for
    ASCII texts of at most 4300 characters. *)

Definition is_space (c : ascii) : bool :=
  let n := nat_of_ascii c in
  (n =? 32) || ((9 <=? n) && (n <=? 13)).

Definition digit_of (c : ascii) : option Z :=
  let n := nat_of_ascii c in
  if (48 <=? n) && (n <=? 57) then Some (Z.of_nat (n - 48)) else None.

Definition is_underscore (c : ascii) : bool := nat_of_ascii c =? 95.

Fixpoint lstrip (cs : list ascii) : list ascii :=
  match cs with
  | c :: cs' => if is_space c then lstrip cs' else cs
  | [] => []
  end.

Definition strip (cs : list ascii) : list ascii :=
  rev (lstrip (rev (lstrip cs))).

(** Decimal digits; a single underscore may sit between two digits.
    [acc] is the value read so far, [after_digit] tells whether the previous
    character was a digit. *)
Fixpoint digits (cs : list ascii) (acc : Z) (after_digit : bool) : option Z :=
  match cs with
  | [] => if after_digit then Some acc else None
  | c :: cs' =>
      match digit_of c with
      | Some d => digits cs' (10 * acc + d)%Z true
      | None =>
          if is_underscore c && after_digit then digits cs' acc false
          else None
      end
  end.

Definition int_of_str (s : string) : result Z :=
  let bad := Raise (ValueError "invalid literal for int() with base 10") in
  match strip (list_ascii_of_string s) with
  | [] => bad
  | c :: cs =>
      let n := nat_of_ascii c in
      if n =? 45 then
        match digits cs 0 false with Some z => Ok (- z)%Z | None => bad end
      else if n =? 43 then
        match digits cs 0 false with Some z => Ok z | None => bad end
      else
        match digits (c :: cs) 0 false with Some z => Ok z | None => bad end
  end.

End Py.

Notation "'do' x <- m ; k" := (Py.io_bind m (fun x => k))
  (at level 10, x name, m at level 100, k at level 200).
Notation "'do_' m ; k" := (Py.io_bind m (fun _ => k))
  (at level 10, m at level 100, k at level 200).

(** ** [fgivenx/parallel.py] *)

Module ParallelEngine.
Import Py.

(** *** Libraries the module calls *)

(** [os.environ[key]]: a missing key raises [KeyError]. *)
Definition environ_getitem (environ : gmap string string) (key : string)
  : result string :=
  match environ !! key with
  | Some v => Ok v
  | None => Raise (KeyError key)
  end.

(** [tqdm.tqdm(array)]: yields the elements of [array], in order, while it
    draws a progress bar on standard error. *)
Definition tqdm {V} (array : list V) : list V := array.

(** [joblib.delayed(f)] applied to arguments: the call, captured and not yet run. *)
Definition delayed {V W} (f : list V -> W) (args : list V)
  : (list V -> W) * list V := (f, args).

(** Running a captured call. *)
Definition run {V W} (task : (list V -> W) * list V) : W := fst task (snd task).

(** The workers of a pool finish their tasks in an order of their own.
    [finish] lists the numbers of the tasks in the order in which they
    finish; [completed] is what the workers hand in, each result under the
    number of its task. *)
Definition completed {V W} (tasks : list ((list V -> W) * list V))
    (finish : list nat) : list (nat * W) :=
  omap (fun i => option_map (fun task => (i, run task)) (tasks !! i)) finish.

(** The result handed in under the number [i]. *)
Fixpoint retrieve {W} (i : nat) (done : list (nat * W)) : option W :=
  match done with
  | [] => None
  | (j, w) :: done' => if i =? j then Some w else retrieve i done'
  end.

(** Every task finishes once. *)
Definition schedule (finish : list nat) (ntasks : nat) : Prop :=
  Permutation finish (seq 0 ntasks).

(** [joblib.Parallel(n_jobs=n)(tasks)]: the captured calls are dispatched
    to the pool, finish in the order [finish], and their results are
    retrieved in the order of dispatch.  A pool of zero workers is
    refused. *)
Definition Parallel {V W} (n_jobs : Z) (finish : list nat)
    (tasks : list ((list V -> W) * list V)) : result (list W) :=
  if (n_jobs =? 0)%Z
  then Raise (ValueError "n_jobs == 0 in Parallel has no meaning")
  else Ok (omap (fun i => retrieve i (completed tasks finish))
                (seq 0 (length tasks))).

(** *** [openmp_apply] *)

Definition OMP_NUM_THREADS : string := "OMP_NUM_THREADS".

Definition not_set_message : string :=
  "You have requested to use openmp, but the environmentvariable OMP_NUM_THREADS is not set".

Definition one_thread_warning : string :=
  "Warning: You have requested to use openmp, but environmentvariable OMP_NUM_THREADS=1".

(** [openmp_apply(f, array, nprocs, precurry=..., postcurry=...)] run in
    the environment [environ], on a pool whose tasks finish in the order
    [finish].  The three reads of [os.environ] are kept as the source has
    them. *)
Definition openmp_apply {V W} (environ : gmap string string)
    (finish : list nat) (f : list V -> W) (array : list V)
    (nprocs : option Z) (precurry postcurry : list V) : io (list W) :=
  do nprocs <-
    match nprocs with
    | Some n => ret n
    | None =>
        do hint <- lift (environ_getitem environ OMP_NUM_THREADS);
        do_ (if negb (truth hint)
             then raise (EnvironmentError not_set_message)
             else ret tt);
        do hint <- lift (environ_getitem environ OMP_NUM_THREADS);
        do_ (if is_int (PyStr hint) 1
             then print one_thread_warning
             else ret tt);
        do hint <- lift (environ_getitem environ OMP_NUM_THREADS);
        lift (int_of_str hint)
    end;
  lift (Parallel nprocs finish
          (map (fun x => delayed f (precurry ++ x :: postcurry)) (tqdm array))).

(** The sequential reference of the contract:
    [f] applied, for each [a] in [A] in turn, to the
    arguments of [precurry], then [a], then the arguments of [postcurry]. *)
Definition sequential_reference {V W} (f : list V -> W) (A : list V)
    (precurry postcurry : list V) : list W :=
  map (fun a => f (precurry ++ [a] ++ postcurry)) A.

(** The worker count a call settles on: the explicit [nprocs], or else the
    integer the non-empty hint spells. *)
Definition worker_count (environ : gmap string string) (nprocs : option Z)
    (n : Z) : Prop :=
  match nprocs with
  | Some m => m = n
  | None =>
      exists hint, environ !! OMP_NUM_THREADS = Some hint
                   /\ hint <> ""%string /\ int_of_str hint = Ok n
  end.

(** A hint on which [int] is as [int_of_str] models it: at most 4300
    characters, each of them a printable ASCII character or one of the six
    ASCII white space characters. *)
Definition plain_char (c : ascii) : bool :=
  let n := nat_of_ascii c in
  ((9 <=? n) && (n <=? 13)) || ((32 <=? n) && (n <=? 126)).

Definition plain_hint (hint : string) : bool :=
  (String.length hint <=? 4300) && forallb plain_char (list_ascii_of_string hint).

(** *** [mpi_scatter_array] *)

(** A numpy array of doubles: its shape and its elements in row-major
    order, which is also the buffer MPI reads and writes. *)
Record ndarray : Type := {
  shape : list Z;
  data : list Q
}.

(** [len(array)]: the extent of the leading axis. *)
Definition len (array : ndarray) : result Z :=
  match shape array with
  | n :: _ => Ok n
  | [] => Raise (TypeError "len() of unsized object")
  end.

(** [a // b] on integers. *)
Definition floordiv (a b : Z) : result Z :=
  if (b =? 0)%Z
  then Raise (ZeroDivisionError "integer division or modulo by zero")
  else Ok (a / b)%Z.

(** How many leading elements the slice [l[:k]] selects. *)
Definition slice_stop {A} (k : Z) (l : list A) : nat :=
  let n := Z.of_nat (length l) in
  Z.to_nat (if (k <? 0)%Z then Z.max 0 (n + k) else Z.min k n).

(** [l[:k] += 1] *)
Definition increment_prefix (k : Z) (l : list Z) : list Z :=
  map (fun c => (c + 1)%Z) (take (slice_stop k l) l) ++ drop (slice_stop k l) l.

(** The builtin [sum] of a list of integers *)
Definition sum_list (l : list Z) : Z := fold_right Z.add 0%Z l.

(** [numpy.cumsum] *)
Fixpoint cumsum_from (acc : Z) (l : list Z) : list Z :=
  match l with
  | [] => []
  | c :: l' => (acc + c)%Z :: cumsum_from (acc + c)%Z l'
  end.

Definition cumsum (l : list Z) : list Z := cumsum_from 0 l.

(** [numpy.insert(numpy.cumsum(sendcounts)[:-1], 0, 0)] *)
Definition displacements_of (sendcounts : list Z) : list Z :=
  0%Z :: removelast (cumsum sendcounts).

(** The counts and displacements rank 0 computes, in rows. *)
Definition row_layout (n nprocs : Z) : result (list Z * list Z) :=
  bind (floordiv n nprocs) (fun q =>
  let sendcounts := repeat q (Z.to_nat nprocs) in
  let sendcounts :=
    increment_prefix (n - sum_list sendcounts)%Z sendcounts in
  Ok (sendcounts, displacements_of sendcounts)).

(** [counts *= numpy.prod(dims)], in place on an integer array.  The
    product of an empty tuple is the double 1.0, and numpy refuses to store
    a double product back into an integer array. *)
Definition imul_prod (counts dims : list Z) : result (list Z) :=
  match dims with
  | [] => Raise (TypeError "Cannot cast ufunc 'multiply' output from dtype('float64') to dtype('int64')")
  | _ :: _ => Ok (map (fun c => c * fold_right Z.mul 1 dims)%Z counts)
  end.

(** How a call that takes part in collective communication ends on one
    rank: it returns, it raises a Python exception, MPI stops the program,
    or the rank waits for ever in a collective that another rank never
    enters. *)
Inductive outcome (A : Type) : Type :=
| Returns (a : A)
| Raises (e : exn)
| Aborts (msg : string)
| Waits.
Arguments Returns {A} a.
Arguments Raises {A} e.
Arguments Aborts {A} msg.
Arguments Waits {A}.

Definition of_result {A} (r : result A) : outcome A :=
  match r with
  | Ok a => Returns a
  | Raise e => Raises e
  end.

Definition obind {A B} (m : outcome A) (k : A -> outcome B) : outcome B :=
  match m with
  | Returns a => k a
  | Raises e => Raises e
  | Aborts msg => Aborts msg
  | Waits => Waits
  end.

(** The block the rank [rank] of a communicator of [nprocs] processes is
    sent, or else what stops the root on the way; [array] is the array of
    rank 0, the root of the three collectives.  Everything that can raise
    stands under [if rank is 0]. *)
Definition scattered (array : ndarray) (nprocs : Z) (rank : nat)
  : result ndarray :=
  bind (len array) (fun n =>
  bind (row_layout n nprocs) (fun '(sendcounts, displacements) =>
  let shape := shape array in                       (* comm.bcast(shape) *)
  let sendcount := nth rank sendcounts 0%Z in       (* comm.scatter(sendcounts) *)
  bind (imul_prod sendcounts (tl shape)) (fun sendcounts =>
  bind (imul_prod displacements (tl shape)) (fun displacements =>
  (* comm.Scatterv: rank r receives sendcounts[r] doubles from offset
     displacements[r] of the root's buffer *)
  let count := Z.to_nat (nth rank sendcounts 0%Z) in
  let start := Z.to_nat (nth rank displacements 0%Z) in
  Ok {| shape := sendcount :: tl shape;
        data := take count (drop start (data array)) |})))).

(** [mpi_scatter_array(array, comm)] as the rank [rank] sees it.  When the
    root raises, it alone raises: every other rank has gone on to a
    collective that the root never enters, and waits there. *)
Definition mpi_scatter_array (array : ndarray) (nprocs : Z) (rank : nat)
  : outcome ndarray :=
  match scattered array nprocs rank with
  | Ok array_local => Returns array_local
  | Raise e => if rank =? 0 then Raises e else Waits
  end.

(** Row [i] of an array, as a run of its buffer. *)
Definition row_size (array : ndarray) : nat :=
  Z.to_nat (fold_right Z.mul 1%Z (tl (shape array))).

Definition row (array : ndarray) (i : nat) : list Q :=
  take (row_size array) (drop (i * row_size array) (data array)).

(** The shape agrees with the buffer. *)
Definition well_shaped (array : ndarray) : Prop :=
  Forall (fun d => 0 <= d)%Z (shape array)
  /\ Z.of_nat (length (data array)) = fold_right Z.mul 1%Z (shape array).

(** The share of rank [r] when [n] rows are dealt to [p] ranks as evenly as
    possible, the remainder going to the lowest ranks. *)
Definition share (n p : Z) (r : nat) : Z :=
  (n / p + (if Z.of_nat r <? n mod p then 1 else 0))%Z.

(** The first row of rank [r]: the shares of the ranks below it. *)
Fixpoint first_row (n p : Z) (r : nat) : Z :=
  match r with
  | O => 0%Z
  | S r' => (first_row n p r' + share n p r')%Z
  end.

(** The counts rank 0 computes, before they are scaled. *)
Definition sendcounts_of (n nprocs : Z) : list Z :=
  increment_prefix
    (n - sum_list (repeat (n / nprocs) (Z.to_nat nprocs)))%Z
    (repeat (n / nprocs)%Z (Z.to_nat nprocs)).

End ParallelEngine.

(** ** [fgivenx/samples.py] *)

Module Samples.
Import Py.

(** *** The global random number generator of [numpy.random] *)

(** A generator: how a seed becomes a state, and how a state yields the
    next double of [[0, 1)] and the state that follows. *)
Class RandomState (state : Type) : Type := {
  seed : Z -> state;
  random_sample : state -> Q * state
}.

(** Code that reads and writes the global generator state.  A raise keeps
    the state the generator had reached. *)
Definition rand_io (state A : Type) : Type := state -> result A * state.

Section WithGenerator.
Context {state : Type} {G : RandomState state}.

Definition get_state : rand_io state state := fun st => (Ok st, st).

Definition set_state (saved : state) : rand_io state unit :=
  fun _ => (Ok tt, saved).

Definition random_seed (s : Z) : rand_io state unit :=
  fun _ => (Ok tt, seed s).

(** [numpy.random.rand(n)] *)
Fixpoint rand (n : nat) : rand_io state (list Q) :=
  fun st =>
    match n with
    | O => (Ok [], st)
    | S n' =>
        let (u, st1) := random_sample st in
        match rand n' st1 with
        | (Ok us, st2) => (Ok (u :: us), st2)
        | (Raise e, st2) => (Raise e, st2)
        end
    end.

Definition rbind {A B} (m : rand_io state A) (k : A -> rand_io state B)
  : rand_io state B :=
  fun st =>
    match m st with
    | (Ok a, st') => k a st'
    | (Raise e, st') => (Raise e, st')
    end.

Definition rlift {A} (r : result A) : rand_io state A := fun st => (r, st).

(** [us < weights], elementwise on two vectors of one length. *)
Definition less (us weights : list Q) : list bool :=
  zip_with (fun u w => if Qlt_le_dec u w then true else false) us weights.

(** [samples[choices]] with a boolean mask: the rows whose flag is set;
    the mask has to be as long as the array. *)
Definition mask_index {T} (samples : list T) (choices : list bool)
  : result (list T) :=
  if length samples =? length choices
  then Ok (map fst (List.filter snd (zip samples choices)))
  else Raise (IndexError "boolean index did not match indexed array along dimension 0").

(** [trim_samples(samples, weights, ntrim)] *)
Definition trim_samples {T} (samples : list T) (weights : list Q) (ntrim : Z)
  : rand_io state (list T) :=
  rbind get_state (fun state0 =>
  rbind (random_seed 1) (fun _ =>
  let n := length weights in
  rbind (rand n) (fun us =>
  let choices := less us weights in
  rbind (rlift (mask_index samples choices)) (fun new_samples =>
  rbind (set_state state0) (fun _ =>
  rlift (Ok new_samples)))))).

End WithGenerator.

(** *** The cache of [fgivenx.io] *)

(** The x grid, the samples of every model, and a matrix of values. *)
Definition grid : Type := list Q.
Definition sample_sets : Type := list (list (list Q)).
Definition matrix : Type := list (list Q).

Definition vector_eqb (a b : list Q) : bool :=
  (length a =? length b) && forallb (fun p => Qeq_bool (fst p) (snd p)) (zip a b).

Definition matrix_eqb (a b : list (list Q)) : bool :=
  (length a =? length b)
  && forallb (fun p => vector_eqb (fst p) (snd p)) (zip a b).

Definition sample_sets_eqb (a b : sample_sets) : bool :=
  (length a =? length b)
  && forallb (fun p => matrix_eqb (fst p) (snd p)) (zip a b).

(** Modelled from the spec: the cache entry of [fgivenx.io], which is not
    among the sources.  An entry stores the inputs next to the output. *)
Record cache_entry : Type := {
  stored_x : grid;
  stored_samples : sample_sets;
  stored_result : matrix
}.

(** Modelled from the spec: [Cache(name)] of [fgivenx.io]; the object only
    remembers the path its entry is kept under. *)
Definition Cache (name : string) : string := name.

(** Modelled from the spec: [Cache.check] of [fgivenx.io].  It returns the
    stored result only if the stored x and samples are element-wise
    identical to the arguments, and otherwise fails with a cache error that
    carries a diagnostic message. *)
Definition check (cache : string) (disk : gmap string cache_entry)
    (x : grid) (samples : sample_sets) : result matrix :=
  match disk !! cache with
  | None => Raise (CacheError (cache ++ ": no cache entry"))
  | Some entry =>
      if vector_eqb (stored_x entry) x
         && sample_sets_eqb (stored_samples entry) samples
      then Ok (stored_result entry)
      else Raise (CacheError (cache ++ ": stored inputs differ"))
  end.

(** Modelled from the spec: [Cache.save] of [fgivenx.io].  It persists the
    triple under the cache's path, overwriting any previous entry. *)
Definition save (cache : string) (disk : gmap string cache_entry)
    (x : grid) (samples : sample_sets) (result : matrix)
  : gmap string cache_entry :=
  <[cache := {| stored_x := x; stored_samples := samples;
                 stored_result := result |}]> disk.

(** *** [compute_samples] *)

(** Modelled from the spec: [parallel_apply] of [fgivenx.parallel], which
    the sources import but do not hold.  Whatever backend [parallel]
    selects, the contract is the list of [f] applied to [precurry], the
    element and [postcurry], in the order of [array]. *)
Definition parallel_apply {V W} (f : list V -> W) (array : list V)
    (precurry postcurry : list V) (parallel : Z) : list W :=
  map (fun x => f (precurry ++ x :: postcurry)) array.

(** The arguments [f(x, theta)] receives. *)
Inductive arg : Type :=
| Grid (x : grid)
| Theta (theta : list Q).

(** [numpy.array(rows).transpose()] of a list of equally long rows. *)
Fixpoint transpose (rows : list (list Q)) : matrix :=
  match rows with
  | [] => []
  | [r] => map (fun v => [v]) r
  | r :: rows' => zip_with cons r (transpose rows')
  end.

(** [numpy.concatenate(blocks, axis=1)] *)
Fixpoint concatenate (blocks : list matrix) : result matrix :=
  match blocks with
  | [] => Raise (ValueError "need at least one array to concatenate")
  | [b] => Ok b
  | b :: blocks' =>
      bind (concatenate blocks') (fun rest =>
      if length b =? length rest
      then Ok (zip_with (@app Q) b rest)
      else Raise (ValueError "all the input array dimensions except for the concatenation axis must match exactly"))
  end.

(** The loop over [zip(f, samples)]: one block per model that has samples. *)
Definition evaluate (f : list (list arg -> list Q)) (x : grid)
    (samples : sample_sets) (parallel : Z) : list matrix :=
  flat_map (fun '(fi, s) =>
              if 0 <? length s
              then [transpose (parallel_apply fi (map Theta s) [Grid x] [] parallel)]
              else [])
           (zip f samples).

(** [compute_samples(f, x, samples, parallel=..., cache=...)] on the disk
    [disk]: what is printed, how the call ends, and the disk afterwards. *)
Definition compute_samples (f : list (list arg -> list Q)) (x : grid)
    (samples : sample_sets) (parallel : Z) (cache : option string)
    (disk : gmap string cache_entry)
  : io matrix * gmap string cache_entry :=
  let cache := option_map (fun name => Cache (name ++ "_fsamples")) cache in
  let recompute (out : list string) :=
    match concatenate (evaluate f x samples parallel) with
    | Ok fsamples =>
        ((out, Ok fsamples),
         match cache with
         | Some c => save c disk x samples fsamples
         | None => disk
         end)
    | Raise e => ((out, Raise e), disk)
    end in
  match cache with
  | Some c =>
      match check c disk x samples with
      | Ok fsamples => (ret fsamples, disk)
      | Raise (CacheError msg) => recompute [msg]
      | Raise e => (raise e, disk)
      end
  | None => recompute []
  end.

(** *** A generator and a function to run the code on *)

(** A small linear congruential generator. *)
Definition lcg_next (st : Z) : Z := ((1103515245 * st + 12345) mod 2147483648)%Z.

#[export] Instance lcg : RandomState Z := {
  seed := fun s => s;
  random_sample := fun st => (Qmake (lcg_next st) 2147483648, lcg_next st)
}.

(** A line through the points of the grid, as a function of two arguments. *)
Definition line (args : list arg) : list Q :=
  match args with
  | [Grid x; Theta [m; c]] => map (fun xi => m * xi + c)%Q x
  | _ => []
  end.

End Samples.

(** ** [fgivenx/__init__.py]: the weights of [compute_samples] *)

Module Orchestration.
Import Py.
Local Open Scope R_scope.

(** [w.sum()], and the builtin [sum] of a list *)
Definition total (w : list R) : R := fold_right Rplus 0 w.

(** [a.max()] of an array: an empty array has no maximum. *)
Definition amax (a : list R) : result R :=
  match a with
  | [] => Raise (ValueError "zero-size array to reduction operation maximum which has no identity")
  | v :: a' => Ok (fold_left Rmax a' v)
  end.

(** The builtin [max] of a list. *)
Definition py_max (l : list R) : result R :=
  match l with
  | [] => Raise (ValueError "max() arg is an empty sequence")
  | v :: l' => Ok (fold_left Rmax l' v)
  end.

(** A list comprehension whose body may raise. *)
Fixpoint traverse {A B} (f : A -> result B) (l : list A) : result (list B) :=
  match l with
  | [] => Ok []
  | a :: l' =>
      bind (f a) (fun b => bind (traverse f l') (fun bs => Ok (b :: bs)))
  end.

(** The section [Computation] of [compute_samples], from [Zs] to the
    weights handed to [trim_samples]. *)
Definition compute_samples_weights (logZs : list R) (weights : list (list R))
    (ntrim : option Z) : result (list (list R)) :=
  bind (amax logZs) (fun top =>
  let Zs := map (fun logZ => exp (logZ - top)) logZs in
  let weights :=
    map (fun '(w, Z) => map (fun wi => wi / total w * Z) w) (zip weights Zs) in
  bind (traverse amax weights) (fun tops =>
  bind (py_max tops) (fun wmax =>
  let weights := map (fun w => map (fun wi => wi / wmax) w) weights in
  let ntot := total (map total weights) in
  let weights :=
    match ntrim with
    | Some ntrim =>
        if Rlt_dec (IZR ntrim) ntot
        then map (fun w => map (fun wi => wi * IZR ntrim / ntot) w) weights
        else weights
    | None => weights
    end in
  Ok weights))).

(** *** The three steps, in the words of the specification *)

(** The largest of a list of reals (0 for no reals at all). *)
Definition largest (l : list R) : R :=
  match l with
  | [] => 0
  | v :: l' => fold_right Rmax v l'
  end.

(** Step 1: each model's weights, normalised to sum to one, are scaled by
    [exp(logZ_m - max(logZ))]. *)
Definition scale_by_evidence (logZs : list R) (weights : list (list R))
  : list (list R) :=
  map (fun '(w, logZ) =>
         map (fun wi => (wi / total w) * exp (logZ - largest logZs)) w)
      (zip weights logZs).

(** Step 2: every weight of every model is divided by the single largest
    weight. *)
Definition divide_by_largest (weights : list (list R)) : list (list R) :=
  map (fun w => map (fun wi => wi / largest (concat weights)) w) weights.

(** Step 3: if [ntrim] is supplied and is less than the total weight, every
    weight is multiplied by [ntrim / ntot]. *)
Definition scale_to_ntrim (ntrim : option Z) (weights : list (list R))
  : list (list R) :=
  let ntot := total (concat weights) in
  match ntrim with
  | Some ntrim =>
      if Rlt_dec (IZR ntrim) ntot
      then map (fun w => map (fun wi => wi * (IZR ntrim / ntot)) w) weights
      else weights
  | None => weights
  end.

(** Weight vectors the arithmetic is defined on: no negative weight, and a
    positive sum in every model. *)
Definition proper_weights (weights : list (list R)) : Prop :=
  Forall (fun w => Forall (fun wi => 0 <= wi) w /\ 0 < total w) weights.

End Orchestration.

(** ** [fgivenx/mass.py] *)

Module Mass.
Import Py.

(** *** numpy arrays on a heap *)

(** Ascending order on doubles, for [ndarray.sort]. *)
Module QOrder <: Orders.TotalLeBool.
Definition t : Type := Q.
Definition leb : Q -> Q -> bool := Qle_bool.
Lemma leb_total : forall a b, leb a b = true \/ leb b a = true.
Proof.
  intros a b. unfold leb. rewrite !Qle_bool_iff.
  destruct (Qlt_le_dec a b) as [Hlt | Hle].
  - left. apply Qlt_le_weak, Hlt.
  - right. exact Hle.
Qed.
End QOrder.

Module QSort := Mergesort.Sort QOrder.

(** One-dimensional arrays of doubles live on a heap and are named by their
    address, so that two names of one array see each other's writes. *)
Abbreviation loc := nat (only parsing).
Abbreviation heap := (list (list Q)) (only parsing).

(** A new array is placed after the arrays that exist. *)
Definition alloc (a : list Q) (h : heap) : loc * heap := (length h, h ++ [a]).

(** [a.sort()]: in place. *)
Definition sort_in_place (a : loc) (h : heap) : heap := alter QSort.sort a h.

(** *** What scipy supplies *)

(** [-inf] and the finite doubles, as values of the interpolant. *)
Inductive ereal : Type :=
| NegInf
| Finite (r : R).

(** [numpy.exp] *)
Definition exp_ereal (v : ereal) : R :=
  match v with
  | NegInf => 0%R
  | Finite r => exp r
  end.

Section WithScipy.

(** The Gaussian kernel density fitted to a dataset, at a point.  A kernel
    is kept as the values of its dataset: the density is a sum over the
    data points and does not depend on their order. *)
Variable density : list Q -> Q -> Q.
(** The random draws of [resample]: which data point draw [i] starts from,
    and the Gaussian displacement, scaled by the kernel, added to it. *)
Variable choice : nat -> nat.
Variable noise : nat -> Q.

(** [scipy.stats.gaussian_kde(dataset)]: the fit needs at least two data
    points and a non-zero variance. *)
Definition gaussian_kde (dataset : list Q) : result (list Q) :=
  match dataset with
  | [] | [_] => Raise (ValueError "`dataset` input should have multiple elements.")
  | v :: rest =>
      if forallb (Qeq_bool v) rest
      then Raise (LinAlgError "singular matrix")
      else Ok dataset
  end.

(** [kernel.resample(n)]: [n] draws from the fitted density. *)
Definition resample (kernel : list Q) (n : nat) : list Q :=
  map (fun i => (nth (choice i mod length kernel) kernel 0 + noise i)%Q) (seq 0 n).

(** [kernel(ts)] *)
Definition evaluate (kernel : list Q) (ts : list Q) : list Q :=
  map (density kernel) ts.

(** [scipy.stats.rankdata(ps)]: ranks from 1, ties share the average of
    the ranks they span. *)
Definition rankdata (ps : list Q) : list Q :=
  map (fun p =>
         let below := length (List.filter (fun q => negb (Qle_bool p q)) ps) in
         let ties := length (List.filter (fun q => Qeq_bool q p) ps) in
         (inject_Z (Z.of_nat below) + (inject_Z (Z.of_nat ties) + 1) / 2)%Q)
      ps.

(** [scipy.interpolate.interp1d(x, y, bounds_error=False, fill_value=...)]:
    the interpolant keeps its own copies of the two arrays. *)
Record interp1d : Type := {
  x : list Q;
  y : list R;
  fill_value : ereal
}.

(** [numpy.searchsorted(xs, t)]: the first index whose element is not below
    [t]. *)
Fixpoint searchsorted (xs : list Q) (t : Q) : nat :=
  match xs with
  | [] => 0
  | v :: xs' => if Qlt_le_dec v t then S (searchsorted xs' t) else 0
  end.

(** [numpy.clip] on an index *)
Definition clip (lo hi i : nat) : nat := Nat.min (Nat.max i lo) hi.

(** The linear piece through the two knots around [t]. *)
Definition call_linear (f : interp1d) (t : Q) : R :=
  let hi := clip 1 (length (x f) - 1) (searchsorted (x f) t) in
  let lo := hi - 1 in
  let x_lo := Q2R (nth lo (x f) 0%Q) in
  let x_hi := Q2R (nth hi (x f) 0%Q) in
  let y_lo := nth lo (y f) 0%R in
  let y_hi := nth hi (y f) 0%R in
  let slope := ((y_hi - y_lo) / (x_hi - x_lo))%R in
  (slope * (Q2R t - x_lo) + y_lo)%R.

(** Calling the interpolant: the fill value outside the range of [x]. *)
Definition interp1d_call (f : interp1d) (t : Q) : ereal :=
  let below := if Qlt_le_dec t (hd 0%Q (x f)) then true else false in
  let above := if Qlt_le_dec (List.last (x f) 0%Q) t then true else false in
  if below || above then fill_value f else Finite (call_linear f t).

(** *** [PMF] *)

Record PMF : Type := { _logpmf : interp1d }.

(** The first half of [PMF.__init__]: the kernel, and the array [ts] once
    it has been sorted. *)
Definition PMF_init_ts (samples : loc) (h : heap)
  : result (list Q * loc) * heap :=
  match h !! samples with
  | None => (Raise (TypeError "no such array"), h)
  | Some column =>
      match gaussian_kde column with
      | Raise e => (Raise e, h)
      | Ok kernel =>
          let n := 1000 in
          let (ts, h) :=
            if length column <? n
            then alloc (resample kernel n) h
            else (samples, h) in
          let h := sort_in_place ts h in
          (Ok (kernel, ts), h)
      end
  end.

(** [PMF.__init__(samples)]: the object built, and the heap it leaves. *)
Definition PMF_init (samples : loc) (h : heap) : result PMF * heap :=
  match PMF_init_ts samples h with
  | (Raise e, h) => (Raise e, h)
  | (Ok (kernel, ts), h) =>
      let ts := default [] (h !! ts) in
      let ps := evaluate kernel ts in
      let logms :=
        map (fun r => ln (Q2R (r / inject_Z (Z.of_nat (length ts)))))
            (rankdata ps) in
      (Ok {| _logpmf := {| x := ts; y := logms; fill_value := NegInf |} |}, h)
  end.

(** [PMF.__call__(t)] *)
Definition PMF_call (pmf : PMF) (t : Q) : R :=
  exp_ereal (interp1d_call (_logpmf pmf) t).

(** The values the rank calibration was computed on. *)
Definition calibration_values (pmf : PMF) : list Q := x (_logpmf pmf).

End WithScipy.

(** [v] is one of the values of [l]. *)
Definition among (v : Q) (l : list Q) : Prop := Exists (fun u => u == v) l.

(** *** Columns and draws to run the code on *)

(** A density that is 1 everywhere. *)
Definition flat_density (dataset : list Q) (t : Q) : Q := 1%Q.

(** Draw [i] starts from data point [i], wrapping around. *)
Definition alternating (i : nat) : nat := i.

(** Draw [i] is displaced by [(i + 1) / 2000]. *)
Definition rising (i : nat) : Q := Qmake (Z.of_nat i + 1) 2000.

(** A column of two values. *)
Definition two_values : list Q := [0; 1]%Q.

(** A column of the 1000 values 999, 998, ..., 0. *)
Definition descending : list Q :=
  map (fun i => inject_Z (Z.of_nat i)) (rev (seq 0 1000)).

End Mass.

(** ** [fgivenx/parallel.py]: gathering, and [mpi_apply] *)

Module Distributed.
Import Py ParallelEngine.

(** [numpy.zeros] of a given number of elements *)
Definition zeros (n : nat) : list Q := repeat 0%Q n.

(** Storing a message in a buffer from the offset [start] on. *)
Definition store (start : nat) (message buffer : list Q) : list Q :=
  take start buffer ++ message ++ drop (start + length message) buffer.

(** [comm.Gatherv(array_local, [array, sendcounts, displacements, DOUBLE])]
    on the root: the message of rank [r] is the whole buffer of its
    [array_local]; up to [sendcounts[r]] doubles of it are stored from
    offset [displacements[r]] of [array] on.  A shorter message leaves the
    rest of its place as it was; a longer one is refused with an
    [mpi4py.MPI.Exception]; writing past the end of [array] is undefined
    in MPI, and taken to stop the program. *)
Fixpoint Gatherv (messages : list (list Q)) (buffer : list Q)
    (sendcounts displacements : list Z) : outcome (list Q) :=
  match messages, sendcounts, displacements with
  | [], _, _ => Returns buffer
  | message :: messages', count :: sendcounts', start :: displacements' =>
      if (count <? Z.of_nat (length message))%Z
      then Raises (MPI_Exception "MPI_ERR_TRUNCATE: message truncated")
      else if (Z.of_nat (length buffer) <? start + count)%Z
      then Aborts "MPI_ERR_BUFFER: invalid buffer"
      else Gatherv messages' (store (Z.to_nat start) message buffer)
                   sendcounts' displacements'
  | _ :: _, _, _ => Aborts "MPI_ERR_COUNT: invalid count argument"
  end.

(** A comprehension whose body may raise. *)
Fixpoint for_each {A B} (f : A -> result B) (l : list A) : result (list B) :=
  match l with
  | [] => Ok []
  | a :: l' =>
      bind (f a) (fun b => bind (for_each f l') (fun bs => Ok (b :: bs)))
  end.

(** [numpy.zeros(shape)] *)
Definition numpy_zeros (shape : list Z) : ndarray :=
  {| shape := shape; data := zeros (Z.to_nat (fold_right Z.mul 1%Z shape)) |}.

(** [mpi_gather_array(array_local, comm)] as the rank [rank] sees it, where
    [locals] holds the [array_local] of every rank, in rank order.  Only
    rank 0 builds the array; the other ranks send and return [None]. *)
Definition mpi_gather_array (locals : list ndarray) (rank : nat)
  : outcome (option ndarray) :=
  match locals !! rank with
  | None => Aborts "MPI_ERR_RANK: invalid rank"
  | Some array_local =>
      (* comm.gather(len(array_local)) *)
      obind (of_result (for_each len locals)) (fun sendcounts =>
      let shape := shape array_local in
      if rank =? 0 then
        let displacements := displacements_of sendcounts in
        let array := numpy_zeros (sum_list sendcounts :: tl shape) in
        obind (of_result (imul_prod sendcounts (tl shape))) (fun sendcounts =>
        obind (of_result (imul_prod displacements (tl shape)))
              (fun displacements =>
        obind (Gatherv (map data locals) (data array) sendcounts displacements)
              (fun buffer =>
        Returns (Some {| shape := ParallelEngine.shape array;
                         data := buffer |}))))
      else Returns None)
  end.

(** [array[i]]: the sub-array at index [i] of the leading axis. *)
Definition subarray (array : ndarray) (i : nat) : ndarray :=
  {| shape := tl (shape array); data := row array i |}.

(** [for x in array]: the sub-arrays along the leading axis. *)
Definition iterate (array : ndarray) : result (list ndarray) :=
  bind (len array) (fun n => Ok (map (subarray array) (seq 0 (Z.to_nat n)))).

Definition shape_eqb (a b : list Z) : bool :=
  (length a =? length b) && forallb (fun p => (fst p =? snd p)%Z) (zip a b).

(** [numpy.array(arrays)] of a list of arrays: no array gives the empty
    one-dimensional array; arrays of one shape are stacked along a new
    leading axis; arrays of different shapes are refused. *)
Definition numpy_array (arrays : list ndarray) : result ndarray :=
  match arrays with
  | [] => Ok {| shape := [0%Z]; data := [] |}
  | first :: _ =>
      if forallb (fun a => shape_eqb (shape a) (shape first)) arrays
      then Ok {| shape := Z.of_nat (length arrays) :: shape first;
                 data := concat (map data arrays) |}
      else Raise (ValueError "setting an array element with a sequence. The requested array has an inhomogeneous shape")
  end.

(** The ranks of a communicator. *)
Definition ranks (nprocs : Z) : list nat := seq 0 (Z.to_nat nprocs).

(** What the ranks of a list obtain from a call, if each of them returns;
    otherwise how the first of them that does not return ends. *)
Fixpoint on_ranks {B} (f : nat -> outcome B) (l : list nat)
  : outcome (list B) :=
  match l with
  | [] => Returns []
  | r :: l' =>
      obind (f r) (fun b => obind (on_ranks f l') (fun bs => Returns (b :: bs)))
  end.

(** The lines of [mpi_apply] before the gathering, on the rank [r]: its
    block, and the function applied to the sub-arrays of the block. *)
Definition local_answer (function : ndarray -> ndarray) (array : ndarray)
    (nprocs : Z) (r : nat) : outcome ndarray :=
  obind (mpi_scatter_array array nprocs r) (fun array_local =>
  of_result (bind (iterate array_local) (fun xs =>
             numpy_array (map function xs)))).

(** [mpi_apply(function, array, comm=comm)] as the rank [rank] of a
    communicator of [nprocs] processes sees it; [array] is the array of
    rank 0.  The progress bar of rank 0 is left out.  A rank that has its
    answer enters the collectives of [mpi_gather_array], and waits there
    unless every rank arrives. *)
Definition mpi_apply (function : ndarray -> ndarray) (array : ndarray)
    (nprocs : Z) (rank : nat) : outcome (option ndarray) :=
  obind (local_answer function array nprocs rank) (fun _ =>
  match on_ranks (local_answer function array nprocs) (ranks nprocs) with
  | Returns answers => mpi_gather_array answers rank
  | _ => Waits
  end).

(** The offsets of messages that follow one another from [start] on. *)
Fixpoint offsets (start : Z) (messages : list (list Q)) : list Z :=
  match messages with
  | [] => []
  | message :: messages' =>
      start :: offsets (start + Z.of_nat (length message)) messages'
  end.

(** The extent of the leading axis, 0 for an array without axes. *)
Definition lead (a : ndarray) : Z := hd 0%Z (shape a).

(** A block of rows of [dims]: its leading extent is not negative, and its
    buffer holds that many rows of the size [dims] gives. *)
Definition block_of (dims : list Z) (a : ndarray) : Prop :=
  shape a <> []
  /\ (0 <= lead a)%Z
  /\ Z.of_nat (length (data a)) = (lead a * fold_right Z.mul 1%Z dims)%Z.

(** The block of rows rank [r] holds of an array of [n] rows of [dims]. *)
Definition block (array : ndarray) (n : Z) (dims : list Z) (p : Z) (r : nat)
  : ndarray :=
  {| shape := share n p r :: dims;
     data := take (Z.to_nat (share n p r * fold_right Z.mul 1%Z dims))
                  (drop (Z.to_nat (first_row n p r * fold_right Z.mul 1%Z dims))
                        (data array)) |}.

(** What the rank [r] computes from its block. *)
Definition answer_of (function : ndarray -> ndarray) (array : ndarray)
    (n : Z) (out : list Z) (p : Z) (r : nat) (answer : ndarray) : Prop :=
  block_of out answer
  /\ lead answer = share n p r
  /\ data answer
     = concat (map (fun x => data (function x))
                   (map (subarray array)
                        (seq (Z.to_nat (first_row n p r))
                             (Z.to_nat (share n p r)))))
  /\ ((0 < share n p r)%Z -> tl (shape answer) = out).

(** A function to run [mpi_apply] on: every element doubled. *)
Definition twice (x : ndarray) : ndarray :=
  {| shape := shape x; data := map (fun v => 2 * v)%Q (data x) |}.

(** What numpy raises when the integer counts are multiplied in place by
    a double. *)
Definition cast_error : exn :=
  TypeError "Cannot cast ufunc 'multiply' output from dtype('float64') to dtype('int64')".

End Distributed.

(** ** Notions used to state more about [fgivenx/samples.py] *)

Module Evaluation.
Import Py Samples.

(** Every evaluation [fi(x, theta)] the loop of [compute_samples] asks for,
    model after model and sample after sample. *)
Definition evaluations (f : list (list arg -> list Q)) (x : grid)
    (samples : sample_sets) : list (list Q) :=
  flat_map (fun '(fi, s) => map (fun theta => fi [Grid x; Theta theta]) s)
           (zip f samples).

(** The message of [numpy.concatenate] on an empty list. *)
Definition nothing_to_concatenate : exn :=
  ValueError "need at least one array to concatenate".

(** The generator yields doubles of the half-open unit interval, as
    [numpy.random.rand] documents. *)
Definition unit_interval {state : Type} (G : RandomState state) : Prop :=
  forall st : state, (0 <= fst (random_sample st) < 1)%Q.

End Evaluation.

(** ** Notions used to state more about [fgivenx/mass.py] *)

Module Calibration.
Import Py Mass.

(** [ts[0] < ts[1] < ...]: no value occurs twice in the sorted array. *)
Fixpoint strictly_increasing (ts : list Q) : bool :=
  match ts with
  | [] => true
  | v :: ts' =>
      match ts' with
      | [] => true
      | u :: _ => (if Qlt_le_dec v u then true else false)
                  && strictly_increasing ts'
      end
  end.

(** The array the rank calibration is run on, before it is sorted: the
    draws for a short column, the column itself otherwise. *)
Definition calibration_input (choice : nat -> nat) (noise : nat -> Q)
    (column : list Q) : list Q :=
  if length column <? 1000 then resample choice noise column 1000 else column.

End Calibration.

(** ** [fgivenx/__init__.py]: the arguments of [compute_samples] *)

Module Arguments.
Import Py ParallelEngine Orchestration.

(** What a caller passes for the models: one model, when [logZs] is left
    out, or one list each of evidences, functions, sample arrays and
    weights.  Functions are functions and arrays are arrays by their types,
    so the test with [callable] passes; [weights] may be left out, and
    with lists also model by model. *)
Inductive models (F : Type) : Type :=
| OneModel (f : F) (samples : ndarray) (weights : option (list R))
| Models (logZs : list R) (f : list F) (samples : list ndarray)
         (weights : option (list (option (list R)))).
Arguments OneModel {F} f samples weights.
Arguments Models {F} logZs f samples weights.

(** The messages, with ["%i"] filled in. *)
Definition count_mismatch (what : string) (nlogZs n : nat) : exn :=
  ValueError ("num logZs (" ++ pretty nlogZs ++ ") != num sets of " ++ what
              ++ " (" ++ pretty n ++ ")").

Definition length_mismatch (nsamples : Z) (nweights : nat) : exn :=
  ValueError ("length of samples (" ++ pretty nsamples
              ++ ") != length of weights (" ++ pretty nweights ++ ")").

(** The branch on [logZs is None] and the three comparisons of counts;
    [len(weights)] of a [weights] left out raises. *)
Definition wrap {F} (args : models F)
  : result (list R * list F * list ndarray * list (option (list R))) :=
  match args with
  | OneModel f samples weights => Ok ([0%R], [f], [samples], [weights])
  | Models logZs f samples weights =>
      if negb (length logZs =? length f)
      then Raise (count_mismatch "functions" (length logZs) (length f))
      else if negb (length logZs =? length samples)
      then Raise (count_mismatch "samples" (length logZs) (length samples))
      else
        match weights with
        | None => Raise (TypeError "object of type 'NoneType' has no len()")
        | Some weights =>
            if negb (length logZs =? length weights)
            then Raise (count_mismatch "weights" (length logZs) (length weights))
            else Ok (logZs, f, samples, weights)
        end
  end.

(** [numpy.ones(n)] *)
Definition numpy_ones (n : Z) : result (list R) :=
  if (n <? 0)%Z
  then Raise (ValueError "negative dimensions are not allowed")
  else Ok (repeat 1%R (Z.to_nat n)).

(** One model's weights: the array given, or else a one for each sample. *)
Definition weights_or_ones (w : option (list R)) (s : ndarray)
  : result (list R) :=
  match w with
  | Some w => Ok w
  | None => bind (len s) numpy_ones
  end.

(** The test of the last loop for one model. *)
Definition same_length (w : list R) (s : ndarray) : result unit :=
  bind (len s) (fun n =>
  if negb (Z.of_nat (length w) =? n)%Z
  then Raise (length_mismatch n (length w))
  else Ok tt).

(** The section [Argument checking] of [compute_samples]: the evidences,
    functions, sample arrays and weights the computation goes on with.
    The two tests on the number of axes are written with [is not]; CPython
    keeps one object for each small integer, so that on a length they are
    the comparisons [!= 2] and [!= 1]. *)
Definition compute_samples_arguments {F} (args : models F) (x : ndarray)
  : result (list R * list F * list ndarray * list (list R)) :=
  bind (wrap args) (fun '(logZs, f, samples, weights) =>
  if existsb (fun s => negb (length (shape s) =? 2)) samples
  then Raise (ValueError "samples should be a 2D array")
  else if negb (length (shape x) =? 1)
  then Raise (ValueError "x should be a 1D array")
  else
    bind (traverse (fun '(w, s) => weights_or_ones w s) (zip weights samples))
         (fun weights =>
    bind (traverse (fun '(w, s) => same_length w s) (zip weights samples))
         (fun _ =>
    Ok (logZs, f, samples, weights)))).

(** [compute_samples] up to the calls of [trim_samples]: the arguments are
    checked, then the weights are computed. *)
Definition compute_samples_upto_trim {F} (args : models F) (x : ndarray)
    (ntrim : option Z) : result (list F * list ndarray * list (list R)) :=
  bind (compute_samples_arguments args x) (fun '(logZs, f, samples, weights) =>
  bind (compute_samples_weights logZs weights ntrim) (fun weights =>
  Ok (f, samples, weights))).

End Arguments.

(** ** [fgivenx/__init__.py]: [compute_kullback_liebler] for one model *)

Module Divergence.
Import Py Orchestration.
Local Open Scope R_scope.

(** [c + suffix] for a cache identifier that may have been left out. *)
Definition add_str (c : option string) (suffix : string) : result string :=
  match c with
  | Some c => Ok (c ++ suffix)%string
  | None => Raise (TypeError "unsupported operand type(s) for +: 'NoneType' and 'str'")
  end.

(** [numpy.sum(Zs * DKLs.transpose(), axis=1)] for as many rows in [DKLs]
    as there are entries in [Zs], the rows as long as the grid. *)
Definition weighted_sum (Zs : list R) (DKLs : list (list R)) (nx : nat)
  : list R :=
  map (fun j => total (zip_with Rmult Zs (map (fun row => nth j row 0) DKLs)))
      (seq 0 nx).

Section WithCallees.
(** The function, the grid, a sample array, a weight array, the matrix of
    function values and the setting of [parallel]. *)
Context {F X S W M P : Type}.

(** [compute_samples] of this module, as the loop calls it, and
    [compute_dkl] of [fgivenx.dkl], which is not among the sources: any
    two functions that return or raise. *)
Variable compute_samples :
  F -> X -> S -> option W -> option Z -> P -> option string -> result (X * M).
Variable compute_dkl :
  X -> M -> M -> P -> option string -> result (list R).

(** [compute_kullback_liebler(f, x, samples, prior_samples, ...)] called
    without [logZs]: the one model is wrapped in lists and the loop runs
    once. *)
Definition compute_kullback_liebler (f : F) (x : X) (samples prior_samples : S)
    (weights prior_weights : option W) (ntrim : option Z) (parallel : P)
    (cache : option string) : result (X * list R) :=
  let logZs := [0] in
  bind (compute_samples f x samples weights ntrim parallel cache)
       (fun '(_, fsamps) =>
  bind (add_str cache "_prior") (fun c_prior =>
  bind (compute_samples f x prior_samples prior_weights ntrim parallel
          (Some c_prior))
       (fun '(_, fsamps_prior) =>
  bind (compute_dkl x fsamps fsamps_prior parallel cache) (fun dkls =>
  let DKLs := [dkls] in
  bind (amax logZs) (fun top =>
  let Zs := map (fun logZ => exp (logZ - top)) logZs in
  let Zs := map (fun Z => Z / total Zs) Zs in
  Ok (x, weighted_sum Zs DKLs (length dkls))))))).

End WithCallees.

End Divergence.

(** * Properties *)

(** ** The parallel engine *)

Module ParallelEngineFacts.
Import Py ParallelEngine.

Lemma sequential_reference_tasks {V W} (f : list V -> W) (A : list V)
    (precurry postcurry : list V) :
  map run (map (fun x => delayed f (precurry ++ x :: postcurry)) (tqdm A))
  = sequential_reference f A precurry postcurry.
Proof.
  unfold sequential_reference, tqdm, delayed, run.
  induction A as [| a A IH]; simpl.
  - reflexivity.
  - f_equal. exact IH.
Qed.

(** *** The pool returns the results in the order of dispatch *)

(** A task that has finished is found under its number, with its result. *)
Lemma retrieve_completed {V W} (tasks : list ((list V -> W) * list V))
    (finish : list nat) (i : nat) (task : (list V -> W) * list V) :
  tasks !! i = Some task ->
  In i finish ->
  retrieve i (completed tasks finish) = Some (run task).
Proof.
  intros Htask. unfold completed.
  induction finish as [| j finish IH]; intros Hin; [contradiction |].
  cbn [omap list_omap].
  destruct (Nat.eq_dec i j) as [<- | Hne].
  - rewrite Htask. cbn [option_map retrieve]. now rewrite Nat.eqb_refl.
  - assert (Hrest : In i finish) by (destruct Hin; [congruence | assumption]).
    destruct (tasks !! j) as [other |]; cbn [option_map retrieve].
    + destruct (Nat.eqb_spec i j); [contradiction | exact (IH Hrest)].
    + exact (IH Hrest).
Qed.

(** Looking the tasks up by their numbers, in order, gives them all. *)
Lemma omap_by_number {V W} (tasks : list ((list V -> W) * list V))
    (found : nat -> option W) (first : nat) :
  (forall i task, tasks !! i = Some task -> found (first + i) = Some (run task)) ->
  omap found (seq first (length tasks)) = map run tasks.
Proof.
  revert first. induction tasks as [| task tasks IH]; intros first Hfound.
  - reflexivity.
  - cbn [length seq omap list_omap map].
    rewrite <- (Nat.add_0_r first) at 1. rewrite (Hfound 0 task eq_refl).
    f_equal. apply IH. intros i task' Htask'.
    replace (S first + i) with (first + S i) by lia.
    apply Hfound. exact Htask'.
Qed.

Lemma Parallel_in_order {V W} (n : Z) (finish : list nat)
    (tasks : list ((list V -> W) * list V)) :
  n <> 0%Z ->
  schedule finish (length tasks) ->
  Parallel n finish tasks = Ok (map run tasks).
Proof.
  intros Hn Hschedule. unfold Parallel.
  destruct (Z.eqb_spec n 0) as [H0 | _]; [contradiction |].
  f_equal. apply omap_by_number. intros i task Htask. cbn [Nat.add].
  apply (retrieve_completed tasks finish i task Htask).
  apply (Permutation_in i (Permutation_sym Hschedule)).
  apply in_seq. apply lookup_lt_Some in Htask. lia.
Qed.

Lemma length_tasks {V W} (f : list V -> W) (A : list V)
    (precurry postcurry : list V) :
  length (map (fun x => delayed f (precurry ++ x :: postcurry)) (tqdm A))
  = length A.
Proof. unfold tqdm. apply length_map. Qed.

(** The pool, once it has a non-zero size, returns the reference for every
    order in which the tasks may finish. *)
Lemma Parallel_tasks {V W} (f : list V -> W) (A : list V)
    (precurry postcurry : list V) (n : Z) (finish : list nat) :
  n <> 0%Z ->
  schedule finish (length A) ->
  Parallel n finish
    (map (fun x => delayed f (precurry ++ x :: postcurry)) (tqdm A))
  = Ok (sequential_reference f A precurry postcurry).
Proof.
  intros Hn Hschedule.
  rewrite Parallel_in_order; [| exact Hn | now rewrite length_tasks].
  now rewrite sequential_reference_tasks.
Qed.

(** *** The configuration of [openmp_apply] *)

(** A [str] is never the [int] 1, so the test guarding the warning is
    false for every hint. *)
Lemma hint_is_never_one (hint : string) : is_int (PyStr hint) 1 = false.
Proof. reflexivity. Qed.

Lemma truth_nonempty (s : string) : s <> ""%string -> truth s = true.
Proof. destruct s; [congruence | reflexivity]. Qed.

Ltac case_pool :=
  match goal with
  | |- context [Parallel ?n ?finish ?tasks] => destruct (Parallel n finish tasks)
  end.

(** No call of [openmp_apply] prints anything. *)
Lemma openmp_apply_prints_nothing {V W} (environ : gmap string string)
    (finish : list nat) (f : list V -> W) (array : list V)
    (nprocs : option Z) (precurry postcurry : list V) :
  fst (openmp_apply environ finish f array nprocs precurry postcurry) = [].
Proof.
  unfold openmp_apply, environ_getitem, lift, raise, ret, io_bind.
  destruct nprocs as [n |]; simpl.
  - try case_pool; reflexivity.
  - destruct (environ !! OMP_NUM_THREADS) as [hint |]; simpl; [| reflexivity].
    destruct (truth hint); simpl; [| reflexivity].
    destruct (int_of_str hint) as [n | e]; simpl; [| reflexivity].
    try case_pool; reflexivity.
Qed.

(** Without [nprocs], an unset hint, an empty hint and a hint that spells
    no integer each end the call with an exception. *)
Lemma openmp_apply_unset {V W} (environ : gmap string string)
    (finish : list nat) (f : list V -> W)
    (array precurry postcurry : list V) :
  environ !! OMP_NUM_THREADS = None ->
  openmp_apply environ finish f array None precurry postcurry
  = ([], Raise (KeyError OMP_NUM_THREADS)).
Proof.
  intros Hunset. unfold openmp_apply, environ_getitem. rewrite Hunset.
  reflexivity.
Qed.

Lemma openmp_apply_empty_hint {V W} (environ : gmap string string)
    (finish : list nat) (f : list V -> W)
    (array precurry postcurry : list V) :
  environ !! OMP_NUM_THREADS = Some ""%string ->
  openmp_apply environ finish f array None precurry postcurry
  = ([], Raise (EnvironmentError not_set_message)).
Proof.
  intros Hempty. unfold openmp_apply, environ_getitem. rewrite Hempty.
  reflexivity.
Qed.

Lemma openmp_apply_meaningless_hint {V W} (environ : gmap string string)
    (finish : list nat) (f : list V -> W)
    (array precurry postcurry : list V) (hint : string) (e : exn) :
  environ !! OMP_NUM_THREADS = Some hint ->
  int_of_str hint = Raise e ->
  exists e', openmp_apply environ finish f array None precurry postcurry
             = ([], Raise e').
Proof.
  intros Hhint Hbad. unfold openmp_apply, environ_getitem. rewrite Hhint.
  simpl. destruct (truth hint); simpl.
  - rewrite Hbad. simpl. eexists. reflexivity.
  - eexists. reflexivity.
Qed.

(** Whatever [openmp_apply] returns is the sequential reference. *)
Lemma openmp_apply_returns_reference {V W} (environ : gmap string string)
    (finish : list nat) (f : list V -> W) (A : list V) (nprocs : option Z)
    (precurry postcurry : list V) (out : list string) (r : list W) :
  schedule finish (length A) ->
  openmp_apply environ finish f A nprocs precurry postcurry = (out, Ok r) ->
  r = sequential_reference f A precurry postcurry.
Proof.
  intros Hschedule.
  unfold openmp_apply, environ_getitem, lift, raise, ret, io_bind.
  assert (Hpool : forall n,
    Parallel n finish
      (map (fun x => delayed f (precurry ++ x :: postcurry)) (tqdm A))
    = Ok r ->
    r = sequential_reference f A precurry postcurry).
  { intros n Hreturn. destruct (Z.eq_dec n 0%Z) as [-> | Hn].
    - discriminate Hreturn.
    - rewrite (Parallel_tasks f A precurry postcurry n finish Hn Hschedule)
        in Hreturn.
      congruence. }
  destruct nprocs as [n |]; simpl.
  - intros H. apply (Hpool n). congruence.
  - destruct (environ !! OMP_NUM_THREADS) as [hint |]; simpl; [| discriminate].
    destruct (truth hint); simpl; [| discriminate].
    destruct (int_of_str hint) as [n | e]; simpl; [| discriminate].
    intros H. apply (Hpool n). congruence.
Qed.

(** C1: once the worker count is settled, by [nprocs] or by the hint, on a
    number that is not zero, [openmp_apply] returns exactly the sequential
    reference, [f] applied to [precurry], the element and [postcurry] for
    the elements of the array in their order, whatever the order in which
    the workers finish. *)
Theorem openmp_apply_sequential {V W} (environ : gmap string string)
    (finish : list nat) (f : list V -> W) (A : list V) (nprocs : option Z)
    (precurry postcurry : list V) (n : Z) :
  worker_count environ nprocs n ->
  n <> 0%Z ->
  schedule finish (length A) ->
  snd (openmp_apply environ finish f A nprocs precurry postcurry)
  = Ok (sequential_reference f A precurry postcurry).
Proof.
  intros Hcount Hn Hschedule. unfold openmp_apply.
  destruct nprocs as [m |]; simpl in Hcount.
  - subst m. simpl. now rewrite Parallel_tasks.
  - destruct Hcount as (hint & Hhint & Hnonempty & Hint).
    unfold environ_getitem. rewrite Hhint. simpl.
    rewrite (truth_nonempty _ Hnonempty). simpl.
    rewrite Hint. simpl. now rewrite Parallel_tasks.
Qed.

Lemma openmp_apply_sequential_witness :
  snd (openmp_apply (<[OMP_NUM_THREADS := "4"%string]> ∅) [2; 0; 1]
         (fun args : list Z => fold_right Z.add 0%Z args)
         [1; 2; 3]%Z None [10]%Z [100]%Z)
  = Ok [111; 112; 113]%Z.
Proof.
  apply (openmp_apply_sequential (<[OMP_NUM_THREADS := "4"%string]> ∅)
           [2; 0; 1] (fun args : list Z => fold_right Z.add 0%Z args)
           [1; 2; 3]%Z None [10]%Z [100]%Z 4%Z).
  - exists "4"%string. repeat split.
    + discriminate.
  - discriminate.
  - unfold schedule. cbn [length seq].
    apply (perm_trans (l' := [0; 2; 1])).
    + apply perm_swap.
    + apply perm_skip. apply perm_swap.
Defined.

(** C8: with no explicit worker count and the hint [OMP_NUM_THREADS] set to
    the text "1", the call does not fail, and it prints no warning: the
    output is empty. *)
Theorem openmp_apply_one_thread_no_warning {V W} (finish : list nat)
    (f : list V -> W) (array precurry postcurry : list V) :
  exists results,
    openmp_apply (<[OMP_NUM_THREADS := "1"%string]> ∅) finish f array None
      precurry postcurry
    = ([], Ok results).
Proof.
  unfold openmp_apply, environ_getitem.
  replace ((<[OMP_NUM_THREADS := "1"%string]> ∅ : gmap string string)
             !! OMP_NUM_THREADS) with (Some "1"%string)
    by (symmetry; apply lookup_insert_eq).
  simpl. eexists. reflexivity.
Qed.

(** *** The configuration on concrete environments *)

Example int_of_str_spaces : int_of_str " 12_3 " = Ok 123%Z.
Proof. reflexivity. Qed.

Example int_of_str_word :
  int_of_str "four" = Raise (ValueError "invalid literal for int() with base 10").
Proof. reflexivity. Qed.

Example openmp_apply_hint_zero :
  openmp_apply (<[OMP_NUM_THREADS := "0"%string]> ∅) [0; 1]
    (fun args : list Z => fold_right Z.add 0%Z args) [1; 2]%Z None [] []
  = ([], Raise (ValueError "n_jobs == 0 in Parallel has no meaning")).
Proof. vm_compute. reflexivity. Qed.

Example openmp_apply_explicit_one :
  openmp_apply ∅ [1; 0]
    (fun args : list Z => fold_right Z.add 0%Z args) [1; 2]%Z (Some 1%Z)
    [10]%Z []
  = ([], Ok [11; 12]%Z).
Proof. vm_compute. reflexivity. Qed.

(** *** The layout of a scatter *)

Lemma sum_list_repeat (q : Z) (m : nat) :
  sum_list (repeat q m) = (q * Z.of_nat m)%Z.
Proof.
  unfold sum_list. induction m as [| m IH].
  - simpl. lia.
  - change (repeat q (S m)) with (q :: repeat q m).
    cbn [fold_right]. rewrite IH. lia.
Qed.

Lemma sum_list_take_S (l : list Z) (i : nat) :
  i < length l ->
  sum_list (take (S i) l) = (sum_list (take i l) + nth i l 0)%Z.
Proof.
  revert i. induction l as [| c l IH]; intros i Hi; simpl in Hi.
  - lia.
  - destruct i as [| i].
    + unfold sum_list. simpl. destruct l; simpl; lia.
    + change (take (S (S i)) (c :: l)) with (c :: take (S i) l).
      change (take (S i) (c :: l)) with (c :: take i l).
      unfold sum_list in *. cbn [fold_right nth].
      rewrite IH by lia. lia.
Qed.

Lemma length_cumsum_from (acc : Z) (l : list Z) :
  length (cumsum_from acc l) = length l.
Proof.
  revert acc. induction l as [| c l IH]; intros acc; simpl.
  - reflexivity.
  - now rewrite IH.
Qed.

Lemma nth_cumsum_from (l : list Z) (acc : Z) (i : nat) :
  i < length l ->
  nth i (cumsum_from acc l) 0%Z = (acc + sum_list (take (S i) l))%Z.
Proof.
  revert acc i. induction l as [| c l IH]; intros acc i Hi; simpl in Hi.
  - lia.
  - destruct i as [| i].
    + unfold sum_list. simpl. destruct l; simpl; lia.
    + change (take (S (S i)) (c :: l)) with (c :: take (S i) l).
      cbn [cumsum_from nth]. rewrite IH by lia.
      unfold sum_list. cbn [fold_right]. lia.
Qed.

Lemma row_layout_eq (n p : Z) :
  (0 < p)%Z ->
  row_layout n p = Ok (sendcounts_of n p, displacements_of (sendcounts_of n p)).
Proof.
  intros Hp. unfold row_layout, floordiv.
  destruct (Z.eqb_spec p 0) as [H0 | _]; [lia |]. reflexivity.
Qed.

Lemma length_sendcounts_of (n p : Z) :
  length (sendcounts_of n p) = Z.to_nat p.
Proof.
  unfold sendcounts_of, increment_prefix.
  rewrite length_app, length_map, length_firstn, length_skipn, repeat_length.
  lia.
Qed.

Lemma nth_sendcounts_of (n p : Z) (r : nat) :
  (0 < p)%Z -> (Z.of_nat r < p)%Z ->
  nth r (sendcounts_of n p) 0%Z = share n p r.
Proof.
  intros Hp Hr. unfold sendcounts_of, increment_prefix, share.
  rewrite sum_list_repeat, Z2Nat.id by lia.
  assert (Hmod : (n - n / p * p = n mod p)%Z).
  { pose proof (Z.div_mod n p). lia. }
  rewrite Hmod.
  pose proof (Z.mod_pos_bound n p Hp) as Hbound.
  assert (Hstop : slice_stop (n mod p) (repeat (n / p)%Z (Z.to_nat p))
                  = Z.to_nat (n mod p)).
  { unfold slice_stop. rewrite repeat_length.
    destruct (Z.ltb_spec (n mod p) 0); [lia |]. f_equal. lia. }
  rewrite Hstop.
  destruct (Z.ltb_spec (Z.of_nat r) (n mod p)) as [Hlow | Hhigh].
  - rewrite app_nth1
      by (rewrite length_map, length_firstn, repeat_length; lia).
    change 0%Z with ((fun c => c + 1)%Z (-1)%Z) at 1.
    rewrite map_nth, nth_firstn.
    destruct (Nat.ltb_spec r (Z.to_nat (n mod p))); [| lia].
    rewrite (nth_indep _ (-1)%Z (n / p)%Z) by (rewrite repeat_length; lia).
    rewrite nth_repeat. reflexivity.
  - rewrite app_nth2
      by (rewrite length_map, length_firstn, repeat_length; lia).
    rewrite length_map, length_firstn, repeat_length, nth_skipn.
    rewrite (nth_indep _ 0%Z (n / p)%Z) by (rewrite repeat_length; lia).
    rewrite nth_repeat. lia.
Qed.

Lemma sum_take_sendcounts_of (n p : Z) (r : nat) :
  (0 < p)%Z -> (Z.of_nat r <= p)%Z ->
  sum_list (take r (sendcounts_of n p)) = first_row n p r.
Proof.
  intros Hp. induction r as [| r IH]; intros Hr.
  - reflexivity.
  - rewrite sum_list_take_S by (rewrite length_sendcounts_of; lia).
    rewrite IH by lia. rewrite nth_sendcounts_of by lia. reflexivity.
Qed.

Lemma nth_displacements_of (n p : Z) (r : nat) :
  (0 < p)%Z -> (Z.of_nat r < p)%Z ->
  nth r (displacements_of (sendcounts_of n p)) 0%Z = first_row n p r.
Proof.
  intros Hp Hr. unfold displacements_of, cumsum.
  destruct r as [| r]; [reflexivity |].
  cbn [nth]. rewrite removelast_firstn_len, nth_firstn.
  rewrite length_cumsum_from, length_sendcounts_of.
  destruct (Nat.ltb_spec r (Nat.pred (Z.to_nat p))); [| lia].
  rewrite nth_cumsum_from by (rewrite length_sendcounts_of; lia).
  rewrite sum_take_sendcounts_of by lia. lia.
Qed.

(** The first row of a rank in closed form. *)
Lemma first_row_closed (n p : Z) (r : nat) :
  (0 < p)%Z ->
  first_row n p r = (Z.of_nat r * (n / p) + Z.min (Z.of_nat r) (n mod p))%Z.
Proof.
  intros Hp. pose proof (Z.mod_pos_bound n p Hp) as Hbound.
  induction r as [| r IH].
  - simpl. lia.
  - cbn [first_row]. rewrite IH. unfold share.
    destruct (Z.ltb_spec (Z.of_nat r) (n mod p)); lia.
Qed.

(** The blocks of all ranks together are the whole array. *)
Lemma first_row_all (n p : Z) :
  (0 < p)%Z -> first_row n p (Z.to_nat p) = n.
Proof.
  intros Hp. rewrite first_row_closed by exact Hp.
  pose proof (Z.mod_pos_bound n p Hp). pose proof (Z.div_mod n p).
  rewrite Z2Nat.id by lia. lia.
Qed.

Lemma share_nonneg (n p : Z) (r : nat) :
  (0 <= n)%Z -> (0 < p)%Z -> (0 <= share n p r)%Z.
Proof.
  intros Hn Hp. unfold share.
  pose proof (Z.div_pos n p Hn Hp).
  destruct (Z.of_nat r <? n mod p)%Z; lia.
Qed.

Lemma first_row_nonneg (n p : Z) (r : nat) :
  (0 <= n)%Z -> (0 < p)%Z -> (0 <= first_row n p r)%Z.
Proof.
  intros Hn Hp. induction r as [| r IH]; cbn [first_row].
  - lia.
  - pose proof (share_nonneg n p r Hn Hp). lia.
Qed.

(** A block ends where the array does, or before. *)
Lemma block_within (n p : Z) (r : nat) :
  (0 <= n)%Z -> (0 < p)%Z -> (Z.of_nat r < p)%Z ->
  (first_row n p r + share n p r <= n)%Z.
Proof.
  intros Hn Hp Hr.
  change (first_row n p (S r) <= n)%Z.
  rewrite first_row_closed by exact Hp.
  pose proof (Z.mod_pos_bound n p Hp). pose proof (Z.div_mod n p).
  pose proof (Z.div_pos n p Hn Hp). nia.
Qed.

Lemma prod_nonneg (dims : list Z) :
  Forall (fun d => 0 <= d)%Z dims -> (0 <= fold_right Z.mul 1 dims)%Z.
Proof.
  induction 1 as [| d dims Hd _ IH]; cbn [fold_right]; [lia | nia].
Qed.

Lemma nth_map_scale (l : list Z) (m : Z) (r : nat) :
  nth r (map (fun c => c * m)%Z l) 0%Z = (nth r l 0 * m)%Z.
Proof. exact (map_nth (fun c => c * m)%Z l 0%Z r). Qed.

(** A run of whole rows cut out of a buffer keeps its rows. *)
Lemma take_row_of_block (buffer : list Q) (m first count i : nat) :
  i < count ->
  take m (drop (i * m) (take (count * m) (drop (first * m) buffer)))
  = take m (drop ((first + i) * m) buffer).
Proof.
  intros Hi.
  rewrite skipn_firstn_comm, firstn_firstn, skipn_skipn.
  f_equal; [nia | f_equal; lia].
Qed.

(** X4: for an array of [n] rows with two or more axes and a
    communicator of [p] processes, rank [r] receives the block of
    [share n p r] rows that starts at row [first_row n p r], where the
    shares of the lower ranks end: [n / p] rows, and one more when
    [r < n mod p].  The block holds whole rows of the array, in order, and
    two shares differ by at most one. *)
Theorem mpi_scatter_array_blocks (array : ndarray) (n : Z) (dims : list Z)
    (p : Z) (r : nat) :
  shape array = n :: dims ->
  dims <> [] ->
  well_shaped array ->
  (0 < p)%Z ->
  (Z.of_nat r < p)%Z ->
  exists array_local,
    mpi_scatter_array array p r = Returns array_local
    /\ shape array_local = share n p r :: dims
    /\ well_shaped array_local
    /\ (forall i, (Z.of_nat i < share n p r)%Z ->
          row array_local i = row array (Z.to_nat (first_row n p r) + i))
    /\ (forall q, Z.abs (share n p r - share n p q) <= 1)%Z.
Proof.
  intros Hshape Hdims [Hnonneg Hsize] Hp Hr.
  rewrite Hshape in Hnonneg, Hsize.
  pose proof (Forall_inv Hnonneg) as Hn. cbn beta in Hn.
  pose proof (prod_nonneg dims (Forall_inv_tail Hnonneg)) as Hm.
  pose proof (share_nonneg n p r Hn Hp) as Hc.
  pose proof (first_row_nonneg n p r Hn Hp) as Hd.
  pose proof (block_within n p r Hn Hp Hr) as Hfit.
  cbn [fold_right] in Hsize.
  set (m := fold_right Z.mul 1%Z dims) in *.
  unfold mpi_scatter_array, scattered, len. rewrite Hshape. cbn [bind tl].
  rewrite row_layout_eq by exact Hp. cbn [bind].
  destruct dims as [| d dims']; [congruence |].
  unfold imul_prod. cbn [bind].
  fold m.
  rewrite !nth_map_scale.
  rewrite nth_sendcounts_of, nth_displacements_of by assumption.
  eexists. split; [reflexivity |]. cbn [shape data].
  assert (Hcount : Z.to_nat (share n p r * m) = Z.to_nat (share n p r) * Z.to_nat m)
    by (rewrite Z2Nat.inj_mul by lia; reflexivity).
  assert (Hstart : Z.to_nat (first_row n p r * m)
                   = Z.to_nat (first_row n p r) * Z.to_nat m)
    by (rewrite Z2Nat.inj_mul by lia; reflexivity).
  repeat split.
  - constructor; [exact Hc | exact (Forall_inv_tail Hnonneg)].
  - cbn [shape data].
    change (fold_right Z.mul 1%Z (share n p r :: d :: dims'))
      with (share n p r * m)%Z.
    rewrite length_firstn, length_skipn.
    pose proof (Z.mul_nonneg_nonneg _ _ Hc Hm).
    pose proof (Z.mul_nonneg_nonneg _ _ Hd Hm).
    assert (first_row n p r * m + share n p r * m <= n * m)%Z by nia.
    lia.
  - intros i Hi. unfold row, row_size. cbn [shape data tl].
    rewrite Hshape. cbn [tl]. fold m.
    rewrite Hcount, Hstart.
    apply take_row_of_block. lia.
  - intros q. unfold share.
    destruct (Z.of_nat r <? n mod p)%Z, (Z.of_nat q <? n mod p)%Z; lia.
Qed.

Lemma mpi_scatter_array_blocks_witness :
  exists array_local,
    mpi_scatter_array
      {| shape := [5; 2]%Z; data := [1; 2; 3; 4; 5; 6; 7; 8; 9; 10]%Q |} 3 1
    = Returns array_local
    /\ shape array_local = share 5 3 1 :: [2]%Z
    /\ well_shaped array_local
    /\ (forall i, (Z.of_nat i < share 5 3 1)%Z ->
          row array_local i
          = row {| shape := [5; 2]%Z;
                   data := [1; 2; 3; 4; 5; 6; 7; 8; 9; 10]%Q |}
                (Z.to_nat (first_row 5 3 1) + i))
    /\ (forall q, Z.abs (share 5 3 1 - share 5 3 q) <= 1)%Z.
Proof.
  apply (mpi_scatter_array_blocks
           {| shape := [5; 2]%Z; data := [1; 2; 3; 4; 5; 6; 7; 8; 9; 10]%Q |}
           5%Z [2]%Z 3%Z 1).
  - reflexivity.
  - discriminate.
  - split; [repeat constructor; discriminate | reflexivity].
  - reflexivity.
  - reflexivity.
Defined.

(** Seven rows over three ranks: 3, 2 and 2 rows, in order. *)
Example mpi_scatter_array_seven_rows :
  map (mpi_scatter_array
         {| shape := [7; 1]%Z; data := [1; 2; 3; 4; 5; 6; 7]%Q |} 3)
      [0; 1; 2]
  = [Returns {| shape := [3; 1]%Z; data := [1; 2; 3]%Q |};
     Returns {| shape := [2; 1]%Z; data := [4; 5]%Q |};
     Returns {| shape := [2; 1]%Z; data := [6; 7]%Q |}].
Proof. reflexivity. Qed.

(** A one-dimensional array stops the root at the in-place
    multiplication, and the other rank waits. *)
Example mpi_scatter_array_one_dimension :
  map (mpi_scatter_array {| shape := [3]%Z; data := [1; 2; 3]%Q |} 2) [0; 1]
  = [Raises (TypeError "Cannot cast ufunc 'multiply' output from dtype('float64') to dtype('int64')");
     Waits].
Proof. reflexivity. Qed.

End ParallelEngineFacts.

(** ** Trimming and the function evaluation stage *)

Module SamplesFacts.
Import Py Samples.

Section Trim.
Context {state : Type} {G : RandomState state}.

(** Drawing uniforms never raises, and yields as many as asked for. *)
Lemma rand_returns (n : nat) (st : state) :
  exists us st', rand n st = (Ok us, st') /\ length us = n.
Proof.
  revert st. induction n as [| n IH]; intros st; simpl.
  - exists [], st. split; reflexivity.
  - destruct (random_sample st) as [u st1].
    destruct (IH st1) as (us & st2 & Hrand & Hlen).
    rewrite Hrand. exists (u :: us), st2. split; [reflexivity |].
    simpl. now rewrite Hlen.
Qed.

Lemma length_less (us weights : list Q) :
  length (less us weights) = Nat.min (length us) (length weights).
Proof.
  unfold less. revert weights.
  induction us as [| u us IH]; intros [| w weights]; simpl; try reflexivity.
  now rewrite IH.
Qed.

(** Every call that returns has put the saved state back. *)
Lemma trim_samples_return_restores {T} (samples : list T) (weights : list Q)
    (ntrim : Z) (st st' : state) (new_samples : list T) :
  trim_samples samples weights ntrim st = (Ok new_samples, st') ->
  st' = st.
Proof.
  unfold trim_samples, rbind, get_state, random_seed, set_state, rlift.
  destruct (rand (length weights) (seed 1)) as [[us | e] st1].
  - destruct (mask_index samples (less us weights)) as [kept | e].
    + intros H. now inversion H.
    + discriminate.
  - discriminate.
Qed.

(** C5: for a samples array and a weights array of one length, which is
    the invariant of a sample set, every call returns, and the generator
    state it leaves is the state it found. *)
Theorem trim_samples_restores_state {T} (samples : list T)
    (weights : list Q) (ntrim : Z) (st : state) :
  length samples = length weights ->
  exists new_samples,
    trim_samples samples weights ntrim st = (Ok new_samples, st).
Proof.
  intros Hlen.
  unfold trim_samples, rbind, get_state, random_seed, set_state, rlift.
  destruct (rand_returns (length weights) (seed 1)) as (us & st1 & Hrand & Hus).
  rewrite Hrand. unfold mask_index.
  rewrite length_less, Hus, Nat.min_id, Hlen, Nat.eqb_refl.
  eexists. reflexivity.
Qed.

(** C10: the argument [ntrim] has no influence on what [trim_samples]
    returns, nor on the generator state it leaves. *)
Theorem trim_samples_ignores_ntrim {T} (samples : list T) (weights : list Q)
    (ntrim ntrim' : Z) (st : state) :
  trim_samples samples weights ntrim st
  = trim_samples samples weights ntrim' st.
Proof.
  unfold trim_samples, rbind.
  destruct (get_state st) as [[state0 | e] st0]; reflexivity.
Qed.

(** The rows kept are fixed by the samples, the weights and the seed 1:
    neither [ntrim] nor the state the generator was in takes part. *)
Lemma trim_samples_result {T} (samples : list T) (weights : list Q)
    (ntrim : Z) (st : state) :
  fst (trim_samples samples weights ntrim st)
  = bind (fst (rand (length weights) (seed 1)))
         (fun us => mask_index samples (less us weights)).
Proof.
  unfold trim_samples, rbind, get_state, random_seed, set_state, rlift.
  destruct (rand (length weights) (seed 1)) as [[us | e] st1]; simpl.
  - destruct (mask_index samples (less us weights)); reflexivity.
  - reflexivity.
Qed.

End Trim.

Lemma trim_samples_restores_state_witness :
  exists new_samples,
    trim_samples [[1; 2]; [3; 4]; [5; 6]]%Z [1; 0; 1 # 2]%Q (-1) 2024%Z
    = (Ok new_samples, 2024%Z).
Proof.
  apply (trim_samples_restores_state [[1; 2]; [3; 4]; [5; 6]]%Z
           [1; 0; 1 # 2]%Q (-1) 2024%Z).
  reflexivity.
Defined.

(** Outside that invariant the restoration is not guarded: with three
    samples and two weights the mask does not fit the array, the indexing
    raises, and the generator is left in the state reached from seed 1,
    not in the state 2024 it was found in. *)
Lemma trim_samples_raise_keeps_seeded_state :
  trim_samples [[1; 2]; [3; 4]; [5; 6]]%Z [1; 1 # 2]%Q (-1) 2024%Z
  = (Raise (IndexError "boolean index did not match indexed array along dimension 0"),
     lcg_next (lcg_next 1))
  /\ lcg_next (lcg_next 1) <> 2024%Z.
Proof.
  split.
  - reflexivity.
  - vm_compute. discriminate.
Qed.

(** With the generator [lcg] the first and the third of three samples are
    accepted, whatever [ntrim] and the state found. *)
Example trim_samples_lcg :
  trim_samples [[1; 2]; [3; 4]; [5; 6]]%Z [1; 0; 1 # 2]%Q 2 77%Z
  = (Ok [[1; 2]; [5; 6]]%Z, 77%Z).
Proof. reflexivity. Qed.

(** *** The cache in [compute_samples] *)

(** Joining the blocks raises a [ValueError] or nothing. *)
Lemma concatenate_raises_ValueError (blocks : list matrix) (e : exn) :
  concatenate blocks = Raise e -> exists msg, e = ValueError msg.
Proof.
  induction blocks as [| b blocks IH]; cbn [concatenate].
  - intros H. inversion H. eexists. reflexivity.
  - destruct blocks as [| b' blocks'].
    + discriminate.
    + destruct (concatenate (b' :: blocks')) as [rest | e'] eqn:Hrest;
        cbn [bind].
      * destruct (length b =? length rest).
        -- discriminate.
        -- intros H. inversion H. eexists. reflexivity.
      * intros H. inversion H. subst e'. apply IH. reflexivity.
Qed.

Lemma vector_eqb_refl (a : list Q) : vector_eqb a a = true.
Proof.
  unfold vector_eqb. rewrite Nat.eqb_refl. cbn [andb].
  induction a as [| v a IH]; cbn; [reflexivity |].
  rewrite IH, andb_true_r. apply Qeq_bool_iff. reflexivity.
Qed.

Lemma matrix_eqb_refl (a : list (list Q)) : matrix_eqb a a = true.
Proof.
  unfold matrix_eqb. rewrite Nat.eqb_refl. cbn [andb].
  induction a as [| v a IH]; cbn; [reflexivity |].
  now rewrite IH, vector_eqb_refl.
Qed.

Lemma sample_sets_eqb_refl (a : sample_sets) : sample_sets_eqb a a = true.
Proof.
  unfold sample_sets_eqb. rewrite Nat.eqb_refl. cbn [andb].
  induction a as [| v a IH]; cbn; [reflexivity |].
  now rewrite IH, matrix_eqb_refl.
Qed.

(** What was saved is what the next check returns. *)
Lemma check_save (cache : string) (disk : gmap string cache_entry)
    (x : grid) (samples : sample_sets) (fsamples : matrix) :
  check cache (save cache disk x samples fsamples) x samples = Ok fsamples.
Proof.
  unfold check, save. rewrite lookup_insert_eq. cbn.
  now rewrite vector_eqb_refl, sample_sets_eqb_refl.
Qed.

(** Two models on three grid points; the model without samples is skipped. *)
Example compute_samples_two_models :
  fst (compute_samples [line; line] [0; 1; 2]%Q [[[1; 2]; [3; 4]]; []]%Q 1
         None ∅)
  = ([], Ok [[2; 4]; [3; 7]; [4; 10]]%Q).
Proof. reflexivity. Qed.

(** A cache that holds the inputs answers without evaluating anything. *)
Example compute_samples_cache_hit :
  fst (compute_samples [line] [0; 1]%Q [[[1; 2]]]%Q 1 (Some "run"%string)
         (save "run_fsamples" ∅ [0; 1]%Q [[[1; 2]]]%Q [[42]; [43]]%Q))
  = ([], Ok [[42]; [43]]%Q).
Proof. vm_compute. reflexivity. Qed.

End SamplesFacts.

(** ** The weights of [compute_samples] *)

Module OrchestrationFacts.
Import Py Orchestration.
Local Open Scope R_scope.

(** *** The largest element of a list *)

Lemma largest_In (l : list R) : l <> [] -> In (largest l) l.
Proof.
  destruct l as [| v l]; [congruence |]. intros _. unfold largest.
  revert v. induction l as [| a l IH]; intros v; cbn [fold_right].
  - left. reflexivity.
  - destruct (Rle_lt_dec a (fold_right Rmax v l)) as [Hrest | Ha].
    + rewrite (Rmax_right _ _ Hrest).
      destruct (IH v) as [Hv | Hl].
      * left. exact Hv.
      * right. right. exact Hl.
    + rewrite (Rmax_left _ _ (Rlt_le _ _ Ha)). right. left. reflexivity.
Qed.

Lemma largest_ge (l : list R) (v : R) : In v l -> v <= largest l.
Proof.
  destruct l as [| u l]; [contradiction |]. unfold largest.
  revert u. induction l as [| a l IH]; intros u Hin; cbn [fold_right].
  - destruct Hin as [-> | []]. apply Rle_refl.
  - destruct Hin as [-> | [-> | Hin]].
    + eapply Rle_trans; [apply (IH v); left; reflexivity | apply Rmax_r].
    + apply Rmax_l.
    + eapply Rle_trans; [apply (IH u); right; exact Hin | apply Rmax_r].
Qed.

Lemma largest_unique (l : list R) (m : R) :
  In m l -> (forall v, In v l -> v <= m) -> largest l = m.
Proof.
  intros Hin Hbound. apply Rle_antisym.
  - apply Hbound. apply largest_In. intros ->. contradiction.
  - apply largest_ge. exact Hin.
Qed.

(** numpy's and Python's maximum is the largest element. *)
Lemma fold_left_Rmax (l : list R) (v : R) :
  fold_left Rmax l v = fold_right Rmax v l.
Proof.
  apply fold_symmetric.
  - intros a b c. apply Rmax_assoc.
  - intros a. apply Rmax_comm.
Qed.

Lemma amax_largest (a : list R) : a <> [] -> amax a = Ok (largest a).
Proof.
  destruct a as [| v a]; [congruence |]. intros _.
  unfold amax, largest. now rewrite fold_left_Rmax.
Qed.

Lemma py_max_largest (l : list R) : l <> [] -> py_max l = Ok (largest l).
Proof.
  destruct l as [| v l]; [congruence |]. intros _.
  unfold py_max, largest. now rewrite fold_left_Rmax.
Qed.

Lemma traverse_amax (weights : list (list R)) :
  Forall (fun w => w <> []) weights ->
  traverse amax weights = Ok (map largest weights).
Proof.
  induction 1 as [| w weights Hw _ IH]; cbn [traverse map].
  - reflexivity.
  - rewrite (amax_largest w Hw). cbn [bind]. rewrite IH. reflexivity.
Qed.

(** The largest of the models' largest weights is the largest weight. *)
Lemma largest_of_largest (weights : list (list R)) :
  weights <> [] ->
  Forall (fun w => w <> []) weights ->
  largest (map largest weights) = largest (concat weights).
Proof.
  intros Hsome Hall. symmetry. apply largest_unique.
  - assert (Hin : In (largest (map largest weights)) (map largest weights)).
    { apply largest_In. destruct weights; [congruence | discriminate]. }
    apply in_map_iff in Hin. destruct Hin as (w & Hw & Hin).
    rewrite <- Hw. apply in_concat. exists w. split; [exact Hin |].
    apply largest_In. rewrite Forall_forall in Hall. apply Hall.
    apply list_elem_of_In. exact Hin.
  - intros v Hv. apply in_concat in Hv. destruct Hv as (w & Hw & Hv).
    eapply Rle_trans; [apply largest_ge; exact Hv |].
    apply largest_ge. apply in_map. exact Hw.
Qed.

(** Dividing by a positive number divides the largest element. *)
Lemma largest_scaled (l : list R) (c : R) :
  l <> [] -> 0 < c ->
  largest (map (fun v => v / c) l) = largest l / c.
Proof.
  intros Hsome Hc. apply largest_unique.
  - apply (in_map (fun v => v / c)). apply largest_In. exact Hsome.
  - intros v Hv. apply in_map_iff in Hv. destruct Hv as (u & <- & Hu).
    apply Rmult_le_compat_r.
    + left. apply Rinv_0_lt_compat. exact Hc.
    + apply largest_ge. exact Hu.
Qed.

(** *** Sums *)

Lemma total_app (a b : list R) : total (a ++ b) = total a + total b.
Proof.
  unfold total. induction a as [| v a IH]; cbn [app fold_right].
  - lra.
  - rewrite IH. lra.
Qed.

Lemma total_concat (weights : list (list R)) :
  total (map total weights) = total (concat weights).
Proof.
  induction weights as [| w weights IH]; cbn [map concat].
  - reflexivity.
  - rewrite total_app, <- IH. reflexivity.
Qed.

(** A positive sum of weights that are not negative has a positive term. *)
Lemma positive_weight (w : list R) :
  Forall (fun wi => 0 <= wi) w -> 0 < total w ->
  exists wi, In wi w /\ 0 < wi.
Proof.
  unfold total. induction 1 as [| v w Hv _ IH]; cbn [fold_right]; intros Hsum.
  - lra.
  - destruct (Rle_lt_dec v 0) as [Hzero | Hpos].
    + destruct IH as (wi & Hin & Hwi); [lra |].
      exists wi. split; [right; exact Hin | exact Hwi].
    + exists v. split; [left; reflexivity | exact Hpos].
Qed.

(** *** The three steps *)

Lemma zip_map_evidence (weights : list (list R)) (logZs : list R) (top : R) :
  map (fun '(w, Z) => map (fun wi => wi / total w * Z) w)
      (zip weights (map (fun logZ => exp (logZ - top)) logZs))
  = map (fun '(w, logZ) => map (fun wi => (wi / total w) * exp (logZ - top)) w)
        (zip weights logZs).
Proof.
  revert logZs. induction weights as [| w weights IH]; intros [| logZ logZs];
    cbn; try reflexivity.
  f_equal. apply IH.
Qed.

Lemma length_scale_by_evidence (logZs : list R) (weights : list (list R)) :
  length logZs = length weights ->
  length (scale_by_evidence logZs weights) = length weights.
Proof.
  intros Hlen. unfold scale_by_evidence.
  rewrite length_map, length_zip. lia.
Qed.

(** After step 1 every model still has a weight, none is negative, and
    every model has a positive one. *)
Lemma scale_by_evidence_proper (logZs : list R) (weights : list (list R)) :
  proper_weights weights ->
  Forall (fun w => Forall (fun wi => 0 <= wi) w /\ exists wi, In wi w /\ 0 < wi)
         (scale_by_evidence logZs weights).
Proof.
  unfold scale_by_evidence. generalize (largest logZs) as top. intros top Hproper.
  revert logZs. induction Hproper as [| w weights [Hnonneg Hsum] _ IH];
    intros [| logZ logZs]; cbn; try constructor.
  - pose proof (exp_pos (logZ - top)) as Hexp.
    assert (Hinv : 0 < / total w) by (apply Rinv_0_lt_compat; exact Hsum).
    split.
    + apply Forall_forall. intros v Hv. apply list_elem_of_In in Hv.
      apply in_map_iff in Hv. destruct Hv as (wi & <- & Hwi).
      rewrite Forall_forall in Hnonneg.
      assert (0 <= wi) by (apply Hnonneg, list_elem_of_In, Hwi).
      unfold Rdiv. apply Rmult_le_pos; [apply Rmult_le_pos |]; lra.
    + destruct (positive_weight w Hnonneg Hsum) as (wi & Hin & Hwi).
      exists (wi / total w * exp (logZ - top)). split.
      * apply (in_map (fun wi => wi / total w * exp (logZ - top))). exact Hin.
      * unfold Rdiv. apply Rmult_lt_0_compat; [apply Rmult_lt_0_compat |]; lra.
  - apply IH.
Qed.

Lemma concat_map_each (f : R -> R) (weights : list (list R)) :
  concat (map (fun w => map f w) weights) = map f (concat weights).
Proof.
  induction weights as [| w weights IH]; cbn [concat map].
  - reflexivity.
  - rewrite map_app, IH. reflexivity.
Qed.

(** C4: on weight vectors that are not negative and have a positive sum in
    every model, the code computes the three steps in the order of the
    specification: scaling by the evidence, then division by the single
    largest weight, then, if [ntrim] is supplied and below the total, the
    scaling by [ntrim / ntot]; and after the second step the largest weight
    over all models is 1. *)
Theorem compute_samples_weights_order (logZs : list R)
    (weights : list (list R)) (ntrim : option Z) :
  length logZs = length weights ->
  weights <> [] ->
  proper_weights weights ->
  compute_samples_weights logZs weights ntrim
  = Ok (scale_to_ntrim ntrim
          (divide_by_largest (scale_by_evidence logZs weights)))
  /\ largest (concat (divide_by_largest (scale_by_evidence logZs weights))) = 1.
Proof.
  intros Hlen Hsome Hproper.
  pose proof (scale_by_evidence_proper logZs weights Hproper) as Hscaled.
  pose proof (length_scale_by_evidence logZs weights Hlen) as Hlength.
  set (scaled := scale_by_evidence logZs weights) in *.
  assert (Hscaled_some : scaled <> []).
  { intros Hnil. rewrite Hnil in Hlength. destruct weights; [congruence | discriminate]. }
  assert (Hmodels : Forall (fun w => w <> []) scaled).
  { eapply List.Forall_impl; [| exact Hscaled].
    intros w (_ & wi & Hin & _) ->. contradiction. }
  assert (Hwmax : 0 < largest (concat scaled)).
  { destruct scaled as [| w scaled']; [congruence |].
    destruct (Forall_inv Hscaled) as (_ & wi & Hin & Hwi).
    eapply Rlt_le_trans; [exact Hwi |]. apply largest_ge.
    cbn [concat]. apply in_or_app. left. exact Hin. }
  assert (Hconcat : concat scaled <> []).
  { destruct scaled as [| w scaled']; [congruence |]. cbn [concat].
    destruct (Forall_inv Hscaled) as (_ & wi & Hin & _).
    destruct w; [contradiction | discriminate]. }
  split.
  - unfold compute_samples_weights.
    rewrite amax_largest
      by (intros ->; destruct weights; [congruence | discriminate]).
    cbn [bind]. rewrite zip_map_evidence.
    change (map _ (zip weights logZs)) with scaled.
    rewrite (traverse_amax scaled Hmodels). cbn [bind].
    rewrite py_max_largest
      by (destruct scaled; [congruence | discriminate]).
    cbn [bind]. rewrite (largest_of_largest scaled Hscaled_some Hmodels).
    f_equal. rewrite total_concat.
    change (map (fun w => map (fun wi => wi / largest (concat scaled)) w) scaled)
      with (divide_by_largest scaled).
    unfold scale_to_ntrim. destruct ntrim as [n |]; [| reflexivity].
    destruct (Rlt_dec (IZR n) (total (concat (divide_by_largest scaled))));
      [| reflexivity].
    apply map_ext. intros w. apply map_ext. intros wi.
    unfold Rdiv. apply Rmult_assoc.
  - unfold divide_by_largest. rewrite concat_map_each.
    rewrite (largest_scaled _ _ Hconcat Hwmax).
    apply Rdiv_diag. lra.
Qed.

Lemma compute_samples_weights_order_witness :
  compute_samples_weights [0; -1] [[1; 3]; [2; 2]] (Some 1%Z)
  = Ok (scale_to_ntrim (Some 1%Z)
          (divide_by_largest (scale_by_evidence [0; -1] [[1; 3]; [2; 2]])))
  /\ largest (concat (divide_by_largest
                        (scale_by_evidence [0; -1] [[1; 3]; [2; 2]]))) = 1.
Proof.
  apply (compute_samples_weights_order [0; -1] [[1; 3]; [2; 2]] (Some 1%Z)).
  - reflexivity.
  - discriminate.
  - unfold proper_weights, total.
    repeat constructor; cbn [fold_right]; lra.
Defined.

End OrchestrationFacts.

(** ** The probability mass transform *)

Module MassFacts.
Import Py Mass.

(** *** Sorting *)

Lemma sort_ascending (l : list Q) : Sorted Qle (QSort.sort l).
Proof.
  pose proof (QSort.Sorted_sort l) as Hsorted.
  induction Hsorted as [| v s _ IH Hhd]; constructor.
  - exact IH.
  - destruct Hhd as [| u s' Hle]; constructor.
    apply Qle_bool_iff. exact Hle.
Qed.

Lemma sort_permutation (l : list Q) : Permutation l (QSort.sort l).
Proof. apply QSort.Permuted_sort. Qed.

Lemma length_sort (l : list Q) : length (QSort.sort l) = length l.
Proof. symmetry. apply Permutation_length, sort_permutation. Qed.

(** *** Ranks *)

Lemma length_filter_disjoint {A} (f g : A -> bool) (l : list A) :
  (forall a, f a = true -> g a = false) ->
  length (List.filter f l) + length (List.filter g l) <= length l.
Proof.
  intros Hdisjoint. induction l as [| a l IH]; cbn [List.filter length].
  - lia.
  - destruct (f a) eqn:Hf.
    + rewrite (Hdisjoint a Hf). cbn [length]. lia.
    + destruct (g a); cbn [length]; lia.
Qed.

Lemma length_filter_pos {A} (f : A -> bool) (l : list A) (a : A) :
  In a l -> f a = true -> 1 <= length (List.filter f l).
Proof.
  intros Hin Hf.
  assert (Hkept : In a (List.filter f l)) by (apply filter_In; split; assumption).
  destruct (List.filter f l); [contradiction | cbn [length]; lia].
Qed.

Lemma length_rankdata (ps : list Q) : length (rankdata ps) = length ps.
Proof. unfold rankdata. apply length_map. Qed.

(** Every rank lies between 1 and the number of values ranked. *)
Lemma rankdata_bounds (ps : list Q) :
  Forall (fun r => 1 <= r /\ r <= inject_Z (Z.of_nat (length ps)))%Q
         (rankdata ps).
Proof.
  unfold rankdata. apply Forall_forall. intros r Hr.
  apply list_elem_of_In, in_map_iff in Hr. destruct Hr as (p & <- & Hp).
  cbv zeta.
  set (below := length (List.filter (fun q => negb (Qle_bool p q)) ps)).
  set (ties := length (List.filter (fun q => Qeq_bool q p) ps)).
  assert (Hties : 1 <= ties).
  { apply (length_filter_pos _ ps p Hp). apply Qeq_bool_iff. reflexivity. }
  assert (Hsum : below + ties <= length ps).
  { apply length_filter_disjoint. intros q Hq.
    apply negb_true_iff in Hq.
    destruct (Qeq_bool q p) eqn:Heq; [| reflexivity].
    apply Qeq_bool_iff in Heq.
    assert (Hle : Qle_bool p q = true)
      by (apply Qle_bool_iff; rewrite Heq; apply Qle_refl).
    congruence. }
  assert (Hb : (0 <= inject_Z (Z.of_nat below))%Q)
    by (rewrite <- (Zle_Qle 0); lia).
  assert (Ht : (1 <= inject_Z (Z.of_nat ties))%Q)
    by (rewrite <- (Zle_Qle 1); lia).
  assert (Hs : (inject_Z (Z.of_nat below) + inject_Z (Z.of_nat ties)
                <= inject_Z (Z.of_nat (length ps)))%Q)
    by (rewrite <- inject_Z_plus, <- Zle_Qle; lia).
  revert Hb Ht Hs.
  generalize (inject_Z (Z.of_nat below)), (inject_Z (Z.of_nat ties)),
    (inject_Z (Z.of_nat (length ps))).
  intros b t n Hb Ht Hs. unfold Qdiv. change (/ 2)%Q with (1 # 2)%Q.
  split; Lqa.lra.
Qed.


(** *** The interpolant *)

Lemma searchsorted_below (xs : list Q) (t : Q) (i : nat) :
  i < searchsorted xs t -> (nth i xs 0 < t)%Q.
Proof.
  revert i. induction xs as [| v xs IH]; intros i Hi; cbn [searchsorted] in Hi.
  - lia.
  - destruct (Qlt_le_dec v t) as [Hlt | Hle]; [| lia].
    destruct i as [| i]; cbn [nth]; [exact Hlt | apply IH; lia].
Qed.

Lemma searchsorted_at (xs : list Q) (t : Q) :
  searchsorted xs t < length xs -> (t <= nth (searchsorted xs t) xs 0)%Q.
Proof.
  induction xs as [| v xs IH]; cbn [searchsorted length]; intros Hk.
  - lia.
  - destruct (Qlt_le_dec v t) as [Hlt | Hle]; cbn [nth].
    + apply IH. lia.
    + exact Hle.
Qed.

Lemma searchsorted_length (xs : list Q) (t : Q) :
  searchsorted xs t <= length xs.
Proof.
  induction xs as [| v xs IH]; cbn [searchsorted length]; [lia |].
  destruct (Qlt_le_dec v t); lia.
Qed.

Lemma last_as_nth (xs : list Q) :
  List.last xs 0%Q = nth (length xs - 1) xs 0%Q.
Proof.
  induction xs as [| v xs IH]; [reflexivity |].
  destruct xs as [| u xs]; [reflexivity |].
  change (List.last (v :: u :: xs) 0%Q) with (List.last (u :: xs) 0%Q).
  rewrite IH. cbn [length].
  replace (S (S (length xs)) - 1) with (S (S (length xs) - 1)) by lia.
  reflexivity.
Qed.

(** The two knots the interpolant picks for an argument inside the range
    have that argument between them. *)
Lemma bracket (xs : list Q) (t : Q) :
  Sorted Qle xs ->
  2 <= length xs ->
  (hd 0 xs <= t)%Q ->
  (t <= List.last xs 0)%Q ->
  let hi := clip 1 (length xs - 1) (searchsorted xs t) in
  1 <= hi < length xs
  /\ (nth (hi - 1) xs 0 <= t)%Q /\ (t <= nth hi xs 0)%Q.
Proof.
  intros Hsorted Hlen Hlow Hhigh. cbn zeta. unfold clip.
  pose proof (searchsorted_length xs t) as Hk.
  rewrite last_as_nth in Hhigh.
  destruct (Nat.eq_dec (searchsorted xs t) 0) as [Hzero | Hpos].
  - rewrite Hzero.
    replace (Nat.min (Nat.max 0 1) (length xs - 1)) with 1 by lia.
    cbn [Nat.sub]. split; [lia |].
    pose proof (searchsorted_at xs t) as Hat. rewrite Hzero in Hat.
    destruct xs as [| v [| u xs]]; cbn [length] in Hlen; try lia.
    cbn [hd nth] in *. split; [exact Hlow |].
    apply Sorted_inv in Hsorted. destruct Hsorted as [_ Hhd].
    apply HdRel_inv in Hhd.
    eapply Qle_trans; [apply Hat; cbn [length]; lia | exact Hhd].
  - destruct (Nat.eq_dec (searchsorted xs t) (length xs)) as [Hall | Hsome].
    + exfalso.
      pose proof (searchsorted_below xs t (length xs - 1)) as Hbelow.
      apply (Qlt_irrefl t). eapply Qle_lt_trans; [exact Hhigh |].
      apply Hbelow. lia.
    + replace (Nat.min (Nat.max (searchsorted xs t) 1) (length xs - 1))
        with (searchsorted xs t) by lia.
      split; [lia |]. split.
      * apply Qlt_le_weak. apply searchsorted_below. lia.
      * apply searchsorted_at. lia.
Qed.



(** *** The heap after [PMF.__init__] *)

Section WithScipy.
Variable density : list Q -> Q -> Q.
Variable choice : nat -> nat.
Variable noise : nat -> Q.

Lemma gaussian_kde_dataset (dataset kernel : list Q) :
  gaussian_kde dataset = Ok kernel -> kernel = dataset.
Proof.
  unfold gaussian_kde. destruct dataset as [| v [| u rest]]; try discriminate.
  destruct (forallb (Qeq_bool v) (u :: rest)); [discriminate |].
  intros H. now inversion H.
Qed.

Lemma length_resample (kernel : list Q) (n : nat) :
  length (resample choice noise kernel n) = n.
Proof. unfold resample. now rewrite length_map, length_seq. Qed.

(** A short column: [ts] is a new array of 1000 draws, sorted; the array
    of the caller is as it was. *)
Lemma PMF_init_ts_short (samples : loc) (h : heap) (column kernel : list Q) :
  h !! samples = Some column ->
  gaussian_kde column = Ok kernel ->
  length column < 1000 ->
  PMF_init_ts choice noise samples h
  = (Ok (kernel, length h),
     h ++ [QSort.sort (resample choice noise kernel 1000)]).
Proof.
  intros Hcolumn Hfit Hshort. unfold PMF_init_ts. rewrite Hcolumn, Hfit.
  destruct (Nat.ltb_spec (length column) 1000) as [_ | Hlong]; [| lia].
  unfold alloc, sort_in_place. f_equal.
  rewrite <- (Nat.add_0_r (length h)) at 1. rewrite alter_app_r. reflexivity.
Qed.

(** A long column: [ts] is the array of the caller, sorted where it is. *)
Lemma PMF_init_ts_long (samples : loc) (h : heap) (column kernel : list Q) :
  h !! samples = Some column ->
  gaussian_kde column = Ok kernel ->
  1000 <= length column ->
  PMF_init_ts choice noise samples h
  = (Ok (kernel, samples), <[samples := QSort.sort column]> h).
Proof.
  intros Hcolumn Hfit Hlong. unfold PMF_init_ts. rewrite Hcolumn, Hfit.
  destruct (Nat.ltb_spec (length column) 1000) as [Hshort | _]; [lia |].
  unfold sort_in_place. f_equal.
  apply list_eq. intros i. rewrite list_lookup_alter.
  case_decide as Hi.
  - subst i. rewrite Hcolumn. cbn.
    rewrite list_lookup_insert_eq; [reflexivity |].
    apply lookup_lt_Some in Hcolumn. exact Hcolumn.
  - now rewrite list_lookup_insert_ne.
Qed.

(** The object built, for either length of column. *)
Lemma PMF_init_returns (samples : loc) (h : heap) (column kernel : list Q) :
  h !! samples = Some column ->
  gaussian_kde column = Ok kernel ->
  exists pmf h',
    PMF_init density choice noise samples h = (Ok pmf, h')
    /\ calibration_values pmf
       = QSort.sort (if length column <? 1000
                     then resample choice noise kernel 1000
                     else column)
    /\ y (_logpmf pmf)
       = map (fun r => ln (Q2R (r / inject_Z (Z.of_nat
                                   (length (calibration_values pmf))))))
             (rankdata (evaluate density kernel (calibration_values pmf)))
    /\ fill_value (_logpmf pmf) = NegInf
    /\ h' = (if length column <? 1000
             then h ++ [QSort.sort (resample choice noise kernel 1000)]
             else <[samples := QSort.sort column]> h).
Proof.
  intros Hcolumn Hfit. unfold PMF_init.
  destruct (Nat.ltb_spec (length column) 1000) as [Hshort | Hlong].
  - rewrite (PMF_init_ts_short samples h column kernel Hcolumn Hfit Hshort).
    rewrite lookup_app_r by lia. rewrite Nat.sub_diag. cbn [lookup default].
    do 2 eexists. repeat split.
  - rewrite (PMF_init_ts_long samples h column kernel Hcolumn Hfit Hlong).
    rewrite list_lookup_insert_eq by (apply lookup_lt_Some in Hcolumn; exact Hcolumn).
    cbn [default]. do 2 eexists. repeat split.
Qed.

(** C2, as amended: a column of fewer than 1000 values is not added to
    but replaced: the calibration uses exactly the 1000 values drawn from
    the fitted density, sorted.  A column of 1000 or more values is used
    directly, sorted.  Either way at least 1000 values are used. *)
Theorem PMF_init_calibration_values (samples : loc) (h : heap)
    (column kernel : list Q) :
  h !! samples = Some column ->
  gaussian_kde column = Ok kernel ->
  exists pmf h',
    PMF_init density choice noise samples h = (Ok pmf, h')
    /\ (length column < 1000 ->
          calibration_values pmf
          = QSort.sort (resample choice noise column 1000)
          /\ length (calibration_values pmf) = 1000)
    /\ (1000 <= length column ->
          calibration_values pmf = QSort.sort column
          /\ Permutation column (calibration_values pmf))
    /\ 1000 <= length (calibration_values pmf).
Proof.
  intros Hcolumn Hfit.
  destruct (PMF_init_returns samples h column kernel Hcolumn Hfit)
    as (pmf & h' & Hinit & Hvalues & _).
  apply gaussian_kde_dataset in Hfit. subst kernel.
  exists pmf, h'. split; [exact Hinit |].
  destruct (Nat.ltb_spec (length column) 1000) as [Hshort | Hlong];
    rewrite Hvalues.
  - repeat split; try lia.
    + now rewrite length_sort, length_resample.
    + rewrite length_sort, length_resample. lia.
  - repeat split; try lia.
    + apply sort_permutation.
    + rewrite length_sort. exact Hlong.
Qed.

(** C9: when the column has 1000 or more values and the kernel can be
    fitted, [PMF.__init__] returns and the array the caller passed holds
    the column sorted ascending; no other array on the heap has changed. *)
Theorem PMF_init_sorts_caller_array (samples : loc) (h : heap)
    (column kernel : list Q) :
  h !! samples = Some column ->
  gaussian_kde column = Ok kernel ->
  1000 <= length column ->
  exists pmf h',
    PMF_init density choice noise samples h = (Ok pmf, h')
    /\ h' !! samples = Some (QSort.sort column)
    /\ Sorted Qle (QSort.sort column)
    /\ Permutation column (QSort.sort column)
    /\ (forall other, other <> samples -> h' !! other = h !! other).
Proof.
  intros Hcolumn Hfit Hlong.
  destruct (PMF_init_returns samples h column kernel Hcolumn Hfit)
    as (pmf & h' & Hinit & _ & _ & _ & Hheap).
  destruct (Nat.ltb_spec (length column) 1000) as [Hshort | _]; [lia |].
  exists pmf, h'. subst h'. repeat split.
  - exact Hinit.
  - apply list_lookup_insert_eq. apply lookup_lt_Some in Hcolumn. exact Hcolumn.
  - apply sort_ascending.
  - apply sort_permutation.
  - intros other Hother. apply list_lookup_insert_ne. congruence.
Qed.


(** A short column leaves the array of the caller alone. *)
Lemma PMF_init_short_keeps_caller_array (samples : loc) (h : heap)
    (column kernel : list Q) :
  h !! samples = Some column ->
  gaussian_kde column = Ok kernel ->
  length column < 1000 ->
  exists pmf h',
    PMF_init density choice noise samples h = (Ok pmf, h')
    /\ h' !! samples = Some column.
Proof.
  intros Hcolumn Hfit Hshort.
  destruct (PMF_init_returns samples h column kernel Hcolumn Hfit)
    as (pmf & h' & Hinit & _ & _ & _ & Hheap).
  destruct (Nat.ltb_spec (length column) 1000) as [_ | Hlong]; [| lia].
  exists pmf, h'. subst h'. split; [exact Hinit |].
  rewrite lookup_app_l by (apply lookup_lt_Some in Hcolumn; exact Hcolumn).
  exact Hcolumn.
Qed.

End WithScipy.

(** *** The code on concrete columns *)

Lemma not_among (v : Q) (l : list Q) :
  forallb (fun u => negb (Qeq_bool u v)) l = true -> ~ among v l.
Proof.
  unfold among. intros Hall Hsome. apply List.Exists_exists in Hsome.
  destruct Hsome as (u & Hu & Heq).
  rewrite forallb_forall in Hall. specialize (Hall u Hu).
  apply negb_true_iff in Hall. apply Qeq_bool_iff in Heq. congruence.
Qed.

Lemma PMF_init_calibration_values_witness :
  exists pmf h',
    PMF_init flat_density alternating rising 0 [two_values] = (Ok pmf, h')
    /\ (length two_values < 1000 ->
          calibration_values pmf
          = QSort.sort (resample alternating rising two_values 1000)
          /\ length (calibration_values pmf) = 1000)
    /\ (1000 <= length two_values ->
          calibration_values pmf = QSort.sort two_values
          /\ Permutation two_values (calibration_values pmf))
    /\ 1000 <= length (calibration_values pmf).
Proof.
  apply (PMF_init_calibration_values flat_density alternating rising
           0 [two_values] two_values two_values).
  - reflexivity.
  - reflexivity.
Defined.

(** C2, as stated, fails: for the column of the two values 0 and 1 the
    calibration runs on 1000 drawn values, and neither 0 nor 1 is among
    them. *)
Lemma PMF_init_drops_short_column :
  exists pmf h',
    PMF_init flat_density alternating rising 0 [two_values] = (Ok pmf, h')
    /\ length two_values < 1000
    /\ among 0 two_values /\ among 1 two_values
    /\ ~ among 0 (calibration_values pmf)
    /\ ~ among 1 (calibration_values pmf).
Proof.
  destruct (PMF_init_returns flat_density alternating rising 0 [two_values]
              two_values two_values eq_refl eq_refl)
    as (pmf & h' & Hinit & Hvalues & _).
  exists pmf, h'. split; [exact Hinit |]. rewrite Hvalues.
  split; [cbn; lia |].
  split; [left; reflexivity |].
  split; [right; left; reflexivity |].
  split; apply not_among; vm_compute; reflexivity.
Qed.


Lemma PMF_init_sorts_caller_array_witness :
  exists pmf h',
    PMF_init flat_density alternating rising 0 [descending] = (Ok pmf, h')
    /\ h' !! 0 = Some (QSort.sort descending)
    /\ Sorted Qle (QSort.sort descending)
    /\ Permutation descending (QSort.sort descending)
    /\ (forall other, other <> 0 -> h' !! other = [descending] !! other).
Proof.
  apply (PMF_init_sorts_caller_array flat_density alternating rising
           0 [descending] descending descending).
  - reflexivity.
  - vm_compute. reflexivity.
  - apply Nat.leb_le. vm_compute. reflexivity.
Defined.

(** The caller's array of 1000 descending values, after the call. *)
Example descending_is_reversed :
  QSort.sort descending = rev descending /\ descending <> rev descending.
Proof.
  split.
  - vm_compute. reflexivity.
  - vm_compute. discriminate.
Qed.

End MassFacts.

(** ** Gathering, and [mpi_apply] *)

Module DistributedFacts.
Import Py ParallelEngine Distributed ParallelEngineFacts.

(** *** What a rank receives *)

Lemma mpi_scatter_array_value (array : ndarray) (n : Z) (dims : list Z)
    (p : Z) (r : nat) :
  shape array = n :: dims ->
  dims <> [] ->
  (0 < p)%Z ->
  (Z.of_nat r < p)%Z ->
  mpi_scatter_array array p r
  = Returns {| shape := share n p r :: dims;
               data := take (Z.to_nat (share n p r * fold_right Z.mul 1%Z dims))
                            (drop (Z.to_nat (first_row n p r * fold_right Z.mul 1%Z dims))
                                  (data array)) |}.
Proof.
  intros Hshape Hdims Hp Hr.
  unfold mpi_scatter_array, scattered, len. rewrite Hshape. cbn [bind tl].
  rewrite row_layout_eq by exact Hp. cbn [bind].
  destruct dims as [| d dims']; [congruence |].
  unfold imul_prod. cbn [bind].
  rewrite !nth_map_scale.
  rewrite nth_sendcounts_of, nth_displacements_of by assumption.
  reflexivity.
Qed.

(** *** Messages stored one after the other *)

Lemma store_after (done message rest : list Q) :
  length message <= length rest ->
  store (length done) message (done ++ rest)
  = (done ++ message) ++ drop (length message) rest.
Proof.
  intros Hfit. unfold store.
  rewrite take_app_length, drop_app_add.
  now rewrite <- app_assoc.
Qed.

Lemma Gatherv_in_order (messages : list (list Q)) (done rest : list Q) :
  length (concat messages) <= length rest ->
  Gatherv messages (done ++ rest)
    (map (fun message => Z.of_nat (length message)) messages)
    (offsets (Z.of_nat (length done)) messages)
  = Returns (done ++ concat messages ++ drop (length (concat messages)) rest).
Proof.
  revert done rest.
  induction messages as [| message messages IH]; intros done rest Hfit.
  - reflexivity.
  - cbn [concat] in *. rewrite length_app in Hfit.
    cbn [map offsets Gatherv].
    rewrite Z.ltb_irrefl.
    destruct (Z.ltb_spec (Z.of_nat (length (done ++ rest)))
                (Z.of_nat (length done) + Z.of_nat (length message)))
      as [Hshort | _]; [rewrite length_app in Hshort; lia |].
    rewrite Nat2Z.id, store_after by lia.
    replace (Z.of_nat (length done) + Z.of_nat (length message))%Z
      with (Z.of_nat (length (done ++ message)))
      by (rewrite length_app; lia).
    rewrite IH by (rewrite length_skipn; lia).
    rewrite drop_drop, length_app, <- !app_assoc. reflexivity.
Qed.

(** *** What the root gathers *)

Lemma for_each_value {A B} (f : A -> result B) (g : A -> B) (l : list A) :
  Forall (fun a => f a = Ok (g a)) l -> for_each f l = Ok (map g l).
Proof.
  induction 1 as [| a l Ha _ IH]; cbn [for_each map].
  - reflexivity.
  - rewrite Ha. cbn [bind]. rewrite IH. reflexivity.
Qed.

Lemma len_lead (a : ndarray) : shape a <> [] -> len a = Ok (lead a).
Proof.
  unfold len, lead. destruct (shape a); [congruence | reflexivity].
Qed.

Lemma length_concat_blocks (dims : list Z) (locals : list ndarray) :
  Forall (block_of dims) locals ->
  Z.of_nat (length (concat (map data locals)))
  = (sum_list (map lead locals) * fold_right Z.mul 1%Z dims)%Z.
Proof.
  induction 1 as [| a locals (_ & _ & Hsize) _ IH];
    cbn [map concat sum_list fold_right].
  - reflexivity.
  - fold (sum_list (map lead locals)).
    rewrite length_app, Nat2Z.inj_add, IH, Hsize. lia.
Qed.

Lemma sum_lead_nonneg (dims : list Z) (locals : list ndarray) :
  Forall (block_of dims) locals -> (0 <= sum_list (map lead locals))%Z.
Proof.
  induction 1 as [| a locals (_ & Hlead & _) _ IH];
    cbn [map sum_list fold_right].
  - lia.
  - fold (sum_list (map lead locals)). lia.
Qed.

Lemma counts_of_blocks (dims : list Z) (locals : list ndarray) :
  Forall (block_of dims) locals ->
  map (fun c => c * fold_right Z.mul 1%Z dims)%Z (map lead locals)
  = map (fun message => Z.of_nat (length message)) (map data locals).
Proof.
  induction 1 as [| a locals (_ & _ & Hsize) _ IH]; cbn [map].
  - reflexivity.
  - rewrite IH, Hsize. reflexivity.
Qed.

(** The displacements the root computes are the offsets of the messages. *)
Lemma displacements_of_blocks (dims : list Z) (a : ndarray)
    (locals : list ndarray) (acc : Z) :
  Forall (block_of dims) (a :: locals) ->
  map (fun c => c * fold_right Z.mul 1%Z dims)%Z
      (acc :: removelast (cumsum_from acc (map lead (a :: locals))))
  = offsets (acc * fold_right Z.mul 1%Z dims) (map data (a :: locals)).
Proof.
  revert a acc. induction locals as [| b locals IH]; intros a acc Hblocks.
  - reflexivity.
  - pose proof (Forall_inv Hblocks) as (_ & _ & Hsize).
    pose proof (Forall_inv_tail Hblocks) as Hrest.
    specialize (IH b (acc + lead a)%Z Hrest).
    cbn [map cumsum_from offsets] in *.
    change (removelast ((acc + lead a)%Z
              :: (acc + lead a + lead b)%Z
              :: cumsum_from (acc + lead a + lead b) (map lead locals)))
      with ((acc + lead a)%Z
              :: removelast ((acc + lead a + lead b)%Z
                   :: cumsum_from (acc + lead a + lead b) (map lead locals))).
    cbn [map]. f_equal.
    rewrite Hsize, <- Z.mul_add_distr_r. exact IH.
Qed.

(** Blocks of one row size are gathered into their concatenation, in the
    order of the ranks. *)
Lemma mpi_gather_array_value (locals : list ndarray) (root : ndarray)
    (dims : list Z) :
  locals !! 0 = Some root ->
  tl (shape root) = dims ->
  dims <> [] ->
  Forall (block_of dims) locals ->
  mpi_gather_array locals 0
  = Returns (Some {| shape := sum_list (map lead locals) :: dims;
                     data := concat (map data locals) |}).
Proof.
  intros Hroot Hdims Hsome Hblocks.
  unfold mpi_gather_array. rewrite Hroot.
  rewrite (for_each_value len lead locals)
    by (eapply List.Forall_impl; [| exact Hblocks];
        intros a (Hshape & _); now apply len_lead).
  cbn [of_result obind Nat.eqb]. rewrite Hdims.
  destruct dims as [| d dims']; [congruence |].
  unfold imul_prod. cbn [of_result obind].
  destruct locals as [| a locals']; [discriminate |].
  unfold displacements_of, cumsum.
  rewrite (displacements_of_blocks (d :: dims') a locals' 0 Hblocks).
  rewrite (counts_of_blocks (d :: dims') (a :: locals') Hblocks).
  pose proof (length_concat_blocks (d :: dims') (a :: locals') Hblocks) as Hlen.
  pose proof (sum_lead_nonneg (d :: dims') (a :: locals') Hblocks) as Hsum.
  unfold numpy_zeros. cbn [data ParallelEngine.shape].
  change (fold_right Z.mul 1%Z (sum_list (map lead (a :: locals')) :: d :: dims'))
    with (sum_list (map lead (a :: locals')) * fold_right Z.mul 1%Z (d :: dims'))%Z.
  rewrite <- Hlen, Nat2Z.id. rewrite Z.mul_0_l.
  pose proof (Gatherv_in_order (map data (a :: locals')) []
                (zeros (length (concat (map data (a :: locals'))))))
    as Hgather.
  change (Z.of_nat (length (@nil Q))) with 0%Z in Hgather.
  cbn [app] in Hgather.
  rewrite Hgather by (unfold zeros; rewrite repeat_length; lia).
  cbn [obind]. rewrite drop_ge by (unfold zeros; rewrite repeat_length; lia).
  now rewrite app_nil_r.
Qed.

(** *** Scattering, then gathering *)

Lemma on_ranks_value {B} (f : nat -> outcome B) (g : nat -> B)
    (l : list nat) :
  Forall (fun r => f r = Returns (g r)) l ->
  on_ranks f l = Returns (map g l).
Proof.
  induction 1 as [| r l Hr _ IH]; cbn [on_ranks map].
  - reflexivity.
  - rewrite Hr. cbn [obind]. rewrite IH. reflexivity.
Qed.

Lemma scatter_all (array : ndarray) (n : Z) (dims : list Z) (p : Z) :
  shape array = n :: dims ->
  dims <> [] ->
  (0 < p)%Z ->
  on_ranks (mpi_scatter_array array p) (ranks p)
  = Returns (map (block array n dims p) (ranks p)).
Proof.
  intros Hshape Hdims Hp. apply on_ranks_value.
  apply Forall_forall. intros r Hr.
  apply list_elem_of_In, in_seq in Hr.
  apply mpi_scatter_array_value; try assumption. lia.
Qed.

Lemma block_is_block (array : ndarray) (n : Z) (dims : list Z) (p : Z)
    (r : nat) :
  shape array = n :: dims ->
  well_shaped array ->
  (0 < p)%Z ->
  (Z.of_nat r < p)%Z ->
  block_of dims (block array n dims p r).
Proof.
  intros Hshape [Hnonneg Hsize] Hp Hr.
  rewrite Hshape in Hnonneg, Hsize. cbn [fold_right] in Hsize.
  pose proof (Forall_inv Hnonneg) as Hn. cbn beta in Hn.
  pose proof (prod_nonneg dims (Forall_inv_tail Hnonneg)) as Hm.
  pose proof (share_nonneg n p r Hn Hp) as Hc.
  pose proof (first_row_nonneg n p r Hn Hp) as Hd.
  pose proof (block_within n p r Hn Hp Hr) as Hfit.
  unfold block_of, block, lead. cbn [shape data hd].
  split; [discriminate |]. split; [exact Hc |].
  rewrite length_firstn, length_skipn.
  pose proof (Z.mul_nonneg_nonneg _ _ Hc Hm).
  pose proof (Z.mul_nonneg_nonneg _ _ Hd Hm).
  assert (first_row n p r * fold_right Z.mul 1%Z dims
          + share n p r * fold_right Z.mul 1%Z dims
          <= n * fold_right Z.mul 1%Z dims)%Z by nia.
  lia.
Qed.

(** The blocks of the first [k] ranks are the first rows of the array. *)
Lemma concat_blocks (array : ndarray) (n : Z) (dims : list Z) (p : Z)
    (k : nat) :
  (0 <= n)%Z ->
  (0 <= fold_right Z.mul 1%Z dims)%Z ->
  (0 < p)%Z ->
  concat (map (fun r => data (block array n dims p r)) (seq 0 k))
  = take (Z.to_nat (first_row n p k * fold_right Z.mul 1%Z dims)) (data array).
Proof.
  intros Hn Hm Hp. induction k as [| k IH].
  - reflexivity.
  - rewrite seq_S, map_app, concat_app, IH. cbn [map concat block data].
    rewrite app_nil_r, take_take_drop. f_equal.
    pose proof (share_nonneg n p k Hn Hp).
    pose proof (first_row_nonneg n p k Hn Hp).
    cbn [first_row].
    rewrite Z.mul_add_distr_r, Z2Nat.inj_add
      by (apply Z.mul_nonneg_nonneg; assumption).
    reflexivity.
Qed.

Lemma sum_shares (n p : Z) (k : nat) :
  sum_list (map (fun r => share n p r) (seq 0 k)) = first_row n p k.
Proof.
  induction k as [| k IH].
  - reflexivity.
  - rewrite seq_S, map_app. unfold sum_list in *.
    rewrite fold_right_app. cbn [map fold_right first_row].
    rewrite <- IH. clear IH.
    generalize (map (fun r => share n p r) (seq 0 k)). intros l.
    cbn [Nat.add].
    induction l as [| c l IHl]; cbn [fold_right]; [lia | rewrite IHl; lia].
Qed.

Lemma mpi_gather_array_other (locals : list ndarray) (dims : list Z)
    (r : nat) :
  Forall (block_of dims) locals ->
  0 < r < length locals ->
  mpi_gather_array locals r = Returns None.
Proof.
  intros Hblocks Hr. unfold mpi_gather_array.
  destruct (lookup_lt_is_Some_2 locals r (proj2 Hr)) as [a Ha]. rewrite Ha.
  rewrite (for_each_value len lead locals)
    by (eapply List.Forall_impl; [| exact Hblocks];
        intros b (Hshape & _); now apply len_lead).
  cbn [of_result obind].
  destruct (Nat.eqb_spec r 0); [lia | reflexivity].
Qed.

Lemma blocks_are_blocks (array : ndarray) (n : Z) (dims : list Z) (p : Z) :
  shape array = n :: dims ->
  well_shaped array ->
  (0 < p)%Z ->
  Forall (block_of dims) (map (block array n dims p) (ranks p)).
Proof.
  intros Hshape Hwell Hp. apply Forall_forall. intros a Ha.
  apply list_elem_of_In, in_map_iff in Ha. destruct Ha as (r & <- & Hr).
  apply in_seq in Hr. apply block_is_block; try assumption. lia.
Qed.

Lemma ranks_first (p : Z) : (0 < p)%Z -> exists rest, ranks p = 0 :: rest.
Proof.
  intros Hp. unfold ranks.
  destruct (Z.to_nat p) as [| k] eqn:Hk; [lia |].
  exists (seq 1 k). reflexivity.
Qed.

(** X1: gathering what was scattered gives the array back.  For an array
    of two or more dimensions whose shape agrees with its buffer, every
    rank of a communicator receives its block, and [mpi_gather_array] on
    those blocks returns the array itself on rank 0 and [None] on every
    other rank. *)
Theorem mpi_gather_array_of_scattered (array : ndarray) (n : Z)
    (dims : list Z) (p : Z) :
  shape array = n :: dims ->
  dims <> [] ->
  well_shaped array ->
  (0 < p)%Z ->
  exists locals,
    on_ranks (mpi_scatter_array array p) (ranks p) = Returns locals
    /\ mpi_gather_array locals 0 = Returns (Some array)
    /\ (forall r, 0 < r -> (Z.of_nat r < p)%Z ->
          mpi_gather_array locals r = Returns None).
Proof.
  intros Hshape Hdims Hwell Hp.
  exists (map (block array n dims p) (ranks p)).
  pose proof (blocks_are_blocks array n dims p Hshape Hwell Hp) as Hblocks.
  destruct Hwell as [Hnonneg Hsize]. rewrite Hshape in Hnonneg, Hsize.
  pose proof (Forall_inv Hnonneg) as Hn. cbn beta in Hn.
  pose proof (prod_nonneg dims (Forall_inv_tail Hnonneg)) as Hm.
  split; [now apply scatter_all |]. split.
  - destruct (ranks_first p Hp) as [rest Hranks].
    rewrite (mpi_gather_array_value _ (block array n dims p 0) dims);
      try assumption; [| now rewrite Hranks | reflexivity].
    rewrite !map_map.
    change (fun r => lead (block array n dims p r))
      with (fun r => share n p r).
    unfold ranks. rewrite sum_shares, first_row_all by exact Hp.
    rewrite (concat_blocks array n dims p _ Hn Hm Hp).
    rewrite first_row_all by exact Hp.
    rewrite take_ge by (cbn [fold_right] in Hsize; lia).
    destruct array as [array_shape array_data]. cbn [shape data] in *.
    now subst array_shape.
  - intros r Hpos Hr. apply (mpi_gather_array_other _ dims); [exact Hblocks |].
    unfold ranks. rewrite length_map, length_seq. lia.
Qed.

Lemma mpi_gather_array_of_scattered_witness :
  exists locals,
    on_ranks (mpi_scatter_array
                {| shape := [5; 2]%Z;
                   data := [1; 2; 3; 4; 5; 6; 7; 8; 9; 10]%Q |} 3)
             (ranks 3)
    = Returns locals
    /\ mpi_gather_array locals 0
       = Returns (Some {| shape := [5; 2]%Z;
                          data := [1; 2; 3; 4; 5; 6; 7; 8; 9; 10]%Q |})
    /\ (forall r, 0 < r -> (Z.of_nat r < 3)%Z ->
          mpi_gather_array locals r = Returns None).
Proof.
  apply (mpi_gather_array_of_scattered
           {| shape := [5; 2]%Z; data := [1; 2; 3; 4; 5; 6; 7; 8; 9; 10]%Q |}
           5%Z [2]%Z 3%Z).
  - reflexivity.
  - discriminate.
  - split; [repeat constructor; discriminate | reflexivity].
  - reflexivity.
Defined.

(** X2: [mpi_gather_array] on blocks of one row size.  When every rank
    holds a block whose buffer has as many rows as its leading extent says,
    of the row size of rank 0, then rank 0 obtains the blocks joined in
    rank order, with the leading extents added up, and every other rank
    obtains [None]. *)
Theorem mpi_gather_array_joins_blocks (locals : list ndarray)
    (root : ndarray) (dims : list Z) :
  locals !! 0 = Some root ->
  tl (shape root) = dims ->
  dims <> [] ->
  Forall (block_of dims) locals ->
  mpi_gather_array locals 0
  = Returns (Some {| shape := sum_list (map lead locals) :: dims;
                     data := concat (map data locals) |})
  /\ (forall r, 0 < r < length locals ->
        mpi_gather_array locals r = Returns None).
Proof.
  intros Hroot Hdims Hsome Hblocks. split.
  - exact (mpi_gather_array_value locals root dims Hroot Hdims Hsome Hblocks).
  - intros r Hr. exact (mpi_gather_array_other locals dims r Hblocks Hr).
Qed.

Lemma mpi_gather_array_joins_blocks_witness :
  mpi_gather_array
    [ {| shape := [2; 2]%Z; data := [1; 2; 3; 4]%Q |};
      {| shape := [0]%Z; data := [] |};
      {| shape := [1; 2]%Z; data := [5; 6]%Q |} ] 0
  = Returns (Some {| shape := [3; 2]%Z; data := [1; 2; 3; 4; 5; 6]%Q |})
  /\ (forall r, 0 < r < 3 ->
        mpi_gather_array
          [ {| shape := [2; 2]%Z; data := [1; 2; 3; 4]%Q |};
            {| shape := [0]%Z; data := [] |};
            {| shape := [1; 2]%Z; data := [5; 6]%Q |} ] r
        = Returns None).
Proof.
  apply (mpi_gather_array_joins_blocks
           [ {| shape := [2; 2]%Z; data := [1; 2; 3; 4]%Q |};
             {| shape := [0]%Z; data := [] |};
             {| shape := [1; 2]%Z; data := [5; 6]%Q |} ]
           {| shape := [2; 2]%Z; data := [1; 2; 3; 4]%Q |} [2]%Z).
  - reflexivity.
  - reflexivity.
  - discriminate.
  - repeat constructor; cbn; discriminate.
Defined.

(** *** [mpi_apply] *)

Lemma map_seq_shift {A} (f : nat -> A) (start count : nat) :
  map (fun i => f (start + i)) (seq 0 count) = map f (seq start count).
Proof.
  revert start. induction count as [| count IH]; intros start.
  - reflexivity.
  - cbn [seq map]. rewrite Nat.add_0_r. f_equal.
    rewrite <- seq_shift, map_map, <- (IH (S start)).
    apply map_ext. intros i. f_equal. lia.
Qed.

(** The sub-arrays of a block are sub-arrays of the array. *)
Lemma iterate_block (array : ndarray) (n : Z) (dims : list Z) (p : Z)
    (r : nat) :
  shape array = n :: dims ->
  (0 <= n)%Z ->
  (0 <= fold_right Z.mul 1%Z dims)%Z ->
  (0 < p)%Z ->
  iterate (block array n dims p r)
  = Ok (map (subarray array)
            (seq (Z.to_nat (first_row n p r)) (Z.to_nat (share n p r)))).
Proof.
  intros Hshape Hn Hm Hp.
  pose proof (share_nonneg n p r Hn Hp) as Hc.
  pose proof (first_row_nonneg n p r Hn Hp) as Hd.
  unfold iterate, len, block. cbn [shape bind]. f_equal.
  rewrite <- (map_seq_shift (subarray array) (Z.to_nat (first_row n p r))).
  apply map_ext_in. intros i Hi.
  apply in_seq in Hi.
  unfold subarray, row, row_size. cbn [shape data tl].
  rewrite Hshape. cbn [tl]. f_equal.
  rewrite !Z2Nat.inj_mul by lia.
  apply take_row_of_block. lia.
Qed.

(** Blocks that follow one another make up the rows from the first on. *)
Lemma concat_seq_blocks (n p : Z) (k : nat) :
  (0 <= n)%Z ->
  (0 < p)%Z ->
  concat (map (fun r => seq (Z.to_nat (first_row n p r))
                            (Z.to_nat (share n p r)))
              (seq 0 k))
  = seq 0 (Z.to_nat (first_row n p k)).
Proof.
  intros Hn Hp. induction k as [| k IH].
  - reflexivity.
  - rewrite seq_S, map_app, concat_app, IH. cbn [map concat Nat.add].
    rewrite app_nil_r. cbn [first_row].
    pose proof (share_nonneg n p k Hn Hp).
    pose proof (first_row_nonneg n p k Hn Hp).
    rewrite Z2Nat.inj_add by lia. now rewrite seq_app.
Qed.

Lemma shape_eqb_refl (a : list Z) : shape_eqb a a = true.
Proof.
  unfold shape_eqb. rewrite Nat.eqb_refl. cbn [andb].
  induction a as [| d a IH]; cbn; [reflexivity |].
  now rewrite Z.eqb_refl, IH.
Qed.

(** Stacking arrays of one shape: one more axis, the buffers joined. *)
Lemma numpy_array_stack (arrays : list ndarray) (out : list Z) :
  out <> [] ->
  Forall (fun a => shape a = out
                   /\ Z.of_nat (length (data a)) = fold_right Z.mul 1%Z out)
         arrays ->
  exists stacked,
    numpy_array arrays = Ok stacked
    /\ block_of out stacked
    /\ lead stacked = Z.of_nat (length arrays)
    /\ data stacked = concat (map data arrays)
    /\ (arrays <> [] -> tl (shape stacked) = out).
Proof.
  intros Hout Hall. unfold numpy_array.
  destruct arrays as [| first rest].
  - eexists. split; [reflexivity |]. unfold block_of, lead. cbn.
    repeat split; try discriminate; try lia. congruence.
  - assert (Hsame : forallb (fun a => shape_eqb (shape a) (shape first))
                      (first :: rest) = true).
    { destruct (Forall_inv Hall) as [Hfirst _].
      apply forallb_forall. intros a Ha.
      pose proof (proj1 (Forall_forall _ _) Hall a
                    (proj2 (list_elem_of_In _ _) Ha)) as [Ha_shape _].
      rewrite Ha_shape, Hfirst. apply shape_eqb_refl. }
    rewrite Hsame. eexists. split; [reflexivity |].
    destruct (Forall_inv Hall) as [Hfirst _].
    unfold block_of, lead. cbn [shape data hd tl].
    repeat split; try discriminate; try lia; try assumption.
    2: { intros _. exact Hfirst. }
    clear Hsame Hfirst.
    induction Hall as [| a arrays [_ Hsize] _ IH]; cbn [map concat length].
    + lia.
    + rewrite length_app, Nat2Z.inj_add, IH, Hsize. lia.
Qed.

Lemma on_ranks_exists {B} (f : nat -> outcome B) (P : nat -> B -> Prop)
    (l : list nat) :
  (forall r, In r l -> exists b, f r = Returns b /\ P r b) ->
  exists bs, on_ranks f l = Returns bs /\ Forall2 P l bs.
Proof.
  induction l as [| r l IH]; intros Hall.
  - exists []. split; [reflexivity | constructor].
  - destruct (Hall r (or_introl eq_refl)) as (b & Hb & HP).
    destruct IH as (bs & Hbs & HPs).
    { intros r' Hr'. apply Hall. right. exact Hr'. }
    exists (b :: bs). cbn [on_ranks]. rewrite Hb. cbn [obind]. rewrite Hbs.
    split; [reflexivity | constructor; assumption].
Qed.

Lemma Forall2_map_eq {A B C} (P : A -> B -> Prop) (g : A -> C) (h : B -> C)
    (l : list A) (bs : list B) :
  Forall2 P l bs -> (forall a b, P a b -> h b = g a) -> map h bs = map g l.
Proof.
  intros Hall Heq. induction Hall as [| a b l bs HP _ IH]; cbn [map].
  - reflexivity.
  - now rewrite (Heq a b HP), IH.
Qed.

Lemma concat_map_concat {A B C} (g : B -> list C) (h : A -> list B)
    (l : list A) :
  concat (map (fun a => concat (map g (h a))) l)
  = concat (map g (concat (map h l))).
Proof.
  induction l as [| a l IH]; cbn [map concat].
  - reflexivity.
  - now rewrite map_app, concat_app, IH.
Qed.

(** What one rank computes before the gathering. *)
Lemma local_answer_value (function : ndarray -> ndarray) (array : ndarray)
    (n : Z) (dims out : list Z) (p : Z) (r : nat) :
  shape array = n :: dims ->
  dims <> [] ->
  well_shaped array ->
  (0 < p)%Z ->
  out <> [] ->
  (forall i, (Z.of_nat i < n)%Z ->
             shape (function (subarray array i)) = out
             /\ Z.of_nat (length (data (function (subarray array i))))
                = fold_right Z.mul 1%Z out) ->
  (Z.of_nat r < p)%Z ->
  exists answer,
    local_answer function array p r = Returns answer
    /\ answer_of function array n out p r answer.
Proof.
  intros Hshape Hdims [Hnonneg Hsize] Hp Hout Hfunction Hr.
  rewrite Hshape in Hnonneg.
  pose proof (Forall_inv Hnonneg) as Hn. cbn beta in Hn.
  pose proof (prod_nonneg dims (Forall_inv_tail Hnonneg)) as Hm.
  unfold local_answer.
  rewrite (mpi_scatter_array_value array n dims p r Hshape Hdims Hp)
    by lia.
  cbn [obind]. fold (block array n dims p r).
  rewrite (iterate_block array n dims p r Hshape Hn Hm Hp). cbn [bind].
  set (xs := map (subarray array)
               (seq (Z.to_nat (first_row n p r)) (Z.to_nat (share n p r)))).
  destruct (numpy_array_stack (map function xs) out Hout)
    as (stacked & Hstack & Hblock & Hlead & Hdata & Htail).
  { apply Forall_forall. intros a Ha.
    apply list_elem_of_In, in_map_iff in Ha. destruct Ha as (x & <- & Hx).
    apply in_map_iff in Hx. destruct Hx as (i & <- & Hi). apply Hfunction.
    apply in_seq in Hi.
    pose proof (share_nonneg n p r Hn Hp).
    pose proof (first_row_nonneg n p r Hn Hp).
    pose proof (block_within n p r Hn Hp). lia. }
  exists stacked. rewrite Hstack. split; [reflexivity |].
  pose proof (share_nonneg n p r Hn Hp) as Hc.
  unfold answer_of. repeat split; try apply Hblock.
  - rewrite Hlead. unfold xs.
    rewrite !length_map, length_seq. lia.
  - rewrite Hdata, map_map. reflexivity.
  - intros Hpos. apply Htail. unfold xs.
    destruct (Z.to_nat (share n p r)) eqn:Hk; [lia | discriminate].
Qed.

Lemma mpi_apply_answers (function : ndarray -> ndarray) (array : ndarray)
    (n : Z) (dims out : list Z) (p : Z) :
  shape array = n :: dims ->
  dims <> [] ->
  well_shaped array ->
  (0 < p)%Z ->
  out <> [] ->
  (forall i, (Z.of_nat i < n)%Z ->
             shape (function (subarray array i)) = out
             /\ Z.of_nat (length (data (function (subarray array i))))
                = fold_right Z.mul 1%Z out) ->
  exists answers,
    on_ranks (local_answer function array p) (ranks p) = Returns answers
    /\ Forall2 (answer_of function array n out p) (ranks p) answers.
Proof.
  intros Hshape Hdims Hwell Hp Hout Hfunction.
  apply on_ranks_exists. intros r Hr. apply in_seq in Hr.
  apply (local_answer_value function array n dims out p r); try assumption.
  lia.
Qed.

Lemma share_first_pos (n p : Z) :
  (0 < n)%Z -> (0 < p)%Z -> (0 < share n p 0)%Z.
Proof.
  intros Hn Hp. unfold share.
  pose proof (Z.div_mod n p). pose proof (Z.mod_pos_bound n p Hp).
  pose proof (Z.div_pos n p).
  destruct (Z.ltb_spec (Z.of_nat 0) (n mod p)); nia.
Qed.

Lemma Forall2_right {A B} (P : A -> B -> Prop) (Q : B -> Prop)
    (l : list A) (bs : list B) :
  Forall2 P l bs -> (forall a b, P a b -> Q b) -> Forall Q bs.
Proof.
  intros Hall Himp. induction Hall as [| a b l bs HP _ IH]; constructor.
  - exact (Himp a b HP).
  - exact IH.
Qed.

(** X3: [mpi_apply] computes the function row by row.  For an array of
    [n >= 1] rows and a function that returns arrays of one shape with at
    least one axis, rank 0 obtains the results for the rows of the array,
    in the order of the rows, stacked along a new leading axis of extent
    [n], for every size of the communicator; every other rank obtains
    [None]. *)
Theorem mpi_apply_rows (function : ndarray -> ndarray) (array : ndarray)
    (n : Z) (dims out : list Z) (p : Z) :
  shape array = n :: dims ->
  dims <> [] ->
  well_shaped array ->
  (0 < n)%Z ->
  (0 < p)%Z ->
  out <> [] ->
  (forall i, (Z.of_nat i < n)%Z ->
             shape (function (subarray array i)) = out
             /\ Z.of_nat (length (data (function (subarray array i))))
                = fold_right Z.mul 1%Z out) ->
  mpi_apply function array p 0
  = Returns (Some {| shape := n :: out;
                     data := concat (map (fun x => data (function x))
                                         (map (subarray array)
                                              (seq 0 (Z.to_nat n)))) |})
  /\ (forall r, 0 < r -> (Z.of_nat r < p)%Z ->
        mpi_apply function array p r = Returns None).
Proof.
  intros Hshape Hdims Hwell Hn Hp Hout Hfunction.
  destruct (mpi_apply_answers function array n dims out p
              Hshape Hdims Hwell Hp Hout Hfunction)
    as (answers & Hanswers & Hall).
  assert (Hblocks : Forall (block_of out) answers).
  { apply (Forall2_right _ _ _ _ Hall). intros r a Ha. apply Ha. }
  assert (Hrank : forall r, (Z.of_nat r < p)%Z ->
            mpi_apply function array p r = mpi_gather_array answers r).
  { intros r Hr. unfold mpi_apply.
    destruct (local_answer_value function array n dims out p r
                Hshape Hdims Hwell Hp Hout Hfunction Hr) as (a & -> & _).
    cbn [obind]. now rewrite Hanswers. }
  split.
  - rewrite Hrank by lia.
    destruct (ranks_first p Hp) as [rest Hranks].
    rewrite Hranks in Hall.
    destruct answers as [| root answers']; [inversion Hall |].
    pose proof (Forall2_cons_1 _ _ _ _ _ Hall) as [Hroot _].
    rewrite <- Hranks in Hall.
    destruct Hroot as (_ & _ & _ & Htail).
    rewrite (mpi_gather_array_value (root :: answers') root out eq_refl
               (Htail (share_first_pos n p Hn Hp)) Hout Hblocks).
    assert (Hrows : sum_list (map lead (root :: answers')) = n).
    { rewrite (Forall2_map_eq _ (fun r => share n p r) lead _ _ Hall)
        by (intros r a Ha; apply Ha).
      unfold ranks. rewrite sum_shares. now apply first_row_all. }
    assert (Hdata : concat (map data (root :: answers'))
                    = concat (map (fun x => data (function x))
                                  (map (subarray array) (seq 0 (Z.to_nat n))))).
    { rewrite (Forall2_map_eq _
                 (fun r => concat (map (fun x => data (function x))
                                       (map (subarray array)
                                            (seq (Z.to_nat (first_row n p r))
                                                 (Z.to_nat (share n p r))))))
                 data _ _ Hall)
        by (intros r a Ha; apply Ha).
      rewrite (concat_map_concat (fun x => data (function x))
                 (fun r => map (subarray array)
                             (seq (Z.to_nat (first_row n p r))
                                  (Z.to_nat (share n p r))))).
      rewrite <- (map_map (fun r => seq (Z.to_nat (first_row n p r))
                                      (Z.to_nat (share n p r)))
                         (map (subarray array))).
      rewrite <- concat_map. unfold ranks.
      rewrite concat_seq_blocks by lia.
      now rewrite first_row_all. }
    now rewrite Hrows, Hdata.
  - intros r Hpos Hr. rewrite Hrank by exact Hr.
    apply (mpi_gather_array_other _ out); [exact Hblocks |].
    rewrite <- (Forall2_length _ _ _ Hall). unfold ranks.
    rewrite length_seq. lia.
Qed.

Lemma mpi_apply_rows_witness :
  mpi_apply twice
    {| shape := [5; 2]%Z; data := [1; 2; 3; 4; 5; 6; 7; 8; 9; 10]%Q |} 3 0
  = Returns
      (Some {| shape := 5%Z :: [2]%Z;
               data := concat
                         (map (fun x => data (twice x))
                              (map (subarray
                                      {| shape := [5; 2]%Z;
                                         data := [1; 2; 3; 4; 5; 6; 7; 8; 9; 10]%Q |})
                                   (seq 0 (Z.to_nat 5)))) |})
  /\ (forall r, 0 < r -> (Z.of_nat r < 3)%Z ->
        mpi_apply twice
          {| shape := [5; 2]%Z; data := [1; 2; 3; 4; 5; 6; 7; 8; 9; 10]%Q |}
          3 r
        = Returns None).
Proof.
  apply (mpi_apply_rows twice
           {| shape := [5; 2]%Z; data := [1; 2; 3; 4; 5; 6; 7; 8; 9; 10]%Q |}
           5%Z [2]%Z [2]%Z 3%Z).
  - reflexivity.
  - discriminate.
  - split; [repeat constructor; discriminate | reflexivity].
  - reflexivity.
  - reflexivity.
  - discriminate.
  - intros i Hi.
    assert (Hcases : i = 0 \/ i = 1 \/ i = 2 \/ i = 3 \/ i = 4) by lia.
    destruct Hcases as [-> | [-> | [-> | [-> | ->]]]]; split; reflexivity.
Defined.

(** *** Arrays and functions the code cannot handle *)

(** C6: the claim fails on an array with one axis.  Whatever the length of
    the array and the size of the communicator, no rank receives a block:
    rank 0 ends in the [TypeError] of the in-place multiplication of the
    integer counts by [numpy.prod(())], which is the double 1.0, and every
    other rank waits in [Scatterv] for the root. *)
Theorem mpi_scatter_array_one_axis (array : ndarray) (n : Z) (p : Z) :
  shape array = [n] ->
  (0 < p)%Z ->
  mpi_scatter_array array p 0 = Raises cast_error
  /\ (forall r, 0 < r -> (Z.of_nat r < p)%Z ->
        mpi_scatter_array array p r = Waits).
Proof.
  intros Hshape Hp.
  assert (Hroot : forall r, scattered array p r = Raise cast_error).
  { intros r. unfold scattered, len. rewrite Hshape.
    cbn [bind tl]. rewrite row_layout_eq by exact Hp. reflexivity. }
  split.
  - unfold mpi_scatter_array. now rewrite Hroot.
  - intros r Hr _. unfold mpi_scatter_array. rewrite Hroot.
    destruct (Nat.eqb_spec r 0); [lia | reflexivity].
Qed.

Lemma mpi_scatter_array_one_axis_witness :
  mpi_scatter_array {| shape := [4]%Z; data := [1; 2; 3; 4]%Q |} 2 0
  = Raises cast_error
  /\ (forall r, 0 < r -> (Z.of_nat r < 2)%Z ->
        mpi_scatter_array {| shape := [4]%Z; data := [1; 2; 3; 4]%Q |} 2 r
        = Waits).
Proof.
  apply (mpi_scatter_array_one_axis
           {| shape := [4]%Z; data := [1; 2; 3; 4]%Q |} 4%Z 2%Z).
  - reflexivity.
  - reflexivity.
Defined.

Lemma share_of_none (p : Z) (r : nat) : (0 < p)%Z -> share 0 p r = 0%Z.
Proof.
  intros Hp. unfold share. rewrite Z.div_0_l, Z.mod_0_l by lia.
  destruct (Z.ltb_spec (Z.of_nat r) 0); lia.
Qed.

(** X5: [mpi_apply] needs a row.  On an array with no rows every rank
    builds the empty one-dimensional array, and rank 0 ends in the
    [TypeError] of the in-place multiplication in [mpi_gather_array],
    whatever the function and the size of the communicator. *)
Theorem mpi_apply_no_rows (function : ndarray -> ndarray) (array : ndarray)
    (dims : list Z) (p : Z) :
  shape array = 0%Z :: dims ->
  dims <> [] ->
  (0 < p)%Z ->
  mpi_apply function array p 0 = Raises cast_error.
Proof.
  intros Hshape Hdims Hp.
  assert (Hlocal : forall r, (Z.of_nat r < p)%Z ->
            local_answer function array p r
            = Returns {| shape := [0%Z]; data := [] |}).
  { intros r Hr. unfold local_answer.
    rewrite (mpi_scatter_array_value array 0 dims p r Hshape Hdims Hp) by lia.
    cbn [obind]. unfold iterate, len. cbn [shape bind].
    rewrite share_of_none by exact Hp. reflexivity. }
  unfold mpi_apply. rewrite Hlocal by lia. cbn [obind].
  rewrite (on_ranks_value _ (fun _ => {| shape := [0%Z]; data := [] |}))
    by (apply Forall_forall; intros r Hr;
        apply list_elem_of_In, in_seq in Hr; apply Hlocal; lia).
  unfold mpi_gather_array.
  destruct (ranks_first p Hp) as [rest ->]. cbn [map lookup list_lookup].
  rewrite (for_each_value len (fun _ => 0%Z))
    by (apply Forall_forall; intros a Ha;
        apply list_elem_of_In in Ha; cbn [In] in Ha;
        destruct Ha as [<- | Ha];
        [reflexivity | apply in_map_iff in Ha; destruct Ha as (r & <- & _);
                       reflexivity]).
  reflexivity.
Qed.

Lemma mpi_apply_no_rows_witness :
  mpi_apply twice {| shape := [0; 3]%Z; data := [] |} 4 0 = Raises cast_error.
Proof.
  apply (mpi_apply_no_rows twice {| shape := [0; 3]%Z; data := [] |}
           [3]%Z 4%Z).
  - reflexivity.
  - discriminate.
  - reflexivity.
Defined.

End DistributedFacts.

(** ** More about [trim_samples] *)

Module TrimFacts.
Import Py Samples Evaluation SamplesFacts.

Section Trim.
Context {state : Type} {G : RandomState state}.

(** The rows a mask selects are rows of the array, in their order. *)
Lemma mask_index_sublist {T} (samples : list T) (choices : list bool)
    (kept : list T) :
  mask_index samples choices = Ok kept -> sublist kept samples.
Proof.
  unfold mask_index. destruct (length samples =? length choices); [| discriminate].
  intros H. inversion H. subst kept. clear H.
  revert choices. induction samples as [| s samples IH]; intros choices;
    destruct choices as [| c choices]; cbn; try apply sublist_nil_l.
  destruct c; cbn.
  - apply sublist_skip. apply IH.
  - apply sublist_cons. apply IH.
Qed.

(** What a call returns, for inputs of one length. *)
Lemma trim_samples_value {T} (samples : list T) (weights : list Q)
    (ntrim : Z) (st : state) :
  length samples = length weights ->
  exists us,
    fst (rand (length weights) (seed 1)) = Ok us
    /\ length us = length weights
    /\ trim_samples samples weights ntrim st
       = (Ok (map fst (List.filter snd (zip samples (less us weights)))), st).
Proof.
  intros Hlen.
  unfold trim_samples, rbind, get_state, random_seed, set_state, rlift.
  destruct (rand_returns (length weights) (seed 1)) as (us & st1 & Hrand & Hus).
  rewrite Hrand. exists us. split; [reflexivity |]. split; [exact Hus |].
  unfold mask_index.
  now rewrite length_less, Hus, Nat.min_id, Hlen, Nat.eqb_refl.
Qed.

(** X6: [trim_samples] only removes rows.  For samples and weights of one
    length the call returns a sub-list of the samples: rows of the input,
    in the order of the input, none of them changed, doubled or new. *)
Theorem trim_samples_sublist {T} (samples : list T) (weights : list Q)
    (ntrim : Z) (st : state) :
  length samples = length weights ->
  exists new_samples,
    fst (trim_samples samples weights ntrim st) = Ok new_samples
    /\ sublist new_samples samples
    /\ length new_samples <= length samples.
Proof.
  intros Hlen.
  destruct (trim_samples_value samples weights ntrim st Hlen)
    as (us & _ & Hus & Hvalue).
  rewrite Hvalue. cbn [fst]. eexists. split; [reflexivity |].
  assert (Hsub : sublist (map fst (List.filter snd (zip samples (less us weights))))
                   samples).
  { apply (mask_index_sublist samples (less us weights)).
    unfold mask_index.
    now rewrite length_less, Hus, Nat.min_id, Hlen, Nat.eqb_refl. }
  split; [exact Hsub |]. apply sublist_length. exact Hsub.
Qed.

(** X7: the rows [trim_samples] keeps do not depend on the state the global
    generator is in, nor on [ntrim]: the generator is seeded with 1 before
    the uniforms are drawn, so two calls with the same samples and weights
    keep the same rows. *)
Theorem trim_samples_reproducible {T} (samples : list T) (weights : list Q)
    (ntrim ntrim' : Z) (st st' : state) :
  fst (trim_samples samples weights ntrim st)
  = fst (trim_samples samples weights ntrim' st').
Proof.
  now rewrite (trim_samples_result samples weights ntrim st),
              (trim_samples_result samples weights ntrim' st').
Qed.

Lemma rand_unit_interval (n : nat) (st : state) (us : list Q) :
  unit_interval G ->
  fst (rand n st) = Ok us ->
  Forall (fun u => 0 <= u < 1)%Q us.
Proof.
  intros Hunit. revert st us. induction n as [| n IH]; intros st us; cbn [rand].
  - intros H. inversion H. constructor.
  - pose proof (Hunit st) as Hu.
    destruct (random_sample st) as [u st1]. cbn [fst] in Hu.
    specialize (IH st1).
    destruct (rand n st1) as [[us' | e] st2]; cbn [fst] in *; [| discriminate].
    intros H. inversion H. constructor; [exact Hu | now apply IH].
Qed.

Lemma keep_all {T} (samples : list T) (us weights : list Q) :
  length samples = length weights ->
  length us = length weights ->
  Forall (fun u => u < 1)%Q us ->
  Forall (fun w => 1 <= w)%Q weights ->
  map fst (List.filter snd (zip samples (less us weights))) = samples.
Proof.
  intros Hs Hu Hus Hws. revert samples us Hs Hu Hus.
  induction Hws as [| w weights Hw _ IH]; intros samples us Hs Hu Hus.
  - destruct samples; [reflexivity | discriminate].
  - destruct samples as [| s samples]; [discriminate |].
    destruct us as [| u us]; [discriminate |].
    cbn. pose proof (Forall_inv Hus) as Hu1. cbn beta in Hu1.
    destruct (Qlt_le_dec u w) as [_ | Hle].
    + cbn. f_equal. apply IH.
      * now injection Hs.
      * now injection Hu.
      * exact (Forall_inv_tail Hus).
    + exfalso. apply (Qlt_irrefl u).
      eapply Qlt_le_trans; [exact Hu1 |]. eapply Qle_trans; eassumption.
Qed.

Lemma keep_none {T} (samples : list T) (us weights : list Q) :
  Forall (fun u => 0 <= u)%Q us ->
  Forall (fun w => w <= 0)%Q weights ->
  map fst (List.filter snd (zip samples (less us weights))) = [].
Proof.
  intros Hus Hws. revert samples us Hus.
  induction Hws as [| w weights Hw _ IH]; intros samples us Hus.
  - destruct samples, us; reflexivity.
  - destruct samples as [| s samples]; [reflexivity |].
    destruct us as [| u us]; [reflexivity |].
    cbn. pose proof (Forall_inv Hus) as Hu1. cbn beta in Hu1.
    destruct (Qlt_le_dec u w) as [Hlt | _].
    + exfalso. apply (Qlt_irrefl u).
      eapply Qlt_le_trans; [exact Hlt |]. eapply Qle_trans; eassumption.
    + cbn. apply IH. exact (Forall_inv_tail Hus).
Qed.

(** X8: weights of 1 or more keep every sample, weights of 0 or less keep
    none.  With a generator whose doubles lie in the half-open unit
    interval, [trim_samples] returns the samples unchanged when every
    weight is at least 1, and the empty array when no weight is
    positive. *)
Theorem trim_samples_extremes {T} (samples : list T) (weights : list Q)
    (ntrim : Z) (st : state) :
  unit_interval G ->
  length samples = length weights ->
  (Forall (fun w => 1 <= w)%Q weights ->
     trim_samples samples weights ntrim st = (Ok samples, st))
  /\ (Forall (fun w => w <= 0)%Q weights ->
        trim_samples samples weights ntrim st = (Ok [], st)).
Proof.
  intros Hunit Hlen.
  destruct (trim_samples_value samples weights ntrim st Hlen)
    as (us & Hrand & Hus & Hvalue).
  pose proof (rand_unit_interval _ _ _ Hunit Hrand) as Hrange.
  rewrite Hvalue. split; intros Hweights; f_equal; f_equal.
  - apply keep_all; try assumption.
    eapply List.Forall_impl; [| exact Hrange]. intros u Hu. apply Hu.
  - apply keep_none; try assumption.
    eapply List.Forall_impl; [| exact Hrange]. intros u Hu. apply Hu.
Qed.

End Trim.

Lemma lcg_unit_interval : unit_interval lcg.
Proof.
  intros st. cbn [random_sample lcg fst]. unfold lcg_next.
  pose proof (Z.mod_pos_bound (1103515245 * st + 12345) 2147483648 eq_refl)
    as Hbound.
  unfold Qle, Qlt. cbn [Qnum Qden]. lia.
Qed.

Lemma trim_samples_sublist_witness :
  exists new_samples,
    fst (trim_samples [[1; 2]; [3; 4]; [5; 6]]%Z [1; 0; 1 # 2]%Q (-1) 2024%Z)
    = Ok new_samples
    /\ sublist new_samples [[1; 2]; [3; 4]; [5; 6]]%Z
    /\ length new_samples <= length [[1; 2]; [3; 4]; [5; 6]]%Z.
Proof.
  apply (trim_samples_sublist [[1; 2]; [3; 4]; [5; 6]]%Z
           [1; 0; 1 # 2]%Q (-1) 2024%Z).
  reflexivity.
Defined.

Lemma trim_samples_extremes_witness :
  (Forall (fun w => 1 <= w)%Q [1; 1; 3 # 2]%Q ->
     trim_samples [[1; 2]; [3; 4]; [5; 6]]%Z [1; 1; 3 # 2]%Q (-1) 2024%Z
     = (Ok [[1; 2]; [3; 4]; [5; 6]]%Z, 2024%Z))
  /\ (Forall (fun w => w <= 0)%Q [1; 1; 3 # 2]%Q ->
        trim_samples [[1; 2]; [3; 4]; [5; 6]]%Z [1; 1; 3 # 2]%Q (-1) 2024%Z
        = (Ok [], 2024%Z)).
Proof.
  apply (trim_samples_extremes [[1; 2]; [3; 4]; [5; 6]]%Z
           [1; 1; 3 # 2]%Q (-1) 2024%Z).
  - exact lcg_unit_interval.
  - reflexivity.
Defined.

End TrimFacts.

(** ** More about the function evaluation stage *)

Module EvaluationFacts.
Import Py Samples Evaluation SamplesFacts.

(** *** Transposing and joining *)

Lemma zip_with_app_single (r : list Q) (t : list (list Q)) :
  zip_with (@app Q) (map (fun v => [v]) r) t = zip_with cons r t.
Proof.
  revert t. induction r as [| v r IH]; intros [| u t]; cbn; try reflexivity.
  now rewrite IH.
Qed.

Lemma zip_with_app_cons (r : list Q) (t u : list (list Q)) :
  zip_with (@app Q) (zip_with cons r t) u
  = zip_with cons r (zip_with (@app Q) t u).
Proof.
  revert t u. induction r as [| v r IH]; intros [| a t] [| b u]; cbn;
    try reflexivity.
  now rewrite IH.
Qed.

(** Transposing rows put one after the other joins the transposes side by
    side. *)
Lemma transpose_app (a b : list (list Q)) :
  a <> [] -> b <> [] ->
  transpose (a ++ b) = zip_with (@app Q) (transpose a) (transpose b).
Proof.
  intros Ha Hb. induction a as [| r a IH]; [congruence |].
  destruct a as [| r' a].
  - destruct b as [| r' b]; [congruence |].
    cbn [app]. change (transpose (r :: r' :: b))
      with (zip_with cons r (transpose (r' :: b))).
    change (transpose [r]) with (map (fun v => [v]) r).
    now rewrite zip_with_app_single.
  - change (transpose ((r :: r' :: a) ++ b))
      with (zip_with cons r (transpose ((r' :: a) ++ b))).
    change (transpose (r :: r' :: a))
      with (zip_with cons r (transpose (r' :: a))).
    rewrite IH by discriminate. now rewrite zip_with_app_cons.
Qed.

Lemma length_transpose (rows : list (list Q)) (k : nat) :
  rows <> [] ->
  Forall (fun r => length r = k) rows ->
  length (transpose rows) = k.
Proof.
  intros Hsome Hall. induction Hall as [| r rows Hr Hrows IH]; [congruence |].
  destruct rows as [| r' rows].
  - cbn. now rewrite length_map.
  - change (transpose (r :: r' :: rows))
      with (zip_with cons r (transpose (r' :: rows))).
    rewrite length_zip_with. rewrite IH by discriminate. lia.
Qed.

Lemma Forall_zip_with_cons (r : list Q) (t : list (list Q)) (k : nat) :
  Forall (fun row => length row = k) t ->
  Forall (fun row => length row = S k) (zip_with cons r t).
Proof.
  intros Ht. revert r. induction Ht as [| row t Hrow _ IH]; intros [| v r];
    cbn [zip_with]; constructor.
  - cbn [length]. now rewrite Hrow.
  - apply IH.
Qed.

(** Every row of the transpose has one entry for each of the rows. *)
Lemma transpose_row_lengths (rows : list (list Q)) :
  Forall (fun row => length row = length rows) (transpose rows).
Proof.
  induction rows as [| r rows IH]; [constructor |].
  destruct rows as [| r' rows].
  - cbn. apply Forall_forall. intros row Hrow.
    apply list_elem_of_In, in_map_iff in Hrow. now destruct Hrow as (v & <- & _).
  - change (transpose (r :: r' :: rows))
      with (zip_with cons r (transpose (r' :: rows))).
    change (length (r :: r' :: rows)) with (S (length (r' :: rows))).
    apply Forall_zip_with_cons. exact IH.
Qed.

(** *** What the loop computes *)

Lemma parallel_apply_theta (fi : list arg -> list Q) (x : grid)
    (s : list (list Q)) (parallel : Z) :
  parallel_apply fi (map Theta s) [Grid x] [] parallel
  = map (fun theta => fi [Grid x; Theta theta]) s.
Proof. unfold parallel_apply. now rewrite map_map. Qed.

Lemma concatenate_blocks (x : grid) (parallel : Z)
    (models : list ((list arg -> list Q) * list (list Q))) :
  let evals :=
    flat_map (fun '(fi, s) => map (fun theta => fi [Grid x; Theta theta]) s)
             models in
  let blocks :=
    flat_map (fun '(fi, s) =>
                if 0 <? length s
                then [transpose (parallel_apply fi (map Theta s) [Grid x] []
                                   parallel)]
                else [])
             models in
  Forall (fun e => length e = length x) evals ->
  (evals = [] -> blocks = [])
  /\ (evals <> [] -> concatenate blocks = Ok (transpose evals)).
Proof.
  cbn zeta. induction models as [| [fi s] models IH]; cbn [flat_map].
  - intros _. split; [reflexivity | congruence].
  - rewrite parallel_apply_theta. intros Hall.
    apply Forall_app in Hall. destruct Hall as [Hhere Hrest].
    specialize (IH Hrest).
    remember (flat_map
                (fun '(fi0, s0) =>
                   map (fun theta0 => fi0 [Grid x; Theta theta0]) s0)
                models) as rest eqn:Hrest_eq.
    remember (flat_map
                (fun '(fi0, s0) =>
                   if 0 <? length s0
                   then [transpose (parallel_apply fi0 (map Theta s0)
                                      [Grid x] [] parallel)]
                   else [])
                models) as blocks eqn:Hblocks_eq.
    clear Hrest_eq Hblocks_eq. destruct IH as [IHnone IHsome].
    destruct s as [| theta s]; cbn [length Nat.ltb Nat.leb map].
    + cbn [app]. split; assumption.
    + cbn [map] in Hhere.
      remember (fi [Grid x; Theta theta]
                :: map (fun theta0 => fi [Grid x; Theta theta0]) s)
        as here eqn:Hhere_eq.
      assert (Hsome : here <> []) by (subst here; discriminate).
      clear Hhere_eq.
      split; [destruct here; [congruence | discriminate] |]. intros _.
      destruct rest as [| e rest'].
      * rewrite (IHnone eq_refl). cbn [app concatenate].
        now rewrite app_nil_r.
      * specialize (IHsome ltac:(discriminate)).
        destruct blocks as [| b blocks']; [discriminate IHsome |].
        change ([transpose here] ++ b :: blocks')
          with (transpose here :: b :: blocks').
        change (concatenate (transpose here :: b :: blocks'))
          with (bind (concatenate (b :: blocks'))
                     (fun rest0 =>
                        if length (transpose here) =? length rest0
                        then Ok (zip_with (@app Q) (transpose here) rest0)
                        else Raise (ValueError "all the input array dimensions except for the concatenation axis must match exactly"))).
        rewrite IHsome. cbn [bind].
        rewrite (length_transpose here (length x) Hsome Hhere).
        rewrite (length_transpose (e :: rest') (length x))
          by (try discriminate; exact Hrest).
        rewrite Nat.eqb_refl.
        now rewrite transpose_app by (try discriminate; exact Hsome).
Qed.

(** After a cache error the call prints the diagnostic and goes on as the
    call without a cache does. *)
Lemma compute_samples_falls_through (f : list (list arg -> list Q))
    (x : grid) (samples : sample_sets) (parallel : Z) (name : string)
    (disk : gmap string cache_entry) (msg : string) :
  check (Cache (name ++ "_fsamples")) disk x samples = Raise (CacheError msg) ->
  fst (compute_samples f x samples parallel (Some name) disk)
  = ([msg], snd (fst (compute_samples f x samples parallel None disk))).
Proof.
  intros Hcheck. unfold compute_samples. cbn [option_map].
  rewrite Hcheck.
  destruct (concatenate (evaluate f x samples parallel)); reflexivity.
Qed.

(** C7: when a cache identifier is supplied and the check fails with a
    cache error, [compute_samples] does not pass the error on.  It prints
    the diagnostic, evaluates the functions again, and for evaluations of
    one value for each point of the grid, of which there is at least one,
    it saves the matrix of these evaluations under the cache's path and
    returns it; the next check of the cache finds that matrix. *)
Theorem compute_samples_cache_error (f : list (list arg -> list Q))
    (x : grid) (samples : sample_sets) (parallel : Z) (name : string)
    (disk : gmap string cache_entry) (msg : string) :
  check (Cache (name ++ "_fsamples")) disk x samples = Raise (CacheError msg) ->
  Forall (fun e => length e = length x) (evaluations f x samples) ->
  evaluations f x samples <> [] ->
  compute_samples f x samples parallel (Some name) disk
  = (([msg], Ok (transpose (evaluations f x samples))),
     save (Cache (name ++ "_fsamples")) disk x samples
       (transpose (evaluations f x samples)))
  /\ check (Cache (name ++ "_fsamples"))
        (save (Cache (name ++ "_fsamples")) disk x samples
           (transpose (evaluations f x samples)))
        x samples
     = Ok (transpose (evaluations f x samples)).
Proof.
  intros Hcheck Hall Hsome.
  destruct (concatenate_blocks x parallel (zip f samples) Hall) as [_ Hjoin].
  split.
  - unfold compute_samples, evaluate. cbn [option_map]. rewrite Hcheck.
    fold (evaluations f x samples) in Hjoin. now rewrite (Hjoin Hsome).
  - apply check_save.
Qed.

Lemma compute_samples_cache_error_witness :
  compute_samples [line] [0; 1]%Q [[[1; 2]; [3; 4]]]%Q 1 (Some "run"%string) ∅
  = ((["run_fsamples: no cache entry"%string], Ok [[2; 4]; [3; 7]]%Q),
     save "run_fsamples" ∅ [0; 1]%Q [[[1; 2]; [3; 4]]]%Q [[2; 4]; [3; 7]]%Q)
  /\ check "run_fsamples"
        (save "run_fsamples" ∅ [0; 1]%Q [[[1; 2]; [3; 4]]]%Q
           [[2; 4]; [3; 7]]%Q)
        [0; 1]%Q [[[1; 2]; [3; 4]]]%Q
     = Ok [[2; 4]; [3; 7]]%Q.
Proof.
  apply (compute_samples_cache_error [line] [0; 1]%Q [[[1; 2]; [3; 4]]]%Q 1
           "run"%string ∅ "run_fsamples: no cache entry"%string).
  - reflexivity.
  - repeat constructor.
  - discriminate.
Defined.

(** X9: without a cache, [compute_samples] returns the transpose of the
    list of all evaluations.  When every [fi(x, theta)] has one value for
    each point of the grid and there is at least one sample, column [j] of
    the matrix is the evaluation for the [j]-th sample, counted through the
    models in order, so the matrix has [len(x)] rows and one column for
    each sample; nothing is printed and the disk is not touched. *)
Theorem compute_samples_evaluations (f : list (list arg -> list Q))
    (x : grid) (samples : sample_sets) (parallel : Z)
    (disk : gmap string cache_entry) :
  Forall (fun e => length e = length x) (evaluations f x samples) ->
  evaluations f x samples <> [] ->
  compute_samples f x samples parallel None disk
  = (([], Ok (transpose (evaluations f x samples))), disk)
  /\ length (transpose (evaluations f x samples)) = length x
  /\ Forall (fun row => length row = length (evaluations f x samples))
            (transpose (evaluations f x samples)).
Proof.
  intros Hall Hsome.
  destruct (concatenate_blocks x parallel (zip f samples) Hall) as [_ Hjoin].
  split; [| split].
  - unfold compute_samples, evaluate. cbn [option_map].
    fold (evaluations f x samples) in Hjoin. now rewrite (Hjoin Hsome).
  - now apply length_transpose.
  - apply transpose_row_lengths.
Qed.

Lemma compute_samples_evaluations_witness :
  compute_samples [line; line] [0; 1; 2]%Q [[[1; 2]; [3; 4]]; [[0; 5]]]%Q 1
    None ∅
  = (([], Ok (transpose (evaluations [line; line] [0; 1; 2]%Q
                           [[[1; 2]; [3; 4]]; [[0; 5]]]%Q))), ∅)
  /\ length (transpose (evaluations [line; line] [0; 1; 2]%Q
                          [[[1; 2]; [3; 4]]; [[0; 5]]]%Q))
     = length [0; 1; 2]%Q
  /\ Forall (fun row => length row
                        = length (evaluations [line; line] [0; 1; 2]%Q
                                    [[[1; 2]; [3; 4]]; [[0; 5]]]%Q))
            (transpose (evaluations [line; line] [0; 1; 2]%Q
                          [[[1; 2]; [3; 4]]; [[0; 5]]]%Q)).
Proof.
  apply (compute_samples_evaluations [line; line] [0; 1; 2]%Q
           [[[1; 2]; [3; 4]]; [[0; 5]]]%Q 1 ∅).
  - repeat constructor.
  - discriminate.
Defined.

(** X10: [compute_samples] needs a sample.  When every model's sample set
    is empty (as after a trim that accepted nothing) and no cache is
    supplied, the loop appends nothing and the call ends in the
    [ValueError] of [numpy.concatenate], for every list of functions. *)
Theorem compute_samples_no_samples (f : list (list arg -> list Q))
    (x : grid) (samples : sample_sets) (parallel : Z)
    (disk : gmap string cache_entry) :
  Forall (fun s => s = []) samples ->
  compute_samples f x samples parallel None disk
  = (([], Raise nothing_to_concatenate), disk).
Proof.
  intros Hempty. unfold compute_samples, evaluate. cbn [option_map].
  replace (flat_map _ (zip f samples)) with (@nil matrix);
    [reflexivity |].
  symmetry. revert f. induction Hempty as [| s samples -> _ IH]; intros f.
  - destruct f; reflexivity.
  - destruct f as [| fi f]; [reflexivity |]. cbn. apply IH.
Qed.

Lemma compute_samples_no_samples_witness :
  compute_samples [line; line] [0; 1]%Q [[]; []] 1 None ∅
  = (([], Raise nothing_to_concatenate), ∅).
Proof.
  apply (compute_samples_no_samples [line; line] [0; 1]%Q [[]; []] 1 ∅).
  repeat constructor.
Defined.

(** X11: the functions are not part of the cache key.  Once a call with a
    cache identifier has returned a matrix, a later call on the disk it
    left, with the same grid, the same samples and the same identifier,
    returns that matrix for any functions and any parallel mode, prints
    nothing, evaluates nothing and leaves the disk as it is. *)
Theorem compute_samples_cache_ignores_functions
    (f f' : list (list arg -> list Q)) (x : grid) (samples : sample_sets)
    (parallel parallel' : Z) (name : string)
    (disk disk' : gmap string cache_entry) (out : list string)
    (fsamples : matrix) :
  compute_samples f x samples parallel (Some name) disk
  = ((out, Ok fsamples), disk') ->
  compute_samples f' x samples parallel' (Some name) disk'
  = (([], Ok fsamples), disk').
Proof.
  unfold compute_samples. cbn [option_map].
  destruct (check (Cache (name ++ "_fsamples")) disk x samples)
    as [stored | e] eqn:Hcheck.
  - intros H. inversion H. subst. now rewrite Hcheck.
  - destruct e; try discriminate.
    destruct (concatenate (evaluate f x samples parallel)) as [m | e];
      [| discriminate].
    intros H. inversion H. subst. now rewrite check_save.
Qed.

Lemma compute_samples_cache_ignores_functions_witness :
  compute_samples [fun _ => []] [0; 1]%Q [[[1; 2]; [3; 4]]]%Q 7
    (Some "run"%string)
    (save "run_fsamples" ∅ [0; 1]%Q [[[1; 2]; [3; 4]]]%Q [[2; 4]; [3; 7]]%Q)
  = (([], Ok [[2; 4]; [3; 7]]%Q),
     save "run_fsamples" ∅ [0; 1]%Q [[[1; 2]; [3; 4]]]%Q [[2; 4]; [3; 7]]%Q).
Proof.
  apply (compute_samples_cache_ignores_functions [line] [fun _ => []]
           [0; 1]%Q [[[1; 2]; [3; 4]]]%Q 1 7 "run"%string ∅
           (save "run_fsamples" ∅ [0; 1]%Q [[[1; 2]; [3; 4]]]%Q
              [[2; 4]; [3; 7]]%Q)
           ["run_fsamples: no cache entry"%string] [[2; 4]; [3; 7]]%Q).
  vm_compute. reflexivity.
Defined.

End EvaluationFacts.

(** ** More about the weights of [compute_samples] *)

Module WeightFacts.
Import Py Orchestration OrchestrationFacts.
Local Open Scope R_scope.

(** What the section computes on proper weights, with the facts about the
    intermediate arrays that the statements below rest on. *)
Lemma compute_samples_weights_value (logZs : list R)
    (weights : list (list R)) (ntrim : option Z) :
  length logZs = length weights ->
  weights <> [] ->
  proper_weights weights ->
  let unit := divide_by_largest (scale_by_evidence logZs weights) in
  compute_samples_weights logZs weights ntrim = Ok (scale_to_ntrim ntrim unit)
  /\ Forall (fun w => Forall (fun wi => 0 <= wi <= 1) w) unit
  /\ In 1 (concat unit).
Proof.
  intros Hlen Hsome Hproper.
  pose proof (scale_by_evidence_proper logZs weights Hproper) as Hscaled.
  pose proof (length_scale_by_evidence logZs weights Hlen) as Hlength.
  set (scaled := scale_by_evidence logZs weights) in *.
  assert (Hscaled_some : scaled <> []).
  { intros Hnil. rewrite Hnil in Hlength.
    destruct weights; [congruence | discriminate]. }
  assert (Hmodels : Forall (fun w => w <> []) scaled).
  { eapply List.Forall_impl; [| exact Hscaled].
    intros w (_ & wi & Hin & _) ->. contradiction. }
  assert (Hwmax : 0 < largest (concat scaled)).
  { destruct scaled as [| w scaled']; [congruence |].
    destruct (Forall_inv Hscaled) as (_ & wi & Hin & Hwi).
    eapply Rlt_le_trans; [exact Hwi |]. apply largest_ge.
    cbn [concat]. apply in_or_app. left. exact Hin. }
  assert (Hconcat : concat scaled <> []).
  { destruct scaled as [| w scaled']; [congruence |]. cbn [concat].
    destruct (Forall_inv Hscaled) as (_ & wi & Hin & _).
    destruct w; [contradiction | discriminate]. }
  cbv zeta. split; [| split].
  - unfold compute_samples_weights.
    rewrite amax_largest
      by (intros ->; destruct weights; [congruence | discriminate]).
    cbn [bind]. rewrite zip_map_evidence.
    change (map _ (zip weights logZs)) with scaled.
    rewrite (traverse_amax scaled Hmodels). cbn [bind].
    rewrite py_max_largest
      by (destruct scaled; [congruence | discriminate]).
    cbn [bind]. rewrite (largest_of_largest scaled Hscaled_some Hmodels).
    f_equal. rewrite total_concat.
    change (map (fun w => map (fun wi => wi / largest (concat scaled)) w) scaled)
      with (divide_by_largest scaled).
    unfold scale_to_ntrim. destruct ntrim as [n |]; [| reflexivity].
    destruct (Rlt_dec (IZR n) (total (concat (divide_by_largest scaled))));
      [| reflexivity].
    apply map_ext. intros w. apply map_ext. intros wi.
    unfold Rdiv. apply Rmult_assoc.
  - unfold divide_by_largest. apply Forall_forall. intros u Hu.
    apply list_elem_of_In, in_map_iff in Hu. destruct Hu as (w & <- & Hw).
    apply Forall_forall. intros v Hv.
    apply list_elem_of_In, in_map_iff in Hv. destruct Hv as (wi & <- & Hwi).
    assert (Hpos : 0 <= wi).
    { rewrite Forall_forall in Hscaled.
      destruct (Hscaled w (proj2 (list_elem_of_In _ _) Hw)) as [Hnonneg _].
      rewrite Forall_forall in Hnonneg. apply Hnonneg, list_elem_of_In, Hwi. }
    assert (Hle : wi <= largest (concat scaled)).
    { apply largest_ge, in_concat. exists w. split; assumption. }
    split.
    + apply Rmult_le_pos; [exact Hpos |].
      left. apply Rinv_0_lt_compat. exact Hwmax.
    + apply (Rmult_le_reg_r (largest (concat scaled))); [exact Hwmax |].
      unfold Rdiv. rewrite Rmult_assoc, Rinv_l by lra. lra.
  - unfold divide_by_largest. rewrite concat_map_each.
    replace 1 with (largest (concat scaled) / largest (concat scaled))
      by (apply Rdiv_diag; lra).
    apply (in_map (fun v => v / largest (concat scaled))).
    apply largest_In. exact Hconcat.
Qed.

(** *** Sums and maxima of simple arrays *)

Lemma total_scaled (l : list R) (c : R) :
  total (map (fun v => v * c) l) = total l * c.
Proof.
  unfold total. induction l as [| v l IH]; cbn [map fold_right].
  - lra.
  - rewrite IH. lra.
Qed.

Lemma total_nonneg (l : list R) :
  Forall (fun v => 0 <= v) l -> 0 <= total l.
Proof.
  unfold total. induction 1 as [| v l Hv _ IH]; cbn [fold_right]; lra.
Qed.

Lemma total_ge_member (l : list R) (v : R) :
  Forall (fun v => 0 <= v) l -> In v l -> v <= total l.
Proof.
  induction 1 as [| u l Hu Hl IH]; intros Hin; [contradiction |].
  pose proof (total_nonneg l Hl) as Hrest. unfold total in *.
  cbn [fold_right]. destruct Hin as [-> | Hin].
  - lra.
  - specialize (IH Hin). lra.
Qed.

Lemma total_repeat (c : R) (n : nat) : total (repeat c n) = INR n * c.
Proof.
  unfold total. induction n as [| n IH].
  - cbn. lra.
  - rewrite S_INR. cbn [repeat fold_right]. rewrite IH. lra.
Qed.

Lemma amax_repeat (v : R) (n : nat) :
  (0 < n)%nat -> amax (repeat v n) = Ok v.
Proof.
  destruct n as [| n]; [lia |]. intros _. cbn [repeat amax]. f_equal.
  induction n as [| n IH]; cbn [repeat fold_left].
  - reflexivity.
  - rewrite Rmax_left by lra. exact IH.
Qed.

Lemma concat_nonneg (weights : list (list R)) :
  Forall (fun w => Forall (fun wi => 0 <= wi <= 1) w) weights ->
  Forall (fun v => 0 <= v) (concat weights).
Proof.
  induction 1 as [| w weights Hw _ IH]; cbn [concat].
  - constructor.
  - apply Forall_app. split; [| exact IH].
    eapply List.Forall_impl; [| exact Hw]. cbn. intros v Hv. lra.
Qed.

(** The weights after the division by the largest one sum to 1 or more. *)
Lemma unit_total (weights : list (list R)) :
  Forall (fun w => Forall (fun wi => 0 <= wi <= 1) w) weights ->
  In 1 (concat weights) ->
  1 <= total (concat weights).
Proof.
  intros Hrange Hone. apply total_ge_member; [| exact Hone].
  apply concat_nonneg. exact Hrange.
Qed.

Lemma scale_each (c : R) (weights : list (list R)) (P : R -> Prop) :
  Forall (fun w => Forall (fun wi => 0 <= wi <= 1) w) weights ->
  (forall wi, 0 <= wi <= 1 -> P (wi * c)) ->
  Forall (fun w => Forall P w)
         (map (fun w => map (fun wi => wi * c) w) weights).
Proof.
  intros Hrange Hstep. apply Forall_map.
  eapply List.Forall_impl; [| exact Hrange]. cbn. intros w Hw.
  apply Forall_map. eapply List.Forall_impl; [| exact Hw]. exact Hstep.
Qed.

(** X12: on proper weights, and with [ntrim] absent or not negative, the
    weights handed to [trim_samples] are acceptance probabilities: each of
    them lies between 0 and 1. *)
Theorem compute_samples_weights_probabilities (logZs : list R)
    (weights : list (list R)) (ntrim : option Z) :
  length logZs = length weights ->
  weights <> [] ->
  proper_weights weights ->
  (forall n, ntrim = Some n -> (0 <= n)%Z) ->
  exists final,
    compute_samples_weights logZs weights ntrim = Ok final
    /\ Forall (fun w => Forall (fun wi => 0 <= wi <= 1) w) final.
Proof.
  intros Hlen Hsome Hproper Hntrim.
  destruct (compute_samples_weights_value logZs weights ntrim Hlen Hsome Hproper)
    as (Hvalue & Hrange & Hone).
  eexists. split; [exact Hvalue |].
  pose proof (unit_total _ Hrange Hone) as Htotal.
  unfold scale_to_ntrim. destruct ntrim as [n |]; [| exact Hrange].
  destruct (Rlt_dec _ _) as [Hless |]; [| exact Hrange].
  apply scale_each; [exact Hrange |]. intros wi Hwi.
  assert (Hn : 0 <= IZR n) by (apply IZR_le, Hntrim; reflexivity).
  set (ntot := total _) in *.
  assert (Hfactor : 0 <= IZR n / ntot < 1).
  { split.
    - apply Rmult_le_pos; [exact Hn |]. left. apply Rinv_0_lt_compat. lra.
    - apply (Rmult_lt_reg_r ntot); [lra |].
      unfold Rdiv. rewrite Rmult_assoc, Rinv_l by lra. lra. }
  split; [apply Rmult_le_pos; lra |].
  replace 1 with (1 * 1) by lra.
  apply Rmult_le_compat; lra.
Qed.

Lemma compute_samples_weights_probabilities_witness :
  exists final,
    compute_samples_weights [0; -1] [[1; 3]; [2; 2]] (Some 1%Z) = Ok final
    /\ Forall (fun w => Forall (fun wi => 0 <= wi <= 1) w) final.
Proof.
  apply (compute_samples_weights_probabilities
           [0; -1] [[1; 3]; [2; 2]] (Some 1%Z)).
  - reflexivity.
  - discriminate.
  - unfold proper_weights, total.
    repeat constructor; cbn [fold_right]; lra.
  - intros n Hn. inversion Hn. lia.
Defined.

(** X13: the weights sum to the number of samples [trim_samples] keeps on
    average.  Without [ntrim] that sum is 1 or more (the largest weight is
    1); with [ntrim] it is the smaller of [ntrim] and the sum without. *)
Theorem compute_samples_weights_expected_count (logZs : list R)
    (weights : list (list R)) (n : Z) :
  length logZs = length weights ->
  weights <> [] ->
  proper_weights weights ->
  exists untrimmed final,
    compute_samples_weights logZs weights None = Ok untrimmed
    /\ compute_samples_weights logZs weights (Some n) = Ok final
    /\ 1 <= total (concat untrimmed)
    /\ total (concat final) = Rmin (IZR n) (total (concat untrimmed)).
Proof.
  intros Hlen Hsome Hproper.
  destruct (compute_samples_weights_value logZs weights None Hlen Hsome Hproper)
    as (Hnone & Hrange & Hone).
  destruct (compute_samples_weights_value logZs weights (Some n)
              Hlen Hsome Hproper) as (Hvalue & _ & _).
  do 2 eexists. split; [exact Hnone |]. split; [exact Hvalue |].
  pose proof (unit_total _ Hrange Hone) as Htotal.
  unfold scale_to_ntrim at 1 2. split; [exact Htotal |].
  unfold scale_to_ntrim. set (ntot := total _) in *.
  destruct (Rlt_dec (IZR n) ntot) as [Hless | Hmore].
  - rewrite concat_map_each, total_scaled. fold ntot.
    rewrite Rmin_left by lra. field. lra.
  - fold ntot. rewrite Rmin_right by lra. reflexivity.
Qed.

Lemma compute_samples_weights_expected_count_witness :
  exists untrimmed final,
    compute_samples_weights [0; -1] [[1; 3]; [2; 2]] None = Ok untrimmed
    /\ compute_samples_weights [0; -1] [[1; 3]; [2; 2]] (Some 1%Z) = Ok final
    /\ 1 <= total (concat untrimmed)
    /\ total (concat final) = Rmin (IZR 1) (total (concat untrimmed)).
Proof.
  apply (compute_samples_weights_expected_count [0; -1] [[1; 3]; [2; 2]] 1).
  - reflexivity.
  - discriminate.
  - unfold proper_weights, total.
    repeat constructor; cbn [fold_right]; lra.
Defined.

(** X14: an [ntrim] of zero or less is not refused: it is below the sum of
    the weights, so every weight is multiplied by a factor that is not
    positive, and no weight handed to [trim_samples] is above 0. *)
Theorem compute_samples_weights_ntrim_not_positive (logZs : list R)
    (weights : list (list R)) (n : Z) :
  length logZs = length weights ->
  weights <> [] ->
  proper_weights weights ->
  (n <= 0)%Z ->
  exists final,
    compute_samples_weights logZs weights (Some n) = Ok final
    /\ Forall (fun w => Forall (fun wi => wi <= 0) w) final.
Proof.
  intros Hlen Hsome Hproper Hn.
  destruct (compute_samples_weights_value logZs weights (Some n)
              Hlen Hsome Hproper) as (Hvalue & Hrange & Hone).
  eexists. split; [exact Hvalue |].
  pose proof (unit_total _ Hrange Hone) as Htotal.
  assert (Hneg : IZR n <= 0) by (apply (IZR_le n 0), Hn).
  unfold scale_to_ntrim. set (ntot := total _) in *.
  destruct (Rlt_dec (IZR n) ntot) as [_ | Hmore]; [| lra].
  apply scale_each; [exact Hrange |]. intros wi Hwi.
  assert (Hfactor : IZR n / ntot <= 0).
  { apply (Rmult_le_reg_r ntot); [lra |].
    unfold Rdiv. rewrite Rmult_assoc, Rinv_l by lra. lra. }
  replace 0 with (wi * 0) by lra.
  apply Rmult_le_compat_l; lra.
Qed.

Lemma compute_samples_weights_ntrim_not_positive_witness :
  exists final,
    compute_samples_weights [0; -1] [[1; 3]; [2; 2]] (Some (-1)%Z) = Ok final
    /\ Forall (fun w => Forall (fun wi => wi <= 0) w) final.
Proof.
  apply (compute_samples_weights_ntrim_not_positive
           [0; -1] [[1; 3]; [2; 2]] (-1)).
  - reflexivity.
  - discriminate.
  - unfold proper_weights, total.
    repeat constructor; cbn [fold_right]; lra.
  - lia.
Defined.

(** *** The evidences *)

Lemma fold_left_Rmax_shift (l : list R) (v c : R) :
  fold_left Rmax (map (fun u => u + c) l) (v + c) = fold_left Rmax l v + c.
Proof.
  revert v. induction l as [| u l IH]; intros v; cbn [map fold_left].
  - reflexivity.
  - rewrite <- IH. f_equal.
    destruct (Rle_lt_dec v u) as [Hle | Hlt].
    + rewrite !Rmax_right by lra. reflexivity.
    + rewrite !Rmax_left by lra. reflexivity.
Qed.

(** X15: only the differences of the log-evidences matter.  Adding one
    constant to every [logZ] changes nothing in what the section returns or
    raises, for all weights and every [ntrim]. *)
Theorem compute_samples_weights_evidence_offset (logZs : list R)
    (weights : list (list R)) (ntrim : option Z) (c : R) :
  compute_samples_weights (map (fun logZ => logZ + c) logZs) weights ntrim
  = compute_samples_weights logZs weights ntrim.
Proof.
  unfold compute_samples_weights.
  destruct logZs as [| v logZs]; [reflexivity |].
  cbn [map amax bind]. rewrite fold_left_Rmax_shift.
  set (top := fold_left Rmax logZs v).
  replace (exp (v + c - (top + c))) with (exp (v - top)) by (f_equal; lra).
  rewrite map_map.
  rewrite (map_ext (fun x => exp (x + c - (top + c)))
                   (fun logZ => exp (logZ - top)))
    by (intros x; f_equal; lra).
  reflexivity.
Qed.

(** One model with uniform weights: every weight becomes 1, unless [ntrim]
    is below the number [n] of samples, and then every weight is
    [ntrim / n]. *)
Lemma uniform_weights (logZ c : R) (n : nat) (ntrim : option Z) :
  0 < c -> (0 < n)%nat ->
  compute_samples_weights [logZ] [repeat c n] ntrim
  = Ok [repeat match ntrim with
               | Some k => if Rlt_dec (IZR k) (INR n) then IZR k / INR n else 1
               | None => 1
               end n].
Proof.
  intros Hc Hn.
  assert (Hcount : 0 < INR n) by (apply lt_0_INR; lia).
  unfold compute_samples_weights. cbn [amax fold_left bind map zip zip_with].
  rewrite total_repeat, map_repeat. cbn [traverse].
  rewrite (amax_repeat _ n Hn). cbn [bind py_max fold_left].
  rewrite map_repeat.
  replace (c / (INR n * c) * exp (logZ - logZ) / (c / (INR n * c) * exp (logZ - logZ)))
    with 1.
  2: { pose proof (exp_pos (logZ - logZ)). field. repeat split; lra. }
  cbn [map].
  replace (total [total (repeat 1 n)]) with (INR n)
    by (unfold total at 1; cbn [fold_right]; rewrite total_repeat; lra).
  f_equal. destruct ntrim as [k |]; [| reflexivity].
  destruct (Rlt_dec (IZR k) (INR n)); [| reflexivity].
  rewrite map_repeat. do 2 f_equal. lra.
Qed.

(** *** A model without samples *)

Lemma traverse_amax_empty (weights : list (list R)) :
  In [] weights ->
  traverse amax weights
  = Raise (ValueError "zero-size array to reduction operation maximum which has no identity").
Proof.
  induction weights as [| w weights IH]; intros Hin; [contradiction |].
  cbn [traverse]. destruct w as [| v w]; [reflexivity |].
  destruct Hin as [Hw | Hin]; [discriminate |].
  cbn [amax bind]. rewrite (IH Hin). reflexivity.
Qed.

Lemma scaled_empty (weights : list (list R)) (Zs : list R) :
  length Zs = length weights ->
  In [] weights ->
  In [] (map (fun '(w, Z) => map (fun wi => wi / total w * Z) w)
             (zip weights Zs)).
Proof.
  revert Zs. induction weights as [| w weights IH]; intros Zs Hlen Hin;
    [contradiction |].
  destruct Zs as [| Z Zs]; [discriminate |].
  cbn [zip zip_with map]. destruct Hin as [-> | Hin].
  - left. reflexivity.
  - right. apply IH; [| exact Hin]. cbn [length] in Hlen. lia.
Qed.

(** X16: a model with no samples at all is not skipped: its weights have
    no maximum, and the section ends in the [ValueError] of [w.max()] on a
    zero-size array, whatever the other models hold. *)
Theorem compute_samples_weights_empty_model (logZs : list R)
    (weights : list (list R)) (ntrim : option Z) :
  length logZs = length weights ->
  In [] weights ->
  compute_samples_weights logZs weights ntrim
  = Raise (ValueError "zero-size array to reduction operation maximum which has no identity").
Proof.
  intros Hlen Hin. unfold compute_samples_weights.
  destruct logZs as [| v logZs].
  { destruct weights; [contradiction | discriminate]. }
  cbn [amax bind].
  rewrite traverse_amax_empty; [reflexivity |].
  apply scaled_empty; [| exact Hin]. now rewrite length_map.
Qed.

Lemma compute_samples_weights_empty_model_witness :
  compute_samples_weights [0; -1] [[1; 3]; []] None
  = Raise (ValueError "zero-size array to reduction operation maximum which has no identity").
Proof.
  apply (compute_samples_weights_empty_model [0; -1] [[1; 3]; []] None).
  - reflexivity.
  - right. left. reflexivity.
Defined.

End WeightFacts.

(** ** More about [openmp_apply] *)

Module ConfigurationFacts.
Import Py ParallelEngine ParallelEngineFacts.

Lemma truth_true (s : string) : truth s = true -> s <> ""%string.
Proof. destruct s; [discriminate | congruence]. Qed.

Lemma Parallel_returns {V W} (n : Z) (finish : list nat)
    (tasks : list ((list V -> W) * list V)) :
  (exists r, Parallel n finish tasks = Ok r) <-> n <> 0%Z.
Proof.
  unfold Parallel. destruct (Z.eqb_spec n 0) as [-> | Hn]; split.
  - intros [r Hr]. discriminate.
  - congruence.
  - intros _. exact Hn.
  - intros _. eexists. reflexivity.
Qed.

(** X17: for a hint [OMP_NUM_THREADS] that, if set, is plain ASCII text of
    at most 4300 characters, [openmp_apply] returns exactly when the worker
    count is settled on a number that is not zero: by [nprocs], or,
    without it, by a hint that is set, is not empty and spells an integer.
    In every other such configuration the call raises, for every function
    and every array, the empty one included. *)
Theorem openmp_apply_returns_iff {V W} (environ : gmap string string)
    (finish : list nat) (f : list V -> W) (array : list V)
    (nprocs : option Z) (precurry postcurry : list V) :
  (forall hint, environ !! OMP_NUM_THREADS = Some hint ->
                plain_hint hint = true) ->
  (exists results,
     snd (openmp_apply environ finish f array nprocs precurry postcurry)
     = Ok results)
  <-> exists n, worker_count environ nprocs n /\ n <> 0%Z.
Proof.
  intros _.
  unfold openmp_apply, environ_getitem, worker_count.
  destruct nprocs as [m |]; cbn.
  - rewrite Parallel_returns. split.
    + intros Hm. exists m. split; [reflexivity | exact Hm].
    + intros (n & -> & Hn). exact Hn.
  - destruct (environ !! OMP_NUM_THREADS) as [hint |]; cbn.
    2: { split; [intros [r Hr]; discriminate |].
         intros (n & (hint & Hhint & _) & _). discriminate. }
    destruct (truth hint) eqn:Htruth; cbn.
    2: { split; [intros [r Hr]; discriminate |].
         intros (n & (hint' & Hhint & Hnonempty & _) & _).
         inversion Hhint. subst hint'. destruct hint; [congruence | discriminate]. }
    destruct (int_of_str hint) as [m | e] eqn:Hint; cbn.
    2: { split; [intros [r Hr]; discriminate |].
         intros (n & (hint' & Hhint & _ & Hspell) & _).
         inversion Hhint. subst hint'. congruence. }
    rewrite Parallel_returns. split.
    + intros Hm. exists m. split; [| exact Hm].
      exists hint. split; [reflexivity |].
      split; [apply truth_true, Htruth | exact Hint].
    + intros (n & (hint' & Hhint & _ & Hspell) & Hn).
      inversion Hhint. subst hint'. congruence.
Qed.

Lemma openmp_apply_returns_iff_witness :
  (exists results,
     snd (openmp_apply (<[OMP_NUM_THREADS := "four"%string]> ∅) [1; 0]
            (fun args : list Z => fold_right Z.add 0%Z args) [1; 2]%Z None
            [10]%Z [])
     = Ok results)
  <-> exists n,
        worker_count (<[OMP_NUM_THREADS := "four"%string]> ∅) None n
        /\ n <> 0%Z.
Proof.
  apply (openmp_apply_returns_iff (<[OMP_NUM_THREADS := "four"%string]> ∅)
           [1; 0] (fun args : list Z => fold_right Z.add 0%Z args)
           [1; 2]%Z None [10]%Z []).
  intros hint Hhint. rewrite lookup_insert_eq in Hhint.
  inversion Hhint. reflexivity.
Defined.

End ConfigurationFacts.

(** ** More about the probability mass transform *)

Module CalibrationFacts.
Import Py Mass Calibration MassFacts.

(** The logarithm of a rank over the number of values is at least that of
    the smallest rank. *)
Lemma log_rank_lower (r : Q) (n : nat) :
  (1 <= r)%Q -> (r <= inject_Z (Z.of_nat n))%Q ->
  (ln (/ INR n) <= ln (Q2R (r / inject_Z (Z.of_nat n))))%R.
Proof.
  intros Hlow Hhigh.
  assert (Hn : (1 <= inject_Z (Z.of_nat n))%Q) by Lqa.lra.
  assert (Hcount : (1 <= INR n)%R).
  { apply Qle_Rle in Hn. rewrite RMicromega.Q2R_1 in Hn.
    unfold Q2R in Hn. cbn in Hn. rewrite INR_IZR_INZ. lra. }
  assert (Hvalue : (Q2R (r / inject_Z (Z.of_nat n)) = Q2R r * / INR n)%R).
  { unfold Qdiv. rewrite Q2R_mult, Q2R_inv by Lqa.lra.
    f_equal. f_equal. unfold Q2R. cbn. rewrite INR_IZR_INZ. lra. }
  rewrite Hvalue.
  assert (Hinv : (0 < / INR n)%R) by (apply Rinv_0_lt_compat; lra).
  apply Qle_Rle in Hlow. rewrite RMicromega.Q2R_1 in Hlow.
  destruct Hlow as [Hlt | Heq].
  - left. apply ln_increasing; [exact Hinv |]. 
    rewrite <- (Rmult_1_l (/ INR n)) at 1.
    apply Rmult_lt_compat_r; assumption.
  - right. rewrite <- Heq. now rewrite Rmult_1_l.
Qed.

(** Between two knots whose values are at least [c] the linear piece is
    at least [c]. *)
Lemma linear_piece_lower (x_lo x_hi t y_lo y_hi c : R) :
  (x_lo <= t <= x_hi)%R -> (c <= y_lo)%R -> (c <= y_hi)%R ->
  (c <= (y_hi - y_lo) / (x_hi - x_lo) * (t - x_lo) + y_lo)%R.
Proof.
  intros [Hlo Hhi] Hylo Hyhi.
  destruct (Req_dec x_hi x_lo) as [Heq | Hne].
  - assert (Ht : t = x_lo) by lra. subst t. lra.
  - assert (Hwidth : (0 < x_hi - x_lo)%R) by lra.
    set (s := ((t - x_lo) / (x_hi - x_lo))%R).
    assert (Hs0 : (0 <= s)%R).
    { unfold s. apply Rmult_le_pos; [lra |].
      left. apply Rinv_0_lt_compat. exact Hwidth. }
    assert (Hs1 : (s <= 1)%R).
    { unfold s. apply (Rmult_le_reg_r (x_hi - x_lo)); [exact Hwidth |].
      unfold Rdiv. rewrite Rmult_assoc, Rinv_l by lra. lra. }
    replace ((y_hi - y_lo) / (x_hi - x_lo) * (t - x_lo) + y_lo)%R
      with (y_lo * (1 - s) + y_hi * s)%R by (unfold s; field; lra).
    nra.
Qed.

Lemma call_linear_lower (f : interp1d) (t : Q) (c : R) :
  Sorted Qle (x f) ->
  2 <= length (x f) ->
  length (y f) = length (x f) ->
  Forall (fun v => c <= v)%R (y f) ->
  (hd 0 (x f) <= t)%Q ->
  (t <= List.last (x f) 0)%Q ->
  (c <= call_linear f t)%R.
Proof.
  intros Hsorted Hlen Hy Hbound Hlow Hhigh. unfold call_linear.
  destruct (bracket (x f) t Hsorted Hlen Hlow Hhigh) as (Hhi & Hleft & Hright).
  set (hi := clip 1 (length (x f) - 1) (searchsorted (x f) t)) in *.
  rewrite Forall_forall in Hbound.
  apply linear_piece_lower.
  - split; apply Qle_Rle; assumption.
  - apply Hbound, list_elem_of_In, nth_In. lia.
  - apply Hbound, list_elem_of_In, nth_In. lia.
Qed.


(** *** At the calibration values *)

Lemma strictly_increasing_tail (v : Q) (ts : list Q) :
  strictly_increasing (v :: ts) = true -> strictly_increasing ts = true.
Proof.
  destruct ts as [| u ts]; [reflexivity |].
  cbn [strictly_increasing]. intros H. apply andb_true_iff in H. apply H.
Qed.

Lemma strictly_increasing_nth (ts : list Q) (i j : nat) :
  strictly_increasing ts = true ->
  i < j < length ts ->
  (nth i ts 0%Q < nth j ts 0%Q)%Q.
Proof.
  revert i j. induction ts as [| v ts IH]; intros i j Hstrict [Hij Hj];
    cbn [length] in Hj; [lia |].
  pose proof (strictly_increasing_tail v ts Hstrict) as Htail.
  destruct j as [| j]; [lia |].
  destruct i as [| i]; cbn [nth].
  - assert (Hfirst : (v < nth 0 ts 0%Q)%Q).
    { destruct ts as [| u ts]; cbn [length] in Hj; [lia |].
      cbn [strictly_increasing] in Hstrict.
      destruct (Qlt_le_dec v u) as [Hlt |]; [exact Hlt | discriminate]. }
    destruct j as [| j]; [exact Hfirst |].
    eapply Qlt_trans; [exact Hfirst |]. apply IH; [exact Htail | lia].
  - apply IH; [exact Htail | lia].
Qed.

Lemma strictly_increasing_sorted (ts : list Q) :
  strictly_increasing ts = true -> Sorted Qle ts.
Proof.
  induction ts as [| v ts IH]; intros Hstrict; constructor.
  - apply IH. exact (strictly_increasing_tail v ts Hstrict).
  - destruct ts as [| u ts]; constructor.
    cbn [strictly_increasing] in Hstrict.
    destruct (Qlt_le_dec v u) as [Hlt |]; [| discriminate].
    apply Qlt_le_weak, Hlt.
Qed.

(** [searchsorted] finds a value of a strictly increasing array where it
    is. *)
Lemma searchsorted_knot (ts : list Q) (i : nat) :
  strictly_increasing ts = true ->
  i < length ts ->
  searchsorted ts (nth i ts 0%Q) = i.
Proof.
  intros Hstrict Hi.
  pose proof (searchsorted_length ts (nth i ts 0%Q)) as Hk.
  destruct (Nat.lt_trichotomy (searchsorted ts (nth i ts 0%Q)) i)
    as [Hless | [Heq | Hmore]]; [| exact Heq |]; exfalso.
  - pose proof (searchsorted_at ts (nth i ts 0%Q)) as Hat.
    pose proof (strictly_increasing_nth ts _ i Hstrict (conj Hless Hi)) as Hlt.
    apply (Qlt_irrefl (nth i ts 0%Q)).
    eapply Qle_lt_trans; [apply Hat; lia | exact Hlt].
  - apply (Qlt_irrefl (nth i ts 0%Q)).
    apply (searchsorted_below ts (nth i ts 0%Q) i Hmore).
Qed.

(** The interpolant passes through its knots. *)
Lemma call_linear_knot (f : interp1d) (i : nat) :
  strictly_increasing (x f) = true ->
  2 <= length (x f) ->
  i < length (x f) ->
  call_linear f (nth i (x f) 0%Q) = nth i (y f) 0%R.
Proof.
  intros Hstrict Hlen Hi. unfold call_linear.
  rewrite (searchsorted_knot _ _ Hstrict Hi). unfold clip.
  destruct i as [| i].
  - replace (Nat.min (Nat.max 0 1) (length (x f) - 1)) with 1 by lia.
    cbn [Nat.sub]. lra.
  - replace (Nat.min (Nat.max (S i) 1) (length (x f) - 1)) with (S i) by lia.
    replace (S i - 1) with i by lia.
    pose proof (strictly_increasing_nth (x f) i (S i) Hstrict
                  (conj (Nat.lt_succ_diag_r i) Hi)) as Hlt.
    apply Qlt_Rlt in Hlt. field. lra.
Qed.

Lemma hd_as_nth (ts : list Q) : hd 0%Q ts = nth 0 ts 0%Q.
Proof. destruct ts; reflexivity. Qed.

Lemma nth_le_sorted (ts : list Q) (i j : nat) :
  strictly_increasing ts = true ->
  i <= j < length ts ->
  (nth i ts 0%Q <= nth j ts 0%Q)%Q.
Proof.
  intros Hstrict [Hij Hj]. destruct (Nat.eq_dec i j) as [-> | Hne].
  - apply Qle_refl.
  - apply Qlt_le_weak, strictly_increasing_nth; [exact Hstrict | lia].
Qed.

Section WithScipy.
Variable density : list Q -> Q -> Q.
Variable choice : nat -> nat.
Variable noise : nat -> Q.

(** X18: inside the range of the calibration values the mass is never
    0: from the smallest to the largest of the [N] values, both included,
    it is at least [1 / N], the mass of the lowest rank. *)
Theorem PMF_call_inside (samples : loc) (h : heap) (column kernel : list Q) :
  h !! samples = Some column ->
  gaussian_kde column = Ok kernel ->
  exists pmf h',
    PMF_init density choice noise samples h = (Ok pmf, h')
    /\ forall t : Q,
         (hd 0 (calibration_values pmf) <= t)%Q ->
         (t <= List.last (calibration_values pmf) 0)%Q ->
         (/ INR (length (calibration_values pmf)) <= PMF_call pmf t)%R.
Proof.
  intros Hcolumn Hfit.
  destruct (PMF_init_returns density choice noise samples h column kernel
              Hcolumn Hfit)
    as (pmf & h' & Hinit & Hvalues & Hy & Hfill & _).
  exists pmf, h'. split; [exact Hinit |]. intros t Hlow Hhigh.
  assert (Hmany : 1000 <= length (calibration_values pmf)).
  { rewrite Hvalues, length_sort.
    destruct (Nat.ltb_spec (length column) 1000);
      [rewrite length_resample |]; lia. }
  unfold PMF_call, interp1d_call. fold (calibration_values pmf).
  destruct (Qlt_le_dec t (hd 0%Q (calibration_values pmf))) as [Hbelow | _];
    [exfalso; exact (Qlt_not_le _ _ Hbelow Hlow) |].
  destruct (Qlt_le_dec (List.last (calibration_values pmf) 0%Q) t)
    as [Habove | _]; [exfalso; exact (Qlt_not_le _ _ Habove Hhigh) |].
  cbn [orb exp_ereal].
  set (N := length (calibration_values pmf)) in *.
  assert (Hcount : (0 < / INR N)%R).
  { apply Rinv_0_lt_compat, lt_0_INR. lia. }
  rewrite <- (exp_ln (/ INR N)) at 1 by exact Hcount.
  assert (Hlog : (ln (/ INR N) <= call_linear (_logpmf pmf) t)%R).
  { apply call_linear_lower; fold (calibration_values pmf); try assumption.
    - rewrite Hvalues. apply sort_ascending.
    - fold N. lia.
    - rewrite Hy. unfold evaluate.
      now rewrite length_map, length_rankdata, length_map.
    - rewrite Hy. apply Forall_forall. intros v Hv.
      apply list_elem_of_In, in_map_iff in Hv. destruct Hv as (r & <- & Hr).
      pose proof (rankdata_bounds
                    (evaluate density kernel (calibration_values pmf)))
        as Hranks.
      rewrite Forall_forall in Hranks.
      destruct (Hranks r (proj2 (list_elem_of_In _ _) Hr)) as [Hone Hn].
      unfold evaluate in Hn. rewrite length_map in Hn.
      apply log_rank_lower; assumption. }
  destruct Hlog as [Hlt | Heq].
  - left. apply exp_increasing. exact Hlt.
  - right. now rewrite Heq.
Qed.

(** X19: when no calibration value occurs twice, the mass at a
    calibration value is its rank over the number of values: the rank,
    among the densities of all calibration values, of the density the
    kernel has there, ties sharing their average rank. *)
Theorem PMF_call_at_calibration_value (samples : loc) (h : heap)
    (column kernel : list Q) :
  h !! samples = Some column ->
  gaussian_kde column = Ok kernel ->
  strictly_increasing (QSort.sort (calibration_input choice noise column))
  = true ->
  exists pmf h',
    PMF_init density choice noise samples h = (Ok pmf, h')
    /\ forall i, i < length (calibration_values pmf) ->
         PMF_call pmf (nth i (calibration_values pmf) 0%Q)
         = Q2R (nth i (rankdata (evaluate density kernel
                                   (calibration_values pmf))) 0%Q
                / inject_Z (Z.of_nat (length (calibration_values pmf)))).
Proof.
  intros Hcolumn Hfit Hstrict.
  destruct (PMF_init_returns density choice noise samples h column kernel
              Hcolumn Hfit)
    as (pmf & h' & Hinit & Hvalues & Hy & Hfill & _).
  exists pmf, h'. split; [exact Hinit |]. intros i Hi.
  assert (Hknots : strictly_increasing (calibration_values pmf) = true).
  { rewrite Hvalues. rewrite (gaussian_kde_dataset _ _ Hfit).
    exact Hstrict. }
  assert (Hmany : 1000 <= length (calibration_values pmf)).
  { rewrite Hvalues, length_sort.
    destruct (Nat.ltb_spec (length column) 1000);
      [rewrite length_resample |]; lia. }
  set (ts := calibration_values pmf) in *.
  unfold PMF_call, interp1d_call. fold (calibration_values pmf). fold ts.
  destruct (Qlt_le_dec (nth i ts 0%Q) (hd 0%Q ts)) as [Hbelow | _].
  { exfalso. rewrite hd_as_nth in Hbelow.
    apply (Qlt_not_le _ _ Hbelow). apply nth_le_sorted; [exact Hknots | lia]. }
  destruct (Qlt_le_dec (List.last ts 0%Q) (nth i ts 0%Q)) as [Habove | _].
  { exfalso. rewrite last_as_nth in Habove.
    apply (Qlt_not_le _ _ Habove). apply nth_le_sorted; [exact Hknots | lia]. }
  cbn [orb exp_ereal].
  rewrite call_linear_knot; fold (calibration_values pmf); fold ts;
    [| exact Hknots | lia | exact Hi].
  rewrite Hy. fold ts.
  set (ranks := rankdata (evaluate density kernel ts)).
  assert (Hranks : length ranks = length ts).
  { unfold ranks, evaluate. now rewrite length_rankdata, length_map. }
  rewrite (nth_indep _ 0%R
             (ln (Q2R (0 / inject_Z (Z.of_nat (length ts))))))
    by (rewrite length_map; lia).
  rewrite (map_nth (fun r => ln (Q2R (r / inject_Z (Z.of_nat (length ts)))))).
  apply exp_ln.
  pose proof (rankdata_bounds (evaluate density kernel ts)) as Hbounds.
  rewrite Forall_forall in Hbounds.
  destruct (Hbounds (nth i ranks 0%Q)) as [Hone _].
  { apply list_elem_of_In, nth_In. fold ranks. lia. }
  assert (Hn : (1 <= inject_Z (Z.of_nat (length ts)))%Q)
    by (rewrite <- (Zle_Qle 1); lia).
  rewrite <- RMicromega.Q2R_0. apply Qlt_Rlt.
  apply Qlt_shift_div_l; Lqa.lra.
Qed.

End WithScipy.

Lemma PMF_call_inside_witness :
  exists pmf h',
    PMF_init flat_density alternating rising 0 [two_values] = (Ok pmf, h')
    /\ forall t : Q,
         (hd 0 (calibration_values pmf) <= t)%Q ->
         (t <= List.last (calibration_values pmf) 0)%Q ->
         (/ INR (length (calibration_values pmf)) <= PMF_call pmf t)%R.
Proof.
  apply (PMF_call_inside flat_density alternating rising
           0 [two_values] two_values two_values).
  - reflexivity.
  - reflexivity.
Defined.

Lemma PMF_call_at_calibration_value_witness :
  exists pmf h',
    PMF_init flat_density alternating rising 0 [descending] = (Ok pmf, h')
    /\ forall i, i < length (calibration_values pmf) ->
         PMF_call pmf (nth i (calibration_values pmf) 0%Q)
         = Q2R (nth i (rankdata (evaluate flat_density descending
                                   (calibration_values pmf))) 0%Q
                / inject_Z (Z.of_nat (length (calibration_values pmf)))).
Proof.
  apply (PMF_call_at_calibration_value flat_density alternating rising
           0 [descending] descending descending).
  - reflexivity.
  - vm_compute. reflexivity.
  - vm_compute. reflexivity.
Defined.

End CalibrationFacts.

(** ** The arguments of [compute_samples] *)

Module ArgumentFacts.
Import Py ParallelEngine Orchestration Arguments OrchestrationFacts WeightFacts.

Lemma traverse_Forall2 {A B} (f : A -> result B) (l : list A) (bs : list B) :
  traverse f l = Ok bs -> Forall2 (fun a b => f a = Ok b) l bs.
Proof.
  revert bs. induction l as [| a l IH]; intros bs; cbn [traverse].
  - intros H. inversion H. constructor.
  - destruct (f a) as [b | e] eqn:Hb; cbn [bind]; [| discriminate].
    destruct (traverse f l) as [bs' | e]; cbn [bind]; [| discriminate].
    intros H. inversion H. subst bs. constructor; [exact Hb |].
    apply IH. reflexivity.
Qed.

Lemma wrap_counts {F} (args : models F) (logZs : list R) (f : list F)
    (samples : list ndarray) (weights : list (option (list R))) :
  wrap args = Ok (logZs, f, samples, weights) ->
  length f = length logZs /\ length samples = length logZs
  /\ length weights = length logZs.
Proof.
  unfold wrap. destruct args as [f0 s0 w0 | logZs0 f0 samples0 weights0].
  - intros H. inversion H. repeat split.
  - destruct (Nat.eqb_spec (length logZs0) (length f0)) as [Hf |];
      cbn [negb]; [| discriminate].
    destruct (Nat.eqb_spec (length logZs0) (length samples0)) as [Hs |];
      cbn [negb]; [| discriminate].
    destruct weights0 as [ws |]; [| discriminate].
    destruct (Nat.eqb_spec (length logZs0) (length ws)) as [Hw |];
      cbn [negb]; [| discriminate].
    intros H. inversion H. subst. repeat split; congruence.
Qed.

(** X20: when the argument checking of [compute_samples] lets a call
    through, the computation starts from consistent data: as many
    functions, sample arrays and weight arrays as evidences, every sample
    array two-dimensional, [x] one-dimensional, and for every model as
    many weights as samples. *)
Theorem compute_samples_arguments_consistent {F} (args : models F)
    (x : ndarray) (logZs : list R) (f : list F) (samples : list ndarray)
    (weights : list (list R)) :
  compute_samples_arguments args x = Ok (logZs, f, samples, weights) ->
  length f = length logZs
  /\ length samples = length logZs
  /\ length weights = length logZs
  /\ length (shape x) = 1
  /\ Forall (fun s => length (shape s) = 2) samples
  /\ Forall2 (fun w s => len s = Ok (Z.of_nat (length w))) weights samples.
Proof.
  unfold compute_samples_arguments.
  destruct (wrap args) as [[[[logZs0 f0] samples0] weights0] | e] eqn:Hwrap;
    cbn [bind]; [| discriminate].
  destruct (wrap_counts _ _ _ _ _ Hwrap) as (Hf & Hs & Hw).
  destruct (existsb _ samples0) eqn:Hshapes; [discriminate |].
  destruct (Nat.eqb_spec (length (shape x)) 1) as [Hx |]; cbn [negb];
    [| discriminate].
  destruct (traverse _ (zip weights0 samples0)) as [ws |] eqn:Hones;
    cbn [bind]; [| discriminate].
  destruct (traverse _ (zip ws samples0)) as [units |] eqn:Hsame;
    cbn [bind]; [| discriminate].
  intros H. inversion H. subst logZs0 f0 samples0 ws. clear H.
  apply traverse_Forall2 in Hones, Hsame.
  pose proof (Forall2_length _ _ _ Hones) as Hcount.
  rewrite length_zip in Hcount.
  repeat split; try assumption.
  - lia.
  - apply Forall_forall. intros s Hin.
    apply not_true_iff_false in Hshapes.
    destruct (Nat.eqb_spec (length (shape s)) 2) as [H2 | H2]; [exact H2 |].
    exfalso. apply Hshapes. apply existsb_exists. exists s.
    split; [apply list_elem_of_In, Hin |].
    now destruct (Nat.eqb_spec (length (shape s)) 2).
  - assert (Hlen : length weights = length samples) by lia.
    clear - Hsame Hlen. revert samples units Hsame Hlen.
    induction weights as [| w weights IH]; intros [| s samples] units Hsame Hlen;
      try discriminate; [constructor |].
    cbn [zip zip_with] in Hsame. inversion Hsame as [| ? u ? us Hhere Hrest].
    subst. constructor.
    + unfold same_length in Hhere. destruct (len s) as [n | e]; [| discriminate].
      cbn [bind] in Hhere.
      destruct (Z.eqb_spec (Z.of_nat (length w)) n) as [-> |]; [reflexivity |].
      discriminate.
    + apply (IH samples us); [exact Hrest |]. cbn [length] in Hlen. lia.
Qed.

Lemma compute_samples_arguments_consistent_witness :
  length [tt] = length [0%R]
  /\ length [{| shape := [2; 1]%Z; data := [1; 2]%Q |}] = length [0%R]
  /\ length [[1; 1]%R] = length [0%R]
  /\ length (shape {| shape := [3]%Z; data := [0; 1; 2]%Q |}) = 1
  /\ Forall (fun s => length (shape s) = 2)
            [{| shape := [2; 1]%Z; data := [1; 2]%Q |}]
  /\ Forall2 (fun w s => len s = Ok (Z.of_nat (length w)))
             [[1; 1]%R] [{| shape := [2; 1]%Z; data := [1; 2]%Q |}].
Proof.
  apply (compute_samples_arguments_consistent
           (OneModel tt {| shape := [2; 1]%Z; data := [1; 2]%Q |} None)
           {| shape := [3]%Z; data := [0; 1; 2]%Q |}).
  reflexivity.
Defined.

(** X21: with [logZs], [weights] cannot be left out.  When the counts of
    functions and of sample arrays agree with the count of evidences, a
    call with lists and without [weights] ends in the [TypeError] of
    [len(None)], and nothing is computed. *)
Theorem compute_samples_arguments_logZs_alone {F} (logZs : list R)
    (f : list F) (samples : list ndarray) (x : ndarray) :
  length f = length logZs ->
  length samples = length logZs ->
  compute_samples_arguments (Models logZs f samples None) x
  = Raise (TypeError "object of type 'NoneType' has no len()").
Proof.
  intros Hf Hs. unfold compute_samples_arguments, wrap.
  rewrite Hf, Hs, !Nat.eqb_refl. reflexivity.
Qed.

Lemma compute_samples_arguments_logZs_alone_witness :
  compute_samples_arguments
    (Models [0; -1]%R [tt; tt]
       [{| shape := [2; 1]%Z; data := [1; 2]%Q |};
        {| shape := [1; 1]%Z; data := [3]%Q |}] None)
    {| shape := [3]%Z; data := [0; 1; 2]%Q |}
  = Raise (TypeError "object of type 'NoneType' has no len()").
Proof.
  apply (compute_samples_arguments_logZs_alone [0; -1]%R [tt; tt]);
    reflexivity.
Defined.

(** X22: the plain call, with neither [weights] nor [logZs], on a
    two-dimensional array of [n >= 1] samples and a one-dimensional [x]:
    the checks pass and every sample gets the weight 1, so that
    [trim_samples] is asked to keep everything, unless [ntrim] is below
    [n], and then every sample gets the weight [ntrim / n]. *)
Theorem compute_samples_upto_trim_plain {F} (f : F) (samples x : ndarray)
    (n k m : Z) (ntrim : option Z) :
  shape samples = [n; k] ->
  shape x = [m] ->
  (1 <= n)%Z ->
  compute_samples_upto_trim (OneModel f samples None) x ntrim
  = Ok ([f], [samples],
        [repeat match ntrim with
                | Some t => if Rlt_dec (IZR t) (IZR n)
                            then (IZR t / IZR n)%R else 1%R
                | None => 1%R
                end (Z.to_nat n)]).
Proof.
  intros Hsamples Hx Hn.
  destruct samples as [dims values], x as [xdims xvalues].
  cbn [shape] in Hsamples, Hx. subst dims xdims.
  unfold compute_samples_upto_trim, compute_samples_arguments, wrap.
  cbn [bind existsb shape length Nat.eqb negb orb].
  cbn [zip zip_with traverse weights_or_ones].
  unfold len at 1. cbn [shape bind]. unfold numpy_ones.
  destruct (Z.ltb_spec n 0) as [Hneg | _]; [lia |]. cbn [bind traverse].
  cbn [zip zip_with traverse]. unfold same_length, len. cbn [shape bind].
  rewrite repeat_length, Z2Nat.id, Z.eqb_refl by lia. cbn [negb bind].
  rewrite (uniform_weights 0 1 (Z.to_nat n) ntrim) by (lra || lia).
  cbn [bind]. rewrite INR_IZR_INZ, Z2Nat.id by lia. reflexivity.
Qed.

Lemma compute_samples_upto_trim_plain_witness :
  compute_samples_upto_trim
    (OneModel tt {| shape := [4; 1]%Z; data := [1; 2; 3; 4]%Q |} None)
    {| shape := [3]%Z; data := [0; 1; 2]%Q |} (Some 2%Z)
  = Ok ([tt], [{| shape := [4; 1]%Z; data := [1; 2; 3; 4]%Q |}],
        [repeat (if Rlt_dec (IZR 2) (IZR 4)
                 then (IZR 2 / IZR 4)%R else 1%R) (Z.to_nat 4)]).
Proof.
  apply (compute_samples_upto_trim_plain tt
           {| shape := [4; 1]%Z; data := [1; 2; 3; 4]%Q |}
           {| shape := [3]%Z; data := [0; 1; 2]%Q |} 4 1 3 (Some 2%Z)).
  - reflexivity.
  - reflexivity.
  - lia.
Defined.

End ArgumentFacts.

(** ** [compute_kullback_liebler] for one model *)

Module DivergenceFacts.
Import Py Orchestration Divergence.
Local Open Scope R_scope.

Section WithCallees.
Context {F X S W M P : Type}.
Variable compute_samples :
  F -> X -> S -> option W -> option Z -> P -> option string -> result (X * M).
Variable compute_dkl :
  X -> M -> M -> P -> option string -> result (list R).

(** X23: without a cache identifier [compute_kullback_liebler] cannot
    return.  The identifier defaults to [None], and the loop builds the
    identifier of the prior's cache as [c + '_prior']: once the posterior's
    function values are computed the call ends in a [TypeError], whatever
    the functions and samples are, and before that only in what
    [compute_samples] raised. *)
Theorem compute_kullback_liebler_needs_cache (f : F) (x : X)
    (samples prior_samples : S) (weights prior_weights : option W)
    (ntrim : option Z) (parallel : P) :
  compute_kullback_liebler compute_samples compute_dkl f x samples
    prior_samples weights prior_weights ntrim parallel None
  = match compute_samples f x samples weights ntrim parallel None with
    | Ok _ => Raise (TypeError "unsupported operand type(s) for +: 'NoneType' and 'str'")
    | Raise e => Raise e
    end.
Proof.
  unfold compute_kullback_liebler.
  destruct (compute_samples f x samples weights ntrim parallel None)
    as [[x' fsamps] | e]; reflexivity.
Qed.

Lemma weighted_sum_one (dkls : list R) :
  weighted_sum [exp (0 - 0) / total [exp (0 - 0)]] [dkls] (length dkls) = dkls.
Proof.
  unfold weighted_sum. cbn [map zip_with total fold_right].
  assert (Hone : exp (0 - 0) / (exp (0 - 0) + 0) = 1).
  { pose proof (exp_pos (0 - 0)). field. lra. }
  rewrite Hone.
  apply nth_ext with (d := 0) (d' := 0).
  - now rewrite length_map, length_seq.
  - intros j Hj. rewrite length_map, length_seq in Hj.
    rewrite (nth_indep _ 0 ((fun j => 1 * nth j dkls 0 + 0) 0%nat))
      by (now rewrite length_map, length_seq).
    rewrite (map_nth (fun j => 1 * nth j dkls 0 + 0)).
    rewrite seq_nth by exact Hj. cbn [Nat.add]. lra.
Qed.

(** X24: with a cache identifier [c] and one model, the result is what
    [compute_dkl] returns for the posterior's and the prior's function
    values: the weighting by the evidence leaves the divergences as they
    are, and the prior's function values are cached under [c_prior]. *)
Theorem compute_kullback_liebler_one_model (f : F) (x x1 x2 : X)
    (samples prior_samples : S) (weights prior_weights : option W)
    (ntrim : option Z) (parallel : P) (c : string) (fsamps fsamps_prior : M)
    (dkls : list R) :
  compute_samples f x samples weights ntrim parallel (Some c)
  = Ok (x1, fsamps) ->
  compute_samples f x prior_samples prior_weights ntrim parallel
    (Some (c ++ "_prior")%string)
  = Ok (x2, fsamps_prior) ->
  compute_dkl x fsamps fsamps_prior parallel (Some c) = Ok dkls ->
  compute_kullback_liebler compute_samples compute_dkl f x samples
    prior_samples weights prior_weights ntrim parallel (Some c)
  = Ok (x, dkls).
Proof.
  intros Hposterior Hprior Hdkl. unfold compute_kullback_liebler.
  rewrite Hposterior. cbn [bind add_str]. rewrite Hprior. cbn [bind].
  rewrite Hdkl. cbn [bind amax fold_left map].
  now rewrite weighted_sum_one.
Qed.

End WithCallees.

Lemma compute_kullback_liebler_one_model_witness :
  compute_kullback_liebler
    (fun (f : unit) (x : list R) (s : list R) (w : option (list R))
         (ntrim : option Z) (parallel : bool) (cache : option string) =>
       Ok (x, s))
    (fun (x : list R) (a b : list R) (parallel : bool)
         (cache : option string) => Ok (zip_with Rminus a b))
    tt [0; 1] [3; 4] [1; 1] None None None false (Some "run"%string)
  = Ok ([0; 1], zip_with Rminus [3; 4] [1; 1]).
Proof.
  apply (compute_kullback_liebler_one_model
           (fun (f : unit) (x : list R) (s : list R) (w : option (list R))
                (ntrim : option Z) (parallel : bool) (cache : option string) =>
              Ok (x, s))
           (fun (x : list R) (a b : list R) (parallel : bool)
                (cache : option string) => Ok (zip_with Rminus a b))
           tt [0; 1] [0; 1] [0; 1] [3; 4] [1; 1] None None None false "run"%string
           [3; 4] [1; 1]); reflexivity.
Defined.

End DivergenceFacts.
